(** * ubelt/_internal/static_autogen.py: static generation of a package's
    [__init__.py] imports.

    The development embeds the Python module function by function.  Text is
    a list of characters (code points below 256) with the meaning Python 3
    gives to [str]; integers are [nat] or [Z]; [None]-able values are
    [option]; exceptions are an error type; the file system is a finite map
    from paths to the text of the files, the text being what Python reads
    and writes in text mode; the [print] calls are left out.  The functions
    of [xdoctest.static_analysis] the module calls are an interface
    ([StaticAnalysis]); [textwrap.wrap] and the string methods the module
    uses are modelled after the Python standard library. *)

From Stdlib Require Import List Ascii String ZArith Lia Bool.
From stdpp Require Import base option list gmap strings.
From Equations Require Import Equations.
Import ListNotations.

#[local] Open Scope Z_scope.
#[local] Open Scope nat_scope.
#[local] Open Scope list_scope.

(** ** Python strings *)

(** A Python [str] is the list of its characters. *)
Abbreviation str := (list ascii).

(** String literals: [py"abc"] is the Python literal ['abc']. *)
Notation "'py' s" := (list_ascii_of_string s%string)
  (at level 1, s at level 0, only parsing).

Module Py.

(** The characters that have no literal form here. *)
Definition TAB : ascii := "009"%char.
Definition LF : ascii := "010"%char.
Definition CR : ascii := "013"%char.
Definition DQUOTE : ascii := "034"%char.
Definition SQUOTE : ascii := "039"%char.

(** [c.isspace()] for a one-character [str] (Python 3, code points below
    256): the characters [str.strip] removes. *)
Definition isspace (c : ascii) : bool :=
  let n := nat_of_ascii c in
  ((9 <=? n) && (n <=? 13)) || ((28 <=? n) && (n <=? 32))
  || (n =? 133) || (n =? 160).

(** [s.lstrip()] *)
Fixpoint lstrip (s : str) : str :=
  match s with
  | [] => []
  | c :: r => if isspace c then lstrip r else s
  end.

(** [s.rstrip()] *)
Fixpoint rstrip (s : str) : str :=
  match s with
  | [] => []
  | c :: r =>
      match rstrip r with
      | [] => if isspace c then [] else [c]
      | r' => c :: r'
      end
  end.

(** [s.strip()] *)
Definition strip (s : str) : str := rstrip (lstrip s).

(** [s.startswith(prefix)] *)
Fixpoint startswith (s prefix : str) {struct prefix} : bool :=
  match prefix with
  | [] => true
  | p :: prefix' =>
      match s with
      | [] => false
      | c :: s' => Ascii.eqb c p && startswith s' prefix'
      end
  end.

(** [c in s] for a one-character [c]. *)
Definition contains (c : ascii) (s : str) : bool :=
  existsb (Ascii.eqb c) s.

(** [s.find(c)] for a one-character [c]: the lowest index, or [-1]. *)
Fixpoint find (s : str) (c : ascii) : Z :=
  match s with
  | [] => (-1)%Z
  | d :: r =>
      if Ascii.eqb d c then 0%Z
      else let k := find r c in if (k <? 0)%Z then (-1)%Z else (k + 1)%Z
  end.

(** [s[:k]], a negative [k] counting from the end. *)
Definition slice_to (s : str) (k : Z) : str :=
  if (k <? 0)%Z then take (Z.to_nat (Z.of_nat (length s) + k)) s
  else take (Z.to_nat k) s.

(** [s[k:]] for [k >= 0]. *)
Definition slice_from (s : str) (k : nat) : str := drop k s.

(** [sep.join(parts)] *)
Fixpoint join (sep : str) (parts : list str) : str :=
  match parts with
  | [] => []
  | [p] => p
  | p :: rest => p ++ sep ++ join sep rest
  end.

(** [s.replace(old, new)] for a one-character [old]. *)
Definition replace (s : str) (old : ascii) (new : str) : str :=
  flat_map (fun c => if Ascii.eqb c old then new else [c]) s.

(** [c * n] for a one-character [c]. *)
Definition times (c : ascii) (n : nat) : str := repeat c n.

(** [s.split()]: the maximal runs of characters that are not white space. *)
Fixpoint split (s : str) : list str :=
  match s with
  | [] => []
  | c :: r =>
      if isspace c then split r
      else match r with
           | [] => [[c]]
           | d :: _ =>
               if isspace d then [c] :: split r
               else match split r with
                    | w :: ws => (c :: w) :: ws
                    | [] => [[c]]
                    end
           end
  end.

(** [s.expandtabs(8)], from column [col]. *)
Fixpoint expandtabs_from (col : nat) (s : str) : str :=
  match s with
  | [] => []
  | c :: r =>
      if Ascii.eqb c TAB then
        let incr := 8 - col mod 8 in
        repeat " "%char incr ++ expandtabs_from (col + incr) r
      else if Ascii.eqb c LF || Ascii.eqb c CR then c :: expandtabs_from 0 r
      else c :: expandtabs_from (S col) r
  end.

Definition expandtabs (s : str) : str := expandtabs_from 0 s.

(** [file.readlines()] on the text of a file: every line keeps its newline,
    the last line may lack one.  The text is the text as Python decodes it
    (universal newlines: line ends are [LF]). *)
Fixpoint readlines (text : str) : list str :=
  match text with
  | [] => []
  | c :: r =>
      if Ascii.eqb c LF then [c] :: readlines r
      else match readlines r with
           | [] => [[c]]
           | l :: ls => (c :: l) :: ls
           end
  end.

(** Exceptions the module can end with.  [ValueError] carries its message;
    [NotModelled] marks a [%]-conversion other than [%s] and [%%], which
    the embedding does not interpret. *)
Inductive exn : Type :=
| ValueError (msg : str)
| TypeError
| IOError (path : str)
| AssertionError
| SyntaxError
| NotModelled.

Inductive result (A : Type) : Type :=
| Ok (a : A)
| Raise (e : exn).
Arguments Ok {A} a.
Arguments Raise {A} e.

Definition rbind {A B} (r : result A) (k : A -> result B) : result B :=
  match r with
  | Ok a => k a
  | Raise e => Raise e
  end.

Definition rmap {A B} (f : A -> B) (r : result A) : result B :=
  rbind r (fun a => Ok (f a)).

(** [for x in xs: ys.append(f(x))] with an [f] that may raise. *)
Fixpoint rmapM {A B} (f : A -> result B) (xs : list A) : result (list B) :=
  match xs with
  | [] => Ok []
  | x :: r => rbind (f x) (fun y => rmap (cons y) (rmapM f r))
  end.

(** [fmt % args] for a tuple [args] of strings, conversions [%s] and [%%]. *)
Fixpoint percent (fmt : str) (args : list str) : result str :=
  match fmt with
  | [] => match args with [] => Ok [] | _ :: _ => Raise TypeError end
  | c :: r =>
      if Ascii.eqb c "%"%char then
        match r with
        | [] => Raise (ValueError (py"incomplete format"))
        | d :: r' =>
            if Ascii.eqb d "%"%char then rmap (cons "%"%char) (percent r' args)
            else if Ascii.eqb d "s"%char then
              match args with
              | [] => Raise TypeError
              | a :: args' => rmap (app a) (percent r' args')
              end
            else Raise NotModelled
        end
      else rmap (cons c) (percent r args)
  end.

End Py.

Import Py.

(** ** textwrap.wrap, as the module calls it

    [textwrap.wrap(text, break_long_words=False, width=79, initial_indent='',
    subsequent_indent=p)], every other option at its default
    ([expand_tabs], [replace_whitespace], [drop_whitespace],
    [break_on_hyphens], no [max_lines]).  The split into chunks is the one
    [TextWrapper.wordsep_re] makes on text without ['-']: hyphens, the only
    other break opportunity, are not modelled. *)
Module Textwrap.

(** [textwrap._whitespace] *)
Definition _whitespace : str :=
  [TAB; LF; "011"%char; "012"%char; CR; " "%char].

(** [c in _whitespace] *)
Definition is_whitespace (c : ascii) : bool := contains c _whitespace.

(** [TextWrapper._munge_whitespace]: tabs expanded, then every white-space
    character replaced by a space. *)
Definition _munge_whitespace (text : str) : str :=
  map (fun c => if is_whitespace c then " "%char else c) (expandtabs text).

(** [TextWrapper._split]: the maximal runs of white space and of other
    characters, in order. *)
Fixpoint _split (text : str) : list str :=
  match text with
  | [] => []
  | c :: r =>
      match _split r with
      | (d :: w) :: chunks =>
          if Bool.eqb (is_whitespace c) (is_whitespace d)
          then (c :: d :: w) :: chunks
          else [c] :: (d :: w) :: chunks
      | _ => [[c]]
      end
  end.

(** [chunk.strip() == ''] *)
Definition blank (chunk : str) : bool :=
  match strip chunk with [] => true | _ :: _ => false end.

(** The inner [while chunks:] of [_wrap_chunks]: chunks are moved to the
    current line as long as they fit. *)
Fixpoint fill_line (width : Z) (cur_line : list str) (cur_len : Z)
    (chunks : list str) : list str * list str :=
  match chunks with
  | [] => (cur_line, [])
  | chunk :: rest =>
      let l := Z.of_nat (length chunk) in
      if (cur_len + l <=? width)%Z
      then fill_line width (cur_line ++ [chunk]) (cur_len + l)%Z rest
      else (cur_line, chunks)
  end.

(** [TextWrapper._handle_long_word] with [break_long_words=False]: the long
    chunk goes on the current line only when that line is empty. *)
Definition _handle_long_word (chunks cur_line : list str)
    : list str * list str :=
  match cur_line, chunks with
  | [], chunk :: rest => ([chunk], rest)
  | _, _ => (cur_line, chunks)
  end.

(** The start of a turn of the outer [while chunks:] of [_wrap_chunks]: a
    blank first chunk is dropped, unless no line was made yet. *)
Definition drop_leading (lines chunks : list str) : list str :=
  match chunks, lines with
  | chunk :: rest, _ :: _ => if blank chunk then rest else chunks
  | _, _ => chunks
  end.

(** The middle of a turn: the line is filled, and a chunk too long for any
    line is handed to [_handle_long_word]. *)
Definition take_line (width : Z) (chunks : list str) : list str * list str :=
  let '(cur_line, chunks) := fill_line width [] 0%Z chunks in
  match chunks with
  | chunk :: _ =>
      if (width <? Z.of_nat (length chunk))%Z
      then _handle_long_word chunks cur_line
      else (cur_line, chunks)
  | [] => (cur_line, chunks)
  end.

(** The end of a turn: a blank last chunk of the line is dropped. *)
Definition drop_trailing (cur_line : list str) : list str :=
  match last cur_line with
  | Some chunk => if blank chunk then removelast cur_line else cur_line
  | None => cur_line
  end.

(** One turn of the outer [while chunks:] of [_wrap_chunks]: the lines and
    the chunks left after it. *)
Definition wrap_line (width : Z) (initial_indent subsequent_indent : str)
    (lines chunks : list str) : list str * list str :=
  let indent :=
    match lines with [] => initial_indent | _ :: _ => subsequent_indent end in
  let width := (width - Z.of_nat (length indent))%Z in
  let '(cur_line, chunks) := take_line width (drop_leading lines chunks) in
  match drop_trailing cur_line with
  | [] => (lines, chunks)
  | (_ :: _) as cur_line => (lines ++ [indent ++ concat cur_line], chunks)
  end.

(** [TextWrapper._wrap_chunks]: the outer loop runs until no chunk is left. *)
Equations? _wrap_chunks (width : Z) (initial_indent subsequent_indent : str)
    (lines chunks : list str) : list str by wf (length chunks) lt :=
  _wrap_chunks width ii si lines [] := lines;
  _wrap_chunks width ii si lines (chunk :: rest) :=
    _wrap_chunks width ii si
      (wrap_line width ii si lines (chunk :: rest)).1
      (wrap_line width ii si lines (chunk :: rest)).2.
Proof.
  (* every turn of the loop consumes a chunk *)
  assert (Hfill : forall w chunks cur_line cur_len,
             length (fill_line w cur_line cur_len chunks).2 <= length chunks).
  { intros w chunks. induction chunks as [|c cs IH]; intros cl len; simpl.
    - lia.
    - destruct (len + Z.of_nat (length c) <=? w)%Z.
      + specialize (IH (cl ++ [c]) (len + Z.of_nat (length c))%Z). lia.
      + simpl. lia. }
  assert (Hlong : forall chunks cur_line : list str,
             length (_handle_long_word chunks cur_line).2 <= length chunks).
  { intros chunks cl. unfold _handle_long_word.
    destruct cl, chunks; simpl; lia. }
  assert (Htake : forall w chunks,
             length (take_line w chunks).2 <= length chunks).
  { intros w chunks. unfold take_line.
    pose proof (Hfill w chunks [] 0%Z) as Hle.
    destruct (fill_line w [] 0%Z chunks) as [cl [|c2 r2]]; [exact Hle|].
    destruct (w <? Z.of_nat (length c2))%Z; [|exact Hle].
    pose proof (Hlong (c2 :: r2) cl). simpl in *. lia. }
  assert (Hprogress : forall w c cs,
             length (take_line w (c :: cs)).2 < length (c :: cs)).
  { intros w c cs. unfold take_line. cbn [fill_line].
    destruct (0 + Z.of_nat (length c) <=? w)%Z eqn:E.
    - pose proof (Hfill w cs ([] ++ [c]) (0 + Z.of_nat (length c))%Z) as Hle.
      destruct (fill_line w ([] ++ [c]) _ cs) as [cl [|c2 r2]];
        [simpl in *; lia|].
      destruct (w <? Z.of_nat (length c2))%Z; [|simpl in *; lia].
      pose proof (Hlong (c2 :: r2) cl). simpl in *. lia.
    - assert (Hw : (w <? Z.of_nat (length c))%Z = true)
        by (apply Z.ltb_lt; lia).
      rewrite Hw. simpl. lia. }
  unfold wrap_line.
  set (w := (width - _)%Z).
  assert (Hrest : length (take_line w (drop_leading lines (chunk :: rest))).2
                  < length (chunk :: rest)).
  { unfold drop_leading. destruct lines as [|line lines].
    - apply Hprogress.
    - destruct (blank chunk).
      + pose proof (Htake w rest). simpl. lia.
      + apply Hprogress. }
  destruct (take_line w (drop_leading lines (chunk :: rest))) as [cl chunks'].
  destruct (drop_trailing cl); exact Hrest.
Qed.

(** [textwrap.wrap(text, break_long_words=False, width=width,
    initial_indent='', subsequent_indent=subsequent_indent)], for a positive
    [width]. *)
Definition wrap (text : str) (width : Z) (subsequent_indent : str)
    : list str :=
  _wrap_chunks width [] subsequent_indent [] (_split (_munge_whitespace text)).

End Textwrap.

(** ** The renderer *)

(** [_indent(str_, indent)] *)
Definition _indent (str_ indent : str) : str :=
  indent ++ replace str_ LF (LF :: indent).

(** [_make_module_header()] *)
Definition _make_module_header : str :=
  join [LF]
    [py"# flake8:" ++ py" noqa";
     py"from __future__ import absolute_import, division, print_function, unicode_literals"].

(** [_make_imports_str(imports, rootmodname)]: the format string is built
    with [str.format], then each name is put in with [%]. *)
Definition _make_imports_str (imports : list str) (rootmodname : str)
    : result str :=
  let imports_fmtstr := py"from " ++ rootmodname ++ py" import %s" in
  rmap (join [LF])
       (rmapM (fun name => percent imports_fmtstr [name]) imports).

(** [_pack_fromimport(tup)], the function local to [_make_fromimport_str];
    [rootmodname] is the variable it closes over. *)
Definition _pack_fromimport (rootmodname : str) (tup : str * list str) : str :=
  let name := tup.1 in
  let fromlist := tup.2 in
  let from_module_str :=
    py"from " ++ rootmodname ++ py"." ++ name ++ py" import (" in
  let newline_prefix := times " "%char (length from_module_str) in
  let rawstr :=
    if 0 <? length fromlist
    then from_module_str ++ join (py", ") fromlist ++ py",)"
    else [] in
  join [LF] (Textwrap.wrap rawstr 79 newline_prefix).

(** [_make_fromimport_str(from_imports, rootmodname)] *)
Definition _make_fromimport_str (from_imports : list (str * list str))
    (rootmodname : str) : str :=
  let rootmodname :=
    if bool_decide (rootmodname = py".") then [] else rootmodname in
  join [LF] (map (_pack_fromimport rootmodname) from_imports).

(** [_initstr(modname, imports, from_imports, withheader)] *)
Definition _initstr (modname : str) (imports : list str)
    (from_imports : list (str * list str)) (withheader : bool) : result str :=
  let header := if withheader then _make_module_header else [] in
  rbind (_make_imports_str imports modname) (fun import_str =>
  let fromimport_str := _make_fromimport_str from_imports modname in
  Ok (join [LF]
        (List.filter (fun str_ => 0 <? length str_)
                     [header; import_str; fromimport_str]))).

(** ** The merger: the region of the init file that is rewritten *)

(** The variables of the scan of [_autogen_init_write]. *)
Record Region : Type := mkRegion {
  startline : nat;
  endline : nat;
  explicit : bool;
  init_indent : str;
}.

Definition set_startline (n : nat) (r : Region) : Region :=
  mkRegion n (endline r) (explicit r) (init_indent r).

Definition set_endline (n : nat) (r : Region) : Region :=
  mkRegion (startline r) n (explicit r) (init_indent r).

Definition BEGIN_TAG : str := py"# <AUTOGEN_INIT>".
Definition END_TAG : str := py"# </AUTOGEN_INIT>".

(** Whether [line.strip()] is one of the two triple-quote delimiters. *)
Definition is_docstring_delimiter (line : str) : bool :=
  bool_decide (strip line = [DQUOTE; DQUOTE; DQUOTE])
  || bool_decide (strip line = [SQUOTE; SQUOTE; SQUOTE]).

(** The body of [for lineno, line in enumerate(lines)]: its five [if]s in
    order. *)
Definition scan_line (lineno : nat) (line : str) (r : Region) : Region :=
  let r := if negb (explicit r) && is_docstring_delimiter line
           then set_startline (lineno + 1) r else r in
  let r := if negb (explicit r) && startswith (strip line) (py"from __future__")
           then set_startline (lineno + 1) r else r in
  let r := if negb (explicit r) && startswith (strip line) (py"#")
           then set_startline (lineno + 1) r else r in
  let r := if startswith (strip line) BEGIN_TAG
           then mkRegion (lineno + 1) (endline r) true
                         (slice_to line (find line "#"%char))
           else r in
  let r := if explicit r && startswith (strip line) END_TAG
           then set_endline lineno r else r in
  r.

(** The [for] loop, from line number [lineno] on. *)
Fixpoint scan_lines (lineno : nat) (lines : list str) (r : Region) : Region :=
  match lines with
  | [] => r
  | line :: rest => scan_lines (S lineno) rest (scan_line lineno line r)
  end.

(** The loop with the initial values of its variables. *)
Definition find_region (lines : list str) : Region :=
  scan_lines 0 lines (mkRegion 0 (length lines) false []).

(** The text [_autogen_init_write] computes from the lines of the init
    file and [initstr]: [new_text], or the failed [assert]. *)
Definition new_text (lines : list str) (initstr : str) : result str :=
  let r := find_region lines in
  let initstr_ := _indent initstr (init_indent r) ++ [LF] in
  if startline r <=? endline r then
    let new_lines :=
      take (startline r) lines ++ [initstr_] ++ drop (endline r) lines in
    Ok (rstrip (concat new_lines))
  else Raise AssertionError.

(** ** The world: file system and effects *)

(** The directories that exist, the files with their text, and the paths
    opened for reading so far.  Standard output is not part of the state:
    the [print] calls of the module are diagnostics. *)
Record World : Type := mkWorld {
  dirs : gset str;
  files : gmap str str;
  opened : list str;
}.

(** A computation: a result (or an exception) and the world after it. *)
Definition M (A : Type) : Type := World -> result A * World.

Definition ret {A} (a : A) : M A := fun w => (Ok a, w).

Definition raise {A} (e : exn) : M A := fun w => (Raise e, w).

Definition bind {A B} (m : M A) (k : A -> M B) : M B :=
  fun w => match m w with
           | (Ok a, w') => k a w'
           | (Raise e, w') => (Raise e, w')
           end.

Definition lift {A} (r : result A) : M A := fun w => (r, w).

Declare Scope py_scope.
Delimit Scope py_scope with py_m.
Notation "'do' x <- m ; k" := (bind m (fun x => k))
  (at level 10, x pattern, m at level 100, k at level 200) : py_scope.
#[local] Open Scope py_scope.

(** [for x in xs: ys.append(f(x))] with an effectful [f]. *)
Fixpoint forM {A B} (xs : list A) (f : A -> M B) : M (list B) :=
  match xs with
  | [] => ret []
  | x :: r => do y <- f x; do ys <- forM r f; ret (y :: ys)
  end.

(** [os.path.exists(path)] *)
Definition path_exists (path : str) : M bool :=
  fun w => (Ok (bool_decide (path ∈ dirs w)
                || bool_decide (is_Some (files w !! path))), w).

(** [open(path, 'r')] followed by [read()]; [path] may be [None]. *)
Definition read_file (path : option str) : M str :=
  fun w =>
    match path with
    | None => (Raise TypeError, w)
    | Some p =>
        match files w !! p with
        | Some text => (Ok text, mkWorld (dirs w) (files w) (opened w ++ [p]))
        | None => (Raise (IOError p), w)
        end
    end.

(** [open(path, 'w')] followed by [write(text)] *)
Definition write_file (path text : str) : M unit :=
  fun w => (Ok tt, mkWorld (dirs w) (<[path := text]> (files w)) (opened w)).

(** [os.path.join(a, b)] (posixpath) *)
Definition os_path_join (a b : str) : str :=
  if startswith b (py"/") then b
  else match last a with
       | None => b
       | Some c => if Ascii.eqb c "/"%char then a ++ b else a ++ py"/" ++ b
       end.

(** ** xdoctest.static_analysis

    The functions of the external module the code calls.  Their answers
    depend on which files and directories exist, which the module never
    changes: it only rewrites a file that is there. *)
Class StaticAnalysis : Type := {
  (** [static.modname_to_modpath(modname)]: the path, or [None] *)
  modname_to_modpath : str -> option str;
  (** [static.modpath_to_modname(modpath)] *)
  modpath_to_modname : str -> str;
  (** [static.package_modpaths(pkgpath)], in the order it yields *)
  package_modpaths : str -> list str;
  (** [static.TopLevelVisitor.parse(source).calldefs.keys()], in order;
      [None] when the source does not parse *)
  calldefs : str -> option (list str);
}.

Section Autogen.
Context {static : StaticAnalysis}.

(** The [else] branch of [_static_parse_imports]: the loop over
    [static.package_modpaths(modpath)], on the pair of lists
    [(imports, import_paths)]. *)
Definition enumerate_step (modname : str)
    (acc : list str * list (option str)) (sub_modpath : str)
    : list str * list (option str) :=
  let sub_modname := modpath_to_modname sub_modpath in
  let rel_modname := slice_from sub_modname (length modname + 1) in
  if startswith rel_modname (py"_") then acc
  else (acc.1 ++ [rel_modname], acc.2 ++ [Some sub_modpath]).

(** The body of the loop over [zip(import_paths, imports)]. *)
Definition parse_submodule (entry : option str * str) : M (str * list str) :=
  let '(sub_modpath, rel_modname) := entry in
  do source <- read_file sub_modpath;
  do top_level <- lift (match calldefs source with
                        | Some keys => Ok keys
                        | None => Raise SyntaxError
                        end);
  let valid_callnames :=
    List.filter
      (fun callname =>
         negb (contains "."%char callname || startswith callname (py"_")))
      top_level in
  ret (rel_modname, valid_callnames).

(** [_static_parse_imports(modpath, imports)] *)
Definition _static_parse_imports (modpath : str) (imports : option (list str))
    : M (str * list str * list (str * list str)) :=
  let modname := modpath_to_modname modpath in
  let '(imports, import_paths) :=
    match imports with
    | Some imports =>
        (imports,
         map (fun m => modname_to_modpath (modname ++ py"." ++ m)) imports)
    | None =>
        fold_left (enumerate_step modname) (package_modpaths modpath) ([], [])
    end in
  do from_imports <- forM (zip import_paths imports) parse_submodule;
  ret (modname, imports, from_imports).

(** [_autogen_init_write(modpath, initstr)] *)
Definition _autogen_init_write (modpath initstr : str) : M unit :=
  let init_fpath := os_path_join modpath (py"__init__.py") in
  do found <- path_exists init_fpath;
  if negb found then raise AssertionError
  else
    do text <- read_file (Some init_fpath);
    let lines := readlines text in
    do new_text <- lift (new_text lines initstr);
    write_file init_fpath new_text.

(** [autogen_init(modpath_or_name, imports, dry)] *)
Definition autogen_init (modpath_or_name : str) (imports : option (list str))
    (dry : bool) : M unit :=
  do found <- path_exists modpath_or_name;
  do modpath <-
    (if found then ret modpath_or_name
     else match modname_to_modpath modpath_or_name with
          | Some modpath => ret modpath
          | None => raise (ValueError (py"Invalid module " ++ modpath_or_name))
          end);
  do plan <- _static_parse_imports modpath imports;
  let '(modname, imports, from_imports) := plan in
  do initstr <- lift (_initstr modname imports from_imports false);
  if dry then ret tt
  else _autogen_init_write modpath initstr.

End Autogen.

(** ** Notions the properties are stated with *)

(** [s.split(sep)] for a one-character [sep]: the inverse of [join]. *)
Fixpoint split_on (sep : ascii) (s : str) : list str :=
  match s with
  | [] => [[]]
  | c :: r =>
      if Ascii.eqb c sep then [] :: split_on sep r
      else match split_on sep r with
           | l :: ls => (c :: l) :: ls
           | [] => [[c]]
           end
  end.

(** The lines of a rendered block that hold something. *)
Definition content_lines (block : str) : list str :=
  List.filter (fun l => 0 <? length l) (split_on LF block).

(** The lines a part of the block stands for: none when the part is empty,
    otherwise all its lines, the empty ones too. *)
Definition part_lines (part : str) : list str :=
  match part with
  | [] => []
  | _ :: _ => split_on LF part
  end.

(** A line that carries the begin tag, and one that carries the end tag. *)
Definition is_begin (line : str) : bool := startswith (strip line) BEGIN_TAG.
Definition is_end (line : str) : bool := startswith (strip line) END_TAG.

(** A line the scan moves the start line past when no begin tag was seen: a
    docstring delimiter, a future import or a comment. *)
Definition is_marker (line : str) : bool :=
  is_docstring_delimiter line
  || startswith (strip line) (py"from __future__")
  || startswith (strip line) (py"#").

(** The names the builder keeps: no dot, no leading underscore. *)
Definition is_public (callname : str) : bool :=
  negb (contains "."%char callname || startswith callname (py"_")).

Section PlanNotions.
Context {static : StaticAnalysis}.

(** A submodule that resolves to a file that can be read and parsed. *)
Definition readable (w : World) (path : option str) (keys : list str) : Prop :=
  exists p text,
    path = Some p /\ files w !! p = Some text /\ calldefs text = Some keys.

(** The name of a submodule relative to the package. *)
Definition rel_modname (modname sub_modpath : str) : str :=
  slice_from (modpath_to_modname sub_modpath) (length modname + 1).

(** The submodules the enumeration keeps. *)
Definition retained (modname : str) (paths : list str) : list str :=
  List.filter (fun p => negb (startswith (rel_modname modname p) (py"_")))
              paths.

(** The directory [autogen_init] works on: the path given when it exists,
    what the name resolves to otherwise. *)
Definition root_path (w : World) (modpath_or_name : str) : option str :=
  if bool_decide (modpath_or_name ∈ dirs w)
     || bool_decide (is_Some (files w !! modpath_or_name))
  then Some modpath_or_name
  else modname_to_modpath modpath_or_name.

(** The paths of the submodules the builder reads. *)
Definition submodule_paths (modpath : str) (imports : option (list str))
    : list (option str) :=
  let modname := modpath_to_modname modpath in
  match imports with
  | Some imports =>
      map (fun m => modname_to_modpath (modname ++ py"." ++ m)) imports
  | None => map Some (retained modname (package_modpaths modpath))
  end.

End PlanNotions.

Module TextwrapSpec.
Import Textwrap.

(** Whether a text starts with white space. *)
Definition hd_space (s : str) : option bool :=
  match s with [] => None | d :: _ => Some (isspace d) end.

(** Ends in white space, or is empty. *)
Definition tl_space (s : str) : Prop :=
  s = [] \/ exists s' d, s = s' ++ [d] /\ isspace d = true.

(** The sort of a chunk: white space or not, by its first character. *)
Definition kind (chunk : str) : bool :=
  match chunk with c :: _ => is_whitespace c | [] => false end.

(** A chunk is not empty and all of one sort. *)
Definition uniform (chunk : str) : Prop :=
  chunk <> [] /\ Forall (fun c => is_whitespace c = kind chunk) chunk.

(** Chunks of white space and chunks of other characters take turns. *)
Fixpoint alternating (chunks : list str) : Prop :=
  match chunks with
  | [] => True
  | chunk :: rest =>
      uniform chunk
      /\ match rest with [] => True | next :: _ => kind next = negb (kind chunk) end
      /\ alternating rest
  end.

(** The number of characters of the chunks of a line. *)
Definition total (cur_line : list str) : Z := Z.of_nat (length (concat cur_line)).

(** A line fits the width, or it is its indentation followed by one word
    that fits on no line. *)
Definition line_ok (width : Z) (ii si line : str) : Prop :=
  (Z.of_nat (length line) <= width)%Z
  \/ exists word,
       word <> []
       /\ Forall (fun c => is_whitespace c = false) word
       /\ (line = ii ++ word \/ line = si ++ word).

End TextwrapSpec.

(** A text without white space. *)
Definition no_space (s : str) : Prop := Forall (fun c => isspace c = false) s.

(** A name [textwrap] has no place to break: no white space, no hyphen. *)
Definition plain (s : str) : Prop :=
  no_space s /\ contains "-"%char s = false.

(** The words the names of a from-import statement make: each name with
    its comma, the last one with the closing parenthesis too. *)
Fixpoint name_words (fromlist : list str) : list str :=
  match fromlist with
  | [] => []
  | [name] => [name ++ py",)"]
  | name :: rest => (name ++ py",") :: name_words rest
  end.

(** The words of the from-import statement of a plan entry: none for an
    entry without names. *)
Definition statement_words (rootmodname : str) (tup : str * list str)
    : list str :=
  match name_words tup.2 with
  | [] => []
  | first :: others =>
      py"from" :: (rootmodname ++ py"." ++ tup.1) :: py"import"
      :: (py"(" ++ first) :: others
  end.

(** A line that ends with its newline and has no other. *)
Definition complete (line : str) : Prop :=
  exists body, line = body ++ [LF] /\ Forall (fun c => c <> LF) body.

(** A text without the character [#]. *)
Definition no_hash (s : str) : Prop := contains "#"%char s = false.

(** The plan has no [#] in its names. *)
Definition no_hash_plan (plan : str * list str * list (str * list str)) : Prop :=
  no_hash plan.1.1 /\ Forall no_hash plan.1.2
  /\ Forall (fun entry => no_hash entry.1 /\ Forall no_hash entry.2) plan.2.

(** A plan whose block the scan of the init file passes over: a root name
    without [%] that does not start with [__future__], and names without
    white space, hyphen or [#]. *)
Definition neutral_plan
    (plan : str * list str * list (str * list str)) : Prop :=
  plain plan.1.1 /\ no_hash plan.1.1 /\ contains "%"%char plan.1.1 = false
  /\ startswith plan.1.1 (py"__future__") = false
  /\ Forall no_space plan.1.2
  /\ Forall (fun entry =>
               plain entry.1 /\ no_hash entry.1
               /\ Forall (fun n => plain n /\ no_hash n) entry.2) plan.2.

(** ** A package to run the code on

    The package [pkg] of the scenarios: [pkg/a.py] defines [foo] and
    [_bar], [pkg/_hidden.py] defines [secret], [pkg/b.py] defines nothing.
    The analysis functions are small stand-ins that behave on these paths
    as the real ones do. *)
Module Pkg.

Definition a_py : str :=
  py"def foo():" ++ [LF] ++ py"    return 1" ++ [LF]
  ++ py"def _bar():" ++ [LF] ++ py"    return 2" ++ [LF].

Definition hidden_py : str :=
  py"def secret():" ++ [LF] ++ py"    return 3" ++ [LF].

Definition b_py : str := py"VALUE = 1" ++ [LF].

Definition init_py : str :=
  py"# <AUTOGEN_INIT>" ++ [LF] ++ py"import stale" ++ [LF]
  ++ py"# </AUTOGEN_INIT>" ++ [LF].

Definition world : World :=
  mkWorld {[ py"pkg" ]}
          (list_to_map [(py"pkg/__init__.py", init_py);
                        (py"pkg/a.py", a_py);
                        (py"pkg/_hidden.py", hidden_py);
                        (py"pkg/b.py", b_py)])
          [].

(** The name a [def] line defines. *)
Definition def_name (line : str) : option str :=
  if startswith line (py"def ")
  then Some (drop 4 (take (Z.to_nat (find line "("%char)) line))
  else None.

Definition module_files : list (str * str) :=
  [(py"pkg.a", py"pkg/a.py");
   (py"pkg._hidden", py"pkg/_hidden.py");
   (py"pkg.b", py"pkg/b.py")].

Definition static : StaticAnalysis := {|
  modname_to_modpath name :=
    snd <$> List.find (fun e => bool_decide (e.1 = name)) module_files;
  modpath_to_modname path :=
    match List.find (fun e => bool_decide (e.2 = path)) module_files with
    | Some e => e.1
    | None => path
    end;
  package_modpaths pkgpath :=
    if bool_decide (pkgpath = py"pkg") then map snd module_files else [];
  calldefs source := Some (omap def_name (readlines source));
|}.

End Pkg.

(** The init file of scenario C: a one-line docstring, a future import, a
    comment and old code. *)
Definition scenario_C : str :=
  [DQUOTE; DQUOTE; DQUOTE] ++ py"doc" ++ [DQUOTE; DQUOTE; DQUOTE] ++ [LF]
  ++ py"from __future__ import x" ++ [LF]
  ++ py"# comment" ++ [LF]
  ++ py"old_code_here" ++ [LF].

(** An init file with a second end tag after the first. *)
Definition two_end_tags : list str :=
  [py"# <AUTOGEN_INIT>" ++ [LF];
   py"import old" ++ [LF];
   py"# </AUTOGEN_INIT>" ++ [LF];
   py"keep = 1" ++ [LF];
   py"# </AUTOGEN_INIT>" ++ [LF]].

(** An init file with a second begin tag after the end tag. *)
Definition begin_after_end : list str :=
  [py"# <AUTOGEN_INIT>" ++ [LF];
   py"# </AUTOGEN_INIT>" ++ [LF];
   py"keep = 1" ++ [LF];
   py"# <AUTOGEN_INIT>" ++ [LF]].

(** * Properties *)

(** ** Strings *)

Lemma isspace_LF : isspace LF = true.
Proof. reflexivity. Qed.

Lemma concat_readlines text : concat (readlines text) = text.
Proof.
  induction text as [|c r IH]; simpl; [reflexivity|].
  destruct (Ascii.eqb c LF).
  - simpl. now rewrite IH.
  - destruct (readlines r) as [|l ls]; simpl in *.
    + now rewrite <- IH.
    + now rewrite <- IH.
Qed.

Lemma replace_same s c : replace s c [c] = s.
Proof.
  unfold replace. induction s as [|d r IH]; simpl; [reflexivity|].
  destruct (Ascii.eqb_spec d c) as [->|_]; simpl; now rewrite IH.
Qed.

Lemma _indent_empty s : _indent s [] = s.
Proof. unfold _indent. simpl. apply replace_same. Qed.

Lemma rstrip_nil_iff s : rstrip s = [] <-> Forall (fun c => isspace c = true) s.
Proof.
  induction s as [|c r IH]; simpl.
  - split; auto.
  - destruct (rstrip r) as [|d r'] eqn:E.
    + destruct (isspace c) eqn:Ec.
      * split; [intros _; constructor; [exact Ec | now apply IH] | reflexivity].
      * split; [discriminate|]. intros Hf. inversion Hf; congruence.
    + split; [discriminate|]. intros Hf. inversion Hf as [|? ? _ Hr]; subst.
      apply IH in Hr. discriminate.
Qed.

(** What [rstrip] removes is white space at the end. *)
Lemma rstrip_spec s :
  exists ws, Forall (fun c => isspace c = true) ws /\ rstrip s ++ ws = s.
Proof.
  induction s as [|c r IH]; simpl.
  - exists []. split; [constructor | reflexivity].
  - destruct IH as (ws & Hws & Heq).
    destruct (rstrip r) as [|d r'] eqn:E.
    + simpl in Heq. subst ws.
      destruct (isspace c) eqn:Ec.
      * exists (c :: r). split; [constructor; assumption | reflexivity].
      * exists r. split; [assumption | reflexivity].
    + exists ws. split; [assumption|]. simpl. now rewrite <- Heq.
Qed.

Lemma rstrip_app_keep a b : rstrip b <> [] -> rstrip (a ++ b) = a ++ rstrip b.
Proof.
  intros Hb. induction a as [|c a IH]; simpl; [reflexivity|].
  rewrite IH. destruct (a ++ rstrip b) eqn:E; [|reflexivity].
  apply app_eq_nil in E. tauto.
Qed.

Lemma rstrip_idem s : rstrip (rstrip s) = rstrip s.
Proof.
  induction s as [|c r IH]; simpl; [reflexivity|].
  destruct (rstrip r) as [|d r'] eqn:E.
  - destruct (isspace c) eqn:Ec; simpl; [reflexivity|]. now rewrite Ec.
  - change (rstrip (c :: d :: r'))
      with (match rstrip (d :: r') with
            | [] => if isspace c then [] else [c]
            | r'' => c :: r''
            end).
    rewrite IH. reflexivity.
Qed.

(** What [rstrip] leaves does not end with white space. *)
Lemma rstrip_last s : forall pre c,
  rstrip s = pre ++ [c] -> isspace c = false.
Proof.
  induction s as [|d r IH]; intros pre c H; [now destruct pre|].
  cbn [rstrip] in H. destruct (rstrip r) as [|x r'] eqn:Er.
  - destruct (isspace d) eqn:Ed; [now destruct pre|].
    destruct pre as [|p pre]; [now injection H as <-|].
    injection H as _ H. now destruct pre.
  - destruct pre as [|p pre]; [discriminate|].
    injection H as _ H. now apply (IH pre c).
Qed.

(** White space at the end does not count for [rstrip]. *)
Lemma rstrip_app_space a ws :
  Forall (fun c => isspace c = true) ws -> rstrip (a ++ ws) = rstrip a.
Proof.
  intros Hws. induction a as [|c a IH].
  - cbn [app rstrip]. now apply rstrip_nil_iff.
  - cbn [app rstrip]. now rewrite IH.
Qed.

(** ** The scan of the init file *)

Lemma startswith_take s p : startswith s p = true -> take (length p) s = p.
Proof.
  revert s. induction p as [|c p IH]; intros s H; [reflexivity|].
  destruct s as [|d s]; simpl in *; [discriminate|].
  apply andb_true_iff in H. destruct H as [Hc Hs].
  apply Ascii.eqb_eq in Hc. subst d. now rewrite IH.
Qed.

Lemma startswith_app s p : startswith (p ++ s) p = true.
Proof.
  induction p as [|c p IH]; simpl; [reflexivity|].
  now rewrite Ascii.eqb_refl, IH.
Qed.

Lemma begin_not_end line : is_begin line = true -> is_end line = false.
Proof.
  unfold is_begin, is_end. intros Hb.
  destruct (startswith (strip line) END_TAG) eqn:He; [|reflexivity].
  apply startswith_take in Hb, He.
  assert (H4 : take 4 BEGIN_TAG = take 4 END_TAG).
  { rewrite <- Hb at 1. rewrite <- He. rewrite !take_take. reflexivity. }
  discriminate H4.
Qed.

(** The body of the loop once [explicit] is set: only the tags count. *)
Lemma scan_line_explicit n line r :
  explicit r = true ->
  scan_line n line r
  = if is_begin line
    then mkRegion (n + 1) (endline r) true (slice_to line (find line "#"%char))
    else if is_end line then set_endline n r else r.
Proof.
  destruct r as [s e x i]. cbn [explicit]. intros ->.
  unfold scan_line, is_begin, is_end. cbn [explicit negb andb].
  destruct (startswith (strip line) BEGIN_TAG) eqn:Hb.
  - apply begin_not_end in Hb. unfold is_end in Hb.
    cbn [explicit]. rewrite Hb. reflexivity.
  - cbn [explicit andb].
    destruct (startswith (strip line) END_TAG); reflexivity.
Qed.

Lemma scan_line_begin n line r :
  is_begin line = true ->
  scan_line n line r
  = mkRegion (n + 1) (endline r) true (slice_to line (find line "#"%char)).
Proof.
  intros Hb. pose proof (begin_not_end line Hb) as He.
  unfold is_begin in Hb. unfold is_end in He. unfold scan_line.
  rewrite Hb. cbn [explicit]. rewrite He, andb_false_r.
  destruct r as [s e x i].
  repeat match goal with
         | |- context [if ?b then set_startline ?k ?r else ?r] =>
             destruct b; cbn [set_startline endline explicit]
         end; reflexivity.
Qed.

Lemma scan_line_explicit_end n line r :
  explicit r = true -> is_end line = true ->
  scan_line n line r = set_endline n r.
Proof.
  intros Hx He. rewrite scan_line_explicit by assumption.
  destruct (is_begin line) eqn:Hb.
  - apply begin_not_end in Hb. congruence.
  - now rewrite He.
Qed.

Lemma scan_line_explicit_other n line r :
  explicit r = true -> is_begin line = false -> is_end line = false ->
  scan_line n line r = r.
Proof.
  intros Hx Hb He. rewrite scan_line_explicit by assumption.
  now rewrite Hb, He.
Qed.

Lemma scan_lines_app n l1 l2 r :
  scan_lines n (l1 ++ l2) r = scan_lines (n + length l1) l2 (scan_lines n l1 r).
Proof.
  revert n r. induction l1 as [|l l1 IH]; intros n r; simpl.
  - now rewrite Nat.add_0_r.
  - rewrite IH. f_equal. lia.
Qed.

Lemma scan_lines_explicit_other n lines r :
  explicit r = true ->
  Forall (fun l => is_begin l = false /\ is_end l = false) lines ->
  scan_lines n lines r = r.
Proof.
  intros Hx Hf. revert n. induction Hf as [|l ls [Hb He] _ IH]; intros n.
  - reflexivity.
  - simpl. rewrite scan_line_explicit_other by assumption. apply IH.
Qed.

(** The scan leaves both boundaries within the file. *)
Lemma scan_line_bounds n line r N :
  n < N -> startline r <= n -> endline r <= N ->
  startline (scan_line n line r) <= S n /\ endline (scan_line n line r) <= N.
Proof.
  intros Hn Hs He. unfold scan_line.
  repeat match goal with
         | |- context [if ?b then _ else _] => destruct b
         end; simpl; lia.
Qed.

Lemma scan_lines_bounds lines : forall n r N,
  n + length lines = N -> startline r <= n -> endline r <= N ->
  startline (scan_lines n lines r) <= N /\ endline (scan_lines n lines r) <= N.
Proof.
  induction lines as [|l ls IH]; intros n r N HN Hs He; simpl in *.
  - lia.
  - destruct (scan_line_bounds n l r N) as [Hs' He']; [lia..|].
    apply IH; [lia | assumption | assumption].
Qed.

Lemma find_region_bounds lines :
  startline (find_region lines) <= length lines
  /\ endline (find_region lines) <= length lines.
Proof. apply scan_lines_bounds; simpl; lia. Qed.

(** ** Scenarios *)

(** C6.  Scenario C: for the init file made of a one-line docstring, a
    future import, a comment and a line of old code, without tags, the scan
    ends with [startline = 3] and [endline = 4], the number of lines, and
    the new text is the first three lines followed by the rendered block:
    everything from line 3 on is replaced. *)
Theorem scenario_C_region :
  length (readlines scenario_C) = 4
  /\ find_region (readlines scenario_C) = mkRegion 3 4 false []
  /\ forall initstr,
       new_text (readlines scenario_C) initstr
       = Ok (rstrip (concat (take 3 (readlines scenario_C))
                     ++ initstr ++ [LF])).
Proof.
  split; [reflexivity|]. split; [reflexivity|].
  intros initstr. unfold new_text.
  change (find_region (readlines scenario_C)) with (mkRegion 3 4 false []).
  cbn [startline endline init_indent Nat.leb].
  rewrite _indent_empty.
  change (drop 4 (readlines scenario_C)) with (@nil str).
  rewrite !concat_app. simpl concat at 2 3. rewrite !app_nil_r.
  reflexivity.
Qed.

(** C1, as the code has it.  Scenario A: for the package [pkg] with [a]
    (defining [foo] and [_bar]), [_hidden] and [b] (defining nothing), the
    plan built without a list of submodules is [a] with [foo], then [b]
    with nothing; rendered with root [pkg] and no header, its lines that
    hold something are [from pkg import a], [from pkg import b] and
    [from pkg.a import (foo,)], with which the text starts. *)
Theorem scenario_A_plan_and_rendering :
  (_static_parse_imports (static := Pkg.static) (py"pkg") None Pkg.world).1
  = Ok (py"pkg", [py"a"; py"b"], [(py"a", [py"foo"]); (py"b", [])])
  /\ exists rendered,
       _initstr (py"pkg") [py"a"; py"b"] [(py"a", [py"foo"]); (py"b", [])]
                false = Ok rendered
       /\ content_lines rendered
          = [py"from pkg import a"; py"from pkg import b";
             py"from pkg.a import (foo,)"]
       /\ startswith rendered
            (join [LF] [py"from pkg import a"; py"from pkg import b";
                        py"from pkg.a import (foo,)"]) = true.
Proof.
  split; [vm_compute; reflexivity|].
  eexists. split; [vm_compute; reflexivity|].
  split; vm_compute; reflexivity.
Qed.

(** The rendering of scenario A is not the text with [import pkg.a] lines
    and an unparenthesised from-import. *)
Lemma scenario_A_rendering_differs :
  _initstr (py"pkg") [py"a"; py"b"] [(py"a", [py"foo"]); (py"b", [])] false
  <> Ok (join [LF] [py"import pkg.a"; py"import pkg.b";
                    py"from pkg.a import foo,"]).
Proof. vm_compute. discriminate. Qed.

(** C3.  A plan whose first entry has no public callable renders with an
    empty line between the import lines and the from-import: the empty
    statement of that entry is joined like any other. *)
Theorem empty_entry_leaves_blank_line :
  _initstr (py"pkg") [py"b"; py"a"] [(py"b", []); (py"a", [py"foo"])] false
  = Ok (py"from pkg import b" ++ [LF] ++ py"from pkg import a" ++ [LF]
        ++ [LF] ++ py"from pkg.a import (foo,)")
  /\ _pack_fromimport (py"pkg") (py"b", []) = []
  /\ _make_fromimport_str [(py"b", []); (py"a", [py"foo"])] (py"pkg")
     = [LF] ++ py"from pkg.a import (foo,)".
Proof. repeat split; vm_compute; reflexivity. Qed.

(** C5.  With the list of submodules [a], [nope] on the package [pkg],
    where [pkg.nope] resolves to no path, the plan builder reads [pkg/a.py]
    and then ends with the [TypeError] of opening [None]. *)
Theorem unresolved_submodule_raises_TypeError :
  modname_to_modpath (StaticAnalysis := Pkg.static) (py"pkg.nope") = None
  /\ (_static_parse_imports (static := Pkg.static) (py"pkg")
        (Some [py"a"; py"nope"]) Pkg.world).1 = Raise TypeError
  /\ opened (_static_parse_imports (static := Pkg.static) (py"pkg")
               (Some [py"a"; py"nope"]) Pkg.world).2 = [py"pkg/a.py"].
Proof. repeat split; vm_compute; reflexivity. Qed.

(** A later end tag moves [endline], and a later begin tag moves
    [startline], after the first end tag was seen in explicit mode. *)
Lemma later_tags_move_boundaries :
  (explicit (find_region (take 2 two_end_tags)) = true
   /\ (is_end <$> two_end_tags !! 2) = Some true
   /\ endline (find_region (take 3 two_end_tags)) = 2
   /\ endline (find_region two_end_tags) = 4)
  /\ (explicit (find_region (take 1 begin_after_end)) = true
      /\ (is_end <$> begin_after_end !! 1) = Some true
      /\ startline (find_region (take 2 begin_after_end)) = 1
      /\ startline (find_region begin_after_end) = 4).
Proof. repeat split; vm_compute; reflexivity. Qed.

(** ** The merger keeps what lies outside the region *)

Lemma new_text_frame lines initstr out :
  new_text lines initstr = Ok out ->
  let r := find_region lines in
  let unstripped :=
    concat (take (startline r) lines)
    ++ (_indent initstr (init_indent r) ++ [LF])
    ++ concat (drop (endline r) lines) in
  startline r <= endline r <= length lines
  /\ out = rstrip unstripped
  /\ (exists ws, Forall (fun c => isspace c = true) ws
                 /\ out ++ ws = unstripped)
  /\ (rstrip (concat (drop (endline r) lines)) <> [] ->
      out = concat (take (startline r) lines)
            ++ (_indent initstr (init_indent r) ++ [LF])
            ++ rstrip (concat (drop (endline r) lines))).
Proof.
  intros Hnew r unstripped. unfold new_text in Hnew. fold r in Hnew.
  destruct (startline r <=? endline r) eqn:Hle; [|discriminate].
  apply Nat.leb_le in Hle.
  assert (Hout : out = rstrip unstripped).
  { inversion Hnew. subst unstripped.
    rewrite !concat_app. reflexivity. }
  split; [split; [exact Hle | apply find_region_bounds]|].
  split; [exact Hout|].
  split.
  - rewrite Hout. apply rstrip_spec.
  - intros Hsuf. rewrite Hout. subst unstripped.
    rewrite rstrip_app_keep.
    + rewrite rstrip_app_keep by exact Hsuf. reflexivity.
    + rewrite rstrip_app_keep by exact Hsuf.
      intros Hnil. apply app_eq_nil in Hnil. destruct Hnil as [_ Hnil].
      now apply Hsuf.
Qed.

(** What [_autogen_init_write] does to the world when it succeeds. *)
Lemma _autogen_init_write_ok modpath initstr w w' :
  _autogen_init_write modpath initstr w = (Ok tt, w') ->
  let init_fpath := os_path_join modpath (py"__init__.py") in
  exists text out,
    files w !! init_fpath = Some text
    /\ new_text (readlines text) initstr = Ok out
    /\ w' = mkWorld (dirs w) (<[init_fpath := out]> (files w))
                    (opened w ++ [init_fpath]).
Proof.
  intros Hrun init_fpath.
  unfold _autogen_init_write, bind, path_exists, read_file, lift, write_file,
    raise in Hrun.
  fold init_fpath in Hrun.
  destruct (negb _) in Hrun; [discriminate|].
  destruct (files w !! init_fpath) as [text|] eqn:Hfile; [|discriminate].
  cbn [files dirs opened] in Hrun.
  destruct (new_text (readlines text) initstr) as [out|e] eqn:Hnew;
    [|discriminate].
  exists text, out. inversion Hrun. auto.
Qed.

(** C2, as the code has it.  When the merger writes the init file back, the
    new text is exactly the lines before [startline], the indented block
    and the lines from [endline] on, with the white space at the very end
    of this whole text stripped, so that the text written never ends with
    white space and the last newline of the file is dropped.  The lines
    before [startline] and from [endline] on are unchanged except for that
    white space at the end of the text: when a line from [endline] on holds
    more than white space, only the white space after the last such line
    is lost; when none does, the text written is the lines before
    [startline] and the block, stripped.  No other file changes.  The text
    is the text of the file as Python reads it. *)
Theorem merge_preserves_outside_region (modpath initstr : str) (w w' : World) :
  _autogen_init_write modpath initstr w = (Ok tt, w') ->
  let init_fpath := os_path_join modpath (py"__init__.py") in
  exists text out,
    files w !! init_fpath = Some text
    /\ files w' = <[init_fpath := out]> (files w)
    /\ let lines := readlines text in
       let r := find_region lines in
       let before := concat (take (startline r) lines) in
       let block := _indent initstr (init_indent r) ++ [LF] in
       let after := concat (drop (endline r) lines) in
       startline r <= endline r <= length lines
       /\ out = rstrip (before ++ block ++ after)
       /\ rstrip out = out
       /\ (forall pre c, out = pre ++ [c] -> isspace c = false)
       /\ (exists ws, Forall (fun c => isspace c = true) ws
                      /\ out ++ ws = before ++ block ++ after)
       /\ (rstrip after <> [] -> out = before ++ block ++ rstrip after)
       /\ (rstrip after = [] -> out = rstrip (before ++ block)).
Proof.
  intros Hrun init_fpath.
  destruct (_autogen_init_write_ok _ _ _ _ Hrun)
    as (text & out & Hfile & Hnew & ->).
  exists text, out. split; [exact Hfile|]. split; [reflexivity|].
  destruct (new_text_frame _ _ _ Hnew) as (Hb & Hout & Hws & Hkeep).
  intros lines r before block after.
  split; [exact Hb|]. split; [exact Hout|].
  split; [rewrite Hout; apply rstrip_idem|].
  split; [intros pre c Hc; rewrite Hout in Hc; exact (rstrip_last _ _ _ Hc)|].
  split; [exact Hws|]. split; [exact Hkeep|].
  intros Hafter.
  assert (H : out = rstrip ((before ++ block) ++ after))
    by (rewrite <- app_assoc; exact Hout).
  rewrite H. apply rstrip_app_space. apply rstrip_nil_iff. exact Hafter.
Qed.

Lemma merge_preserves_outside_region_witness :
  let w' := (_autogen_init_write (py"pkg") (py"from pkg import a")
               Pkg.world).2 in
  files w' !! py"pkg/__init__.py"
  = Some (py"# <AUTOGEN_INIT>" ++ [LF] ++ py"from pkg import a" ++ [LF]
          ++ py"# </AUTOGEN_INIT>").
Proof.
  intros w'.
  destruct (merge_preserves_outside_region (py"pkg") (py"from pkg import a")
              Pkg.world w')
    as (text & out & Hfile & Hfiles & _ & _ & _ & _ & _ & Hkeep & _).
  - vm_compute. reflexivity.
  - rewrite Hfiles.
    assert (Htext : text = Pkg.init_py).
    { vm_compute in Hfile. inversion Hfile. reflexivity. }
    subst text. rewrite Hkeep.
    + change (os_path_join (py"pkg") (py"__init__.py"))
        with (py"pkg/__init__.py").
      rewrite lookup_insert_eq. vm_compute. reflexivity.
    + vm_compute. discriminate.
Defined.

(** The last line of the init file loses its newline: the text from
    [endline] on is not a suffix of the merged text. *)
Lemma merge_strips_the_end :
  let w' := (_autogen_init_write (py"pkg") (py"from pkg import a")
               Pkg.world).2 in
  let lines := readlines Pkg.init_py in
  exists out,
    files w' !! py"pkg/__init__.py" = Some out
    /\ ~ concat (drop (endline (find_region lines)) lines) `suffix_of` out.
Proof.
  eexists. split; [vm_compute; reflexivity|].
  intros Hsuf. apply (bool_decide_eq_true_2 _) in Hsuf.
  vm_compute in Hsuf. discriminate.
Qed.

(** ** The plan builder *)

Lemma is_public_spec callname :
  is_public callname = true ->
  contains "."%char callname = false /\ startswith callname (py"_") = false.
Proof.
  unfold is_public. intros H. apply negb_true_iff, orb_false_iff in H.
  exact H.
Qed.

Lemma percent_literal (a x : str) :
  contains "%"%char a = false -> percent (a ++ py"%s") [x] = Ok (a ++ x).
Proof.
  induction a as [|c a IH]; intros Hc.
  - simpl. now rewrite app_nil_r.
  - unfold contains in Hc, IH. cbn [existsb] in Hc.
    apply orb_false_iff in Hc. destruct Hc as [Hc Ha].
    cbn [app percent].
    rewrite Ascii.eqb_sym in Hc. rewrite Hc, (IH Ha). reflexivity.
Qed.

Lemma contains_app c a b : contains c (a ++ b) = contains c a || contains c b.
Proof. unfold contains. apply existsb_app. Qed.

(** Without [%] in the root name, [_make_imports_str] writes one line
    [from <root> import <name>] per name. *)
Lemma _make_imports_str_lines imports rootmodname :
  contains "%"%char rootmodname = false ->
  _make_imports_str imports rootmodname
  = Ok (join [LF]
          (map (fun name => py"from " ++ rootmodname ++ py" import " ++ name)
               imports)).
Proof.
  intros Hroot. unfold _make_imports_str.
  assert (Hfmt : forall name,
             percent (py"from " ++ rootmodname ++ py" import %s") [name]
             = Ok (py"from " ++ rootmodname ++ py" import " ++ name)).
  { intros name.
    change (py"from " ++ rootmodname ++ py" import %s")
      with (py"from " ++ rootmodname ++ py" import " ++ py"%s").
    rewrite !app_assoc. rewrite percent_literal; [reflexivity|].
    rewrite !contains_app, Hroot. reflexivity. }
  assert (HM : rmapM (fun name =>
                        percent (py"from " ++ rootmodname ++ py" import %s")
                                [name]) imports
               = Ok (map (fun name =>
                            py"from " ++ rootmodname ++ py" import " ++ name)
                         imports)).
  { induction imports as [|m ms IH]; [reflexivity|].
    cbn [rmapM map]. rewrite Hfmt, IH. reflexivity. }
  rewrite HM. reflexivity.
Qed.

Section BuilderFacts.
Context {static : StaticAnalysis}.

Lemma parse_submodule_run entry w :
  match parse_submodule entry w with
  | (Ok fi, w') =>
      exists p keys,
        readable w (Some p) keys /\ entry.1 = Some p
        /\ fi = (entry.2, List.filter is_public keys)
        /\ w' = mkWorld (dirs w) (files w) (opened w ++ [p])
  | (Raise e, w') =>
      (entry.1 = None /\ e = TypeError /\ w' = w)
      \/ (exists p, entry.1 = Some p /\ files w !! p = None
                    /\ e = IOError p /\ w' = w)
      \/ (exists p text, entry.1 = Some p /\ files w !! p = Some text
                         /\ calldefs text = None /\ e = SyntaxError
                         /\ w' = mkWorld (dirs w) (files w) (opened w ++ [p]))
  end.
Proof.
  destruct entry as [[p|] rel]; unfold parse_submodule, bind, read_file, lift, ret.
  - destruct (files w !! p) as [text|] eqn:Hfile.
    + destruct (calldefs text) as [keys|] eqn:Hkeys.
      * exists p, keys. repeat split; try reflexivity.
        exists p, text. auto.
      * right. right. exists p, text. auto.
    + right. left. exists p. auto.
  - left. auto.
Qed.

Lemma forM_cons {A B} (f : A -> M B) x r w :
  forM (x :: r) f w
  = match f x w with
    | (Ok y, w1) =>
        match forM r f w1 with
        | (Ok ys, w2) => (Ok (y :: ys), w2)
        | (Raise e, w2) => (Raise e, w2)
        end
    | (Raise e, w1) => (Raise e, w1)
    end.
Proof.
  cbn [forM]. unfold bind, ret.
  destruct (f x w) as [[y|e] w1]; [|reflexivity].
  destruct (forM r f w1) as [[ys|e] w2]; reflexivity.
Qed.

(** The loop over the submodules: the files it opens are those of the
    first entries, in order, and it changes nothing else; when it ends
    well, every entry was read and gave its public names. *)
Lemma forM_parse_run entries : forall w res w',
  forM entries parse_submodule w = (res, w') ->
  dirs w' = dirs w /\ files w' = files w
  /\ (exists k, opened w' = opened w ++ omap fst (take k entries))
  /\ forall from_imports,
       res = Ok from_imports ->
       opened w' = opened w ++ omap fst entries
       /\ Forall2 (fun entry fi =>
                     exists keys, readable w entry.1 keys
                                  /\ fi = (entry.2, List.filter is_public keys))
                  entries from_imports.
Proof.
  induction entries as [|entry rest IH]; intros w res w' Hrun.
  - inversion Hrun; subst. repeat split.
    + exists 0. now rewrite app_nil_r.
    + now rewrite app_nil_r.
    + inversion H. constructor.
  - rewrite forM_cons in Hrun.
    pose proof (parse_submodule_run entry w) as Hone.
    destruct (parse_submodule entry w) as [[fi|e] w1].
    + destruct Hone as (p & keys & Hread & Hentry & Hfi & Hw1).
      assert (Hw1' : dirs w1 = dirs w /\ files w1 = files w
                     /\ opened w1 = opened w ++ [p]) by (subst w1; auto).
      destruct Hw1' as (Hd1 & Hf1 & Ho1). clear Hw1.
      destruct (forM rest parse_submodule w1) as [res2 w2] eqn:Hrest.
      destruct (IH _ _ _ Hrest) as (Hd & Hf & (k & Hk) & Hok).
      assert (Hw' : w' = w2) by (destruct res2; inversion Hrun; reflexivity).
      subst w'.
      split; [congruence|]. split; [congruence|].
      split.
      { exists (S k). destruct entry as [ep rel]. cbn [fst] in Hentry.
        subst ep. simpl. rewrite Hk, Ho1, <- app_assoc. reflexivity. }
      intros from_imports Heq. subst res.
      destruct res2 as [fis|e]; [|discriminate].
      inversion Hrun; subst from_imports.
      destruct (Hok fis eq_refl) as [Hop Hall].
      split.
      { destruct entry as [ep rel]. cbn [fst] in Hentry.
        subst ep. simpl. rewrite Hop, Ho1, <- app_assoc. reflexivity. }
      constructor.
      { exists keys. split; [|exact Hfi]. rewrite Hentry. exact Hread. }
      eapply Forall2_impl; [exact Hall|].
      intros e' fi' (keys' & (p' & text' & Hp' & Hfile' & Hkeys') & Hfi').
      exists keys'. split; [|exact Hfi'].
      exists p', text'. rewrite <- Hf1. auto.
    + inversion Hrun; subst res w'.
      assert (Hw1 : dirs w1 = dirs w /\ files w1 = files w
                    /\ (opened w1 = opened w
                        \/ exists p, entry.1 = Some p
                                     /\ opened w1 = opened w ++ [p])).
      { destruct Hone as [(_ & _ & ->)|[(p & _ & _ & _ & ->)
                                       |(p & text & Hp & _ & _ & _ & ->)]];
          repeat split; auto. right. exists p. auto. }
      destruct Hw1 as (Hd1 & Hf1 & Ho1).
      split; [exact Hd1|]. split; [exact Hf1|]. split; [|discriminate].
      destruct Ho1 as [Ho1|(p & Hp & Ho1)].
      * exists 0. now rewrite Ho1, app_nil_r.
      * exists 1. destruct entry as [ep rel]. cbn [fst] in Hp.
        subst ep. simpl. exact Ho1.
Qed.

End BuilderFacts.

Section Plans.
Context {static : StaticAnalysis}.

Lemma enumerate_spec modname paths : forall acc,
  fold_left (enumerate_step modname) paths acc
  = (acc.1 ++ map (rel_modname modname) (retained modname paths),
     acc.2 ++ map Some (retained modname paths)).
Proof.
  induction paths as [|p paths IH]; intros [imports import_paths].
  - simpl. now rewrite !app_nil_r.
  - cbn [fold_left]. rewrite IH. unfold enumerate_step, retained.
    fold (rel_modname modname p). cbn [List.filter].
    destruct (startswith (rel_modname modname p) (py"_")); cbn [negb fst snd].
    + reflexivity.
    + cbn [map]. rewrite <- !app_assoc. reflexivity.
Qed.

Lemma omap_fst_zip_Some (ps : list str) (f : str -> str) k :
  omap fst (take k (zip (map Some ps) (map f ps))) = take k ps.
Proof.
  revert k. induction ps as [|p ps IH]; intros [|k]; simpl; auto.
  now rewrite IH.
Qed.

Lemma _static_parse_imports_run modpath imports w res w' :
  _static_parse_imports modpath imports w = (res, w') ->
  let modname := modpath_to_modname modpath in
  let lists :=
    match imports with
    | Some imports =>
        (imports,
         map (fun m => modname_to_modpath (modname ++ py"." ++ m)) imports)
    | None =>
        (map (rel_modname modname) (retained modname (package_modpaths modpath)),
         map Some (retained modname (package_modpaths modpath)))
    end in
  exists res1,
    forM (zip lists.2 lists.1) parse_submodule w = (res1, w')
    /\ res = rbind res1 (fun from_imports =>
                           Ok (modname, lists.1, from_imports)).
Proof.
  intros Hrun modname lists. unfold _static_parse_imports in Hrun.
  fold modname in Hrun.
  assert (Hlists : match imports with
                   | Some imports =>
                       (imports,
                        map (fun m => modname_to_modpath (modname ++ py"." ++ m))
                            imports)
                   | None => fold_left (enumerate_step modname)
                                       (package_modpaths modpath) ([], [])
                   end = lists).
  { subst lists. destruct imports; [reflexivity|]. now rewrite enumerate_spec. }
  rewrite Hlists in Hrun. destruct lists as [imps paths]. cbn [fst snd].
  unfold bind, ret in Hrun.
  destruct (forM (zip paths imps) parse_submodule w) as [[fis|e] w1];
    inversion Hrun; subst; eexists; split; reflexivity.
Qed.

End Plans.

Section ExplicitList.
Context {static : StaticAnalysis}.

Lemma parse_submodule_ok entry w keys :
  readable w entry.1 keys ->
  exists p,
    entry.1 = Some p
    /\ parse_submodule entry w
       = (Ok (entry.2, List.filter is_public keys),
          mkWorld (dirs w) (files w) (opened w ++ [p])).
Proof.
  intros (p & text & Hp & Hfile & Hkeys). exists p. split; [exact Hp|].
  destruct entry as [ep rel]. cbn [fst snd] in *. subst ep.
  unfold parse_submodule, bind, read_file, lift, ret.
  rewrite Hfile, Hkeys. reflexivity.
Qed.




End ExplicitList.


(** ** textwrap.wrap: width of the lines and words kept whole *)

Module TextwrapFacts.
Import Textwrap TextwrapSpec.

(** The characters [textwrap] breaks at are white space for [str.strip]. *)
Lemma is_whitespace_isspace c : is_whitespace c = true -> isspace c = true.
Proof.
  unfold is_whitespace, contains, _whitespace. cbn [existsb].
  rewrite !orb_true_iff.
  intros H; repeat destruct H as [H|H]; try discriminate;
    apply Ascii.eqb_eq in H; subst c; reflexivity.
Qed.

Lemma lstrip_isspace s : Forall (fun c => isspace c = true) s -> lstrip s = [].
Proof. induction 1 as [|c s Hc _ IH]; simpl; [reflexivity | now rewrite Hc]. Qed.

Lemma lstrip_suffix s :
  exists ws, Forall (fun c => isspace c = true) ws /\ s = ws ++ lstrip s.
Proof.
  induction s as [|c s (ws & Hws & IH)]; simpl.
  - exists []. split; [constructor | reflexivity].
  - destruct (isspace c) eqn:Hc.
    + exists (c :: ws). split; [constructor; assumption|]. simpl. now f_equal.
    + exists []. split; [constructor | reflexivity].
Qed.

(** A chunk is blank exactly when it is white space only. *)
Lemma blank_iff chunk :
  blank chunk = true <-> Forall (fun c => isspace c = true) chunk.
Proof.
  unfold blank, strip. split.
  - intros H. destruct (rstrip (lstrip chunk)) eqn:E; [|discriminate].
    apply rstrip_nil_iff in E.
    destruct (lstrip_suffix chunk) as (ws & Hws & Heq). rewrite Heq.
    apply Forall_app. split; assumption.
  - intros H. rewrite (lstrip_isspace _ H). reflexivity.
Qed.

(** *** [str.split] and concatenation *)

Lemma split_isspace s : Forall (fun c => isspace c = true) s -> split s = [].
Proof. induction 1 as [|c s Hc _ IH]; simpl; [reflexivity | now rewrite Hc]. Qed.

Lemma split_app_space_l ws s :
  Forall (fun c => isspace c = true) ws -> split (ws ++ s) = split s.
Proof. induction 1 as [|c ws Hc _ IH]; simpl; [reflexivity | now rewrite Hc]. Qed.

Lemma split_cons c s :
  split (c :: s)
  = if isspace c then split s
    else match hd_space s with
         | None => [[c]]
         | Some true => [c] :: split s
         | Some false => match split s with
                         | w :: ws => (c :: w) :: ws
                         | [] => [[c]]
                         end
         end.
Proof. destruct s; reflexivity. Qed.

Lemma split_nonspace_hd s : hd_space s = Some false -> split s <> [].
Proof.
  destruct s as [|c s]; [discriminate|]. intros H. inversion H as [Hc].
  rewrite split_cons, Hc.
  destruct (hd_space s) as [[|]|]; try discriminate.
  destruct (split s); discriminate.
Qed.

Lemma tl_space_cons c d s : tl_space (c :: d :: s) -> tl_space (d :: s).
Proof.
  intros [H|(s' & e & Heq & He)]; [discriminate|].
  right. destruct s' as [|c' s']; simpl in Heq.
  - inversion Heq.
  - inversion Heq; subst. eauto.
Qed.

Lemma split_app a b :
  tl_space a \/ hd_space b <> Some false ->
  split (a ++ b) = split a ++ split b.
Proof.
  induction a as [|c a IH]; intros Hc; [reflexivity|].
  assert (Hc' : tl_space a \/ hd_space b <> Some false).
  { destruct Hc as [Hc|Hc]; [|now right].
    destruct a; [left; now left | left; eapply tl_space_cons; exact Hc]. }
  specialize (IH Hc').
  change ((c :: a) ++ b) with (c :: (a ++ b)).
  rewrite !split_cons, IH.
  destruct (isspace c) eqn:Ec; [reflexivity|].
  destruct a as [|d a].
  - change ([] ++ b) with b. change (split []) with (@nil str).
    change (hd_space []) with (@None bool). cbn [app].
    destruct Hc as [[Hc|(s' & e & Heq & He)]|Hc].
    + discriminate.
    + destruct s' as [|? [|? ?]]; simpl in Heq; inversion Heq; subst.
      congruence.
    + destruct (hd_space b) as [[|]|] eqn:Hb; try reflexivity; try congruence.
      destruct b; [reflexivity | discriminate].
  - simpl hd_space. destruct (isspace d) eqn:Ed; [reflexivity|].
    assert (Hne : split (d :: a) <> [])
      by (apply split_nonspace_hd; simpl; now rewrite Ed).
    destruct (split (d :: a)); [contradiction | reflexivity].
Qed.

(** *** The text after [_munge_whitespace] has the same words *)

Lemma isspace_munge c :
  isspace (if is_whitespace c then " "%char else c) = isspace c.
Proof.
  destruct (is_whitespace c) eqn:E; [|reflexivity].
  symmetry. now apply is_whitespace_isspace.
Qed.

Lemma tab_incr col : exists n, 8 - col mod 8 = S n.
Proof.
  pose proof (Nat.mod_upper_bound col 8 ltac:(lia)).
  exists (7 - col mod 8). lia.
Qed.

Lemma munge_hd_space text : forall col,
  hd_space (map (fun c => if is_whitespace c then " "%char else c)
                (expandtabs_from col text))
  = hd_space text.
Proof.
  destruct text as [|c r]; intros col; [reflexivity|].
  cbn [expandtabs_from].
  destruct (Ascii.eqb_spec c TAB) as [->|_].
  - destruct (tab_incr col) as (n & ->). reflexivity.
  - destruct (Ascii.eqb c LF || Ascii.eqb c CR); cbn [map hd_space];
      now rewrite isspace_munge.
Qed.

Lemma munge_split text : forall col,
  split (map (fun c => if is_whitespace c then " "%char else c)
             (expandtabs_from col text))
  = split text.
Proof.
  induction text as [|c r IH]; intros col; [reflexivity|].
  cbn [expandtabs_from].
  destruct (Ascii.eqb_spec c TAB) as [->|_].
  - rewrite map_app, split_app_space_l.
    + rewrite IH. reflexivity.
    + apply List.Forall_forall. intros d Hd. apply List.in_map_iff in Hd.
      destruct Hd as (e & <- & He). apply repeat_spec in He. subst e.
      reflexivity.
  - assert (Hstep : forall col',
               split (map (fun c => if is_whitespace c then " "%char else c)
                          (c :: expandtabs_from col' r))
               = split (c :: r)).
    { intros col'. cbn [map]. rewrite !split_cons, isspace_munge.
      rewrite munge_hd_space, IH.
      destruct (is_whitespace c) eqn:E; [|reflexivity].
      now rewrite (is_whitespace_isspace _ E). }
    destruct (Ascii.eqb c LF || Ascii.eqb c CR); apply Hstep.
Qed.

Lemma _munge_whitespace_split text :
  split (_munge_whitespace text) = split text.
Proof. apply munge_split. Qed.

(** *** The chunks *)

Lemma _split_alternating text : alternating (_split text).
Proof.
  induction text as [|c r IH]; [exact I|].
  cbn [_split]. destruct (_split r) as [|[|d w] chunks].
  - repeat split; [discriminate | repeat constructor].
  - repeat split; [discriminate | repeat constructor].
  - destruct IH as ((_ & Hd) & Hnext & Hrest). cbn [kind] in Hd, Hnext.
    destruct (Bool.eqb (is_whitespace c) (is_whitespace d)) eqn:E.
    + apply Bool.eqb_prop in E.
      split; [|split; [|exact Hrest]].
      * split; [discriminate|]. cbn [kind]. constructor; [reflexivity|].
        rewrite E. exact Hd.
      * cbn [kind]. rewrite E. exact Hnext.
    + split; [|split].
      * split; [discriminate | repeat constructor].
      * cbn [kind]. destruct (is_whitespace c), (is_whitespace d);
          try reflexivity; discriminate.
      * split; [|split; [exact Hnext | exact Hrest]].
        split; [discriminate | exact Hd].
Qed.

Lemma concat_split text : concat (_split text) = text.
Proof.
  induction text as [|c r IH]; [reflexivity|].
  pose proof (_split_alternating r) as Halt.
  cbn [_split]. destruct (_split r) as [|[|d w] chunks].
  - simpl in IH. now subst.
  - destruct Halt as ((Hne & _) & _). contradiction.
  - destruct (Bool.eqb (is_whitespace c) (is_whitespace d));
      rewrite <- IH; reflexivity.
Qed.

Lemma alternating_app a b :
  alternating (a ++ b) -> alternating a /\ alternating b.
Proof.
  induction a as [|c a IH]; intros H; [split; [exact I | exact H]|].
  destruct H as (Hu & Hnext & Hrest). destruct (IH Hrest) as [Ha Hb].
  split; [|exact Hb]. split; [exact Hu|]. split; [|exact Ha].
  destruct a; [exact I | exact Hnext].
Qed.

Lemma uniform_space_blank chunk :
  uniform chunk -> kind chunk = true -> blank chunk = true.
Proof.
  intros [_ Hall] Hk. apply blank_iff. rewrite Hk in Hall.
  eapply Forall_impl; [exact Hall|]. apply is_whitespace_isspace.
Qed.

Lemma uniform_word chunk :
  uniform chunk -> blank chunk = false ->
  Forall (fun c => is_whitespace c = false) chunk.
Proof.
  intros Hu Hb. destruct (kind chunk) eqn:Hk.
  - rewrite (uniform_space_blank _ Hu Hk) in Hb. discriminate.
  - destruct Hu as [_ Hall]. now rewrite Hk in Hall.
Qed.

Lemma blank_split chunk : blank chunk = true -> split chunk = [].
Proof. intros H. apply split_isspace. now apply blank_iff. Qed.

Lemma alternating_split chunks :
  alternating chunks -> split (concat chunks) = concat (map split chunks).
Proof.
  induction chunks as [|c rest IH]; [reflexivity|].
  intros (Hu & Hnext & Hrest). cbn [concat map].
  rewrite split_app, (IH Hrest); [reflexivity|].
  destruct (kind c) eqn:Hk.
  - left. right. destruct Hu as [Hne Hall]. rewrite Hk in Hall.
    destruct (exists_last Hne) as (s' & e & ->).
    exists s', e. split; [reflexivity|].
    apply Forall_app in Hall. destruct Hall as [_ He].
    inversion He; subst. now apply is_whitespace_isspace.
  - right. destruct rest as [|d rest']; [discriminate|].
    destruct Hrest as ((Hne & Hall) & _). cbn [negb] in Hnext.
    destruct d as [|x d]; [contradiction|].
    cbn [kind] in Hnext. cbn [concat app hd_space].
    rewrite (is_whitespace_isspace _ Hnext). discriminate.
Qed.

(** *** One turn of the loop *)

Lemma total_app a b : total (a ++ b) = (total a + total b)%Z.
Proof. unfold total. rewrite concat_app, length_app. lia. Qed.

Lemma total_one chunk : total [chunk] = Z.of_nat (length chunk).
Proof. unfold total. simpl. now rewrite app_nil_r. Qed.

Lemma fill_line_spec width chunks : forall cur_line cur_len,
  cur_len = total cur_line ->
  exists taken,
    (fill_line width cur_line cur_len chunks).1 = cur_line ++ taken
    /\ chunks = taken ++ (fill_line width cur_line cur_len chunks).2
    /\ (taken = [] \/ (total (cur_line ++ taken) <= width)%Z).
Proof.
  induction chunks as [|chunk rest IH]; intros cur_line cur_len Hlen.
  - exists []. simpl. rewrite app_nil_r. auto.
  - cbn [fill_line].
    destruct (cur_len + Z.of_nat (length chunk) <=? width)%Z eqn:Hfit.
    + destruct (IH (cur_line ++ [chunk]) (cur_len + Z.of_nat (length chunk))%Z)
        as (taken & H1 & H2 & H3).
      { rewrite total_app, total_one. lia. }
      exists (chunk :: taken). rewrite H1, <- app_assoc.
      split; [reflexivity|]. split; [simpl; now f_equal|].
      right. destruct H3 as [->|H3].
      * rewrite total_app, total_one. apply Z.leb_le in Hfit. lia.
      * now rewrite <- app_assoc in H3.
    + exists []. simpl. rewrite app_nil_r. auto.
Qed.

(** The line taken from the chunks: it fits, or it is one chunk that fits
    on no line. *)
Lemma take_line_spec width chunks :
  chunks = (take_line width chunks).1 ++ (take_line width chunks).2
  /\ ((take_line width chunks).1 = []
      \/ (total (take_line width chunks).1 <= width)%Z
      \/ exists chunk, (take_line width chunks).1 = [chunk]
                       /\ (width < Z.of_nat (length chunk))%Z).
Proof.
  unfold take_line.
  destruct (fill_line_spec width chunks [] 0%Z eq_refl) as (taken & H1 & H2 & H3).
  destruct (fill_line width [] 0%Z chunks) as [cur_line rest].
  cbn [fst snd app] in *. subst cur_line.
  assert (Hfit : taken = [] \/ (total taken <= width)%Z \/
                 exists chunk, taken = [chunk]
                               /\ (width < Z.of_nat (length chunk))%Z)
    by tauto.
  destruct rest as [|chunk rest']; [now split|].
  destruct (width <? Z.of_nat (length chunk))%Z eqn:Hlong; [|now split].
  unfold _handle_long_word. destruct taken as [|t ts]; cbn [fst snd].
  - split; [exact H2|]. right. right. exists chunk.
    split; [reflexivity | now apply Z.ltb_lt].
  - now split.
Qed.

Lemma drop_leading_spec lines chunks :
  drop_leading lines chunks = chunks
  \/ exists chunk, chunks = chunk :: drop_leading lines chunks
                   /\ blank chunk = true.
Proof.
  unfold drop_leading. destruct chunks as [|chunk rest]; [now left|].
  destruct lines; [now left|].
  destruct (blank chunk) eqn:Hb; [right; eauto | now left].
Qed.

Lemma drop_trailing_spec cur_line :
  (drop_trailing cur_line = cur_line
   /\ forall chunk, last cur_line = Some chunk -> blank chunk = false)
  \/ exists chunk, cur_line = drop_trailing cur_line ++ [chunk]
                   /\ blank chunk = true.
Proof.
  unfold drop_trailing.
  destruct cur_line as [|chunk cur_line _] using rev_ind.
  - left. split; [reflexivity | discriminate].
  - rewrite last_snoc. destruct (blank chunk) eqn:Hb.
    + right. exists chunk. now rewrite removelast_last.
    + left. split; [reflexivity|]. intros c Hc. congruence.
Qed.

(** What a turn of the loop does: it drops blank chunks at both ends of
    the chunks it takes, and makes a line of the others; the line fits, or
    it is one chunk, not blank, that fits on no line. *)
Lemma wrap_line_spec width ii si lines chunks :
  let indent := match lines with [] => ii | _ :: _ => si end in
  let w := (width - Z.of_nat (length indent))%Z in
  exists leading cur_line trailing,
    chunks = leading ++ cur_line ++ trailing
             ++ (wrap_line width ii si lines chunks).2
    /\ Forall (fun chunk => blank chunk = true) leading
    /\ Forall (fun chunk => blank chunk = true) trailing
    /\ (wrap_line width ii si lines chunks).1
       = match cur_line with
         | [] => lines
         | _ :: _ => lines ++ [indent ++ concat cur_line]
         end
    /\ (cur_line = []
        \/ (total cur_line <= w)%Z
        \/ exists chunk, cur_line = [chunk]
                         /\ (w < Z.of_nat (length chunk))%Z
                         /\ blank chunk = false).
Proof.
  intros indent w. unfold wrap_line. fold indent. fold w.
  assert (Hlead : exists leading,
             chunks = leading ++ drop_leading lines chunks
             /\ Forall (fun chunk => blank chunk = true) leading).
  { destruct (drop_leading_spec lines chunks) as [Hl|(c0 & Hl & Hb0)].
    - exists []. now rewrite Hl.
    - exists [c0]. split; [exact Hl | now constructor]. }
  destruct Hlead as (leading & Hchunks & Hleading).
  destruct (take_line_spec w (drop_leading lines chunks)) as [Hsplit Hfit].
  destruct (take_line w (drop_leading lines chunks)) as [taken rest].
  cbn [fst snd] in Hsplit, Hfit. cbv iota beta.
  match goal with
  | |- context [(?m).2] =>
      assert (Hm : m = (match drop_trailing taken with
                        | [] => lines
                        | _ :: _ =>
                            lines ++ [indent ++ concat (drop_trailing taken)]
                        end, rest))
        by (destruct (drop_trailing taken); reflexivity);
      rewrite Hm
  end.
  cbn [fst snd].
  destruct (drop_trailing_spec taken) as [[Htr Hlast]|(c1 & Htr & Hb1)].
  - rewrite Htr. exists leading, taken, [].
    split; [now rewrite Hchunks, Hsplit|].
    split; [exact Hleading|]. split; [constructor|].
    split; [reflexivity|].
    destruct Hfit as [Hfit|[Hfit|(c & -> & Hlong)]]; [tauto..|].
    right. right. exists c. split; [reflexivity|]. split; [exact Hlong|].
    now apply Hlast.
  - exists leading, (drop_trailing taken), [c1].
    split.
    { rewrite Hchunks, Hsplit. rewrite Htr at 1.
      now rewrite <- !app_assoc. }
    split; [exact Hleading|]. split; [now constructor|].
    split; [reflexivity|].
    assert (Htot : (total (drop_trailing taken) <= total taken)%Z).
    { rewrite Htr at 2. rewrite total_app. unfold total at 3. lia. }
    destruct Hfit as [Hfit|[Hfit|(c & Hc & Hlong)]].
    + rewrite Hfit in Htr. now destruct (drop_trailing []).
    + right. left. lia.
    + left. subst taken. clear Hm Htot.
      destruct (drop_trailing [c]) as [|x xs]; [reflexivity|].
      destruct xs; discriminate.
Qed.

(** *** The loop *)

(** A property of the lines and the chunks left that every turn keeps
    holds when the loop ends. *)
Lemma _wrap_chunks_invariant (P : list str -> list str -> Prop) width ii si :
  (forall lines chunk rest,
     P lines (chunk :: rest) ->
     P (wrap_line width ii si lines (chunk :: rest)).1
       (wrap_line width ii si lines (chunk :: rest)).2) ->
  forall chunks lines,
    P lines chunks -> P (_wrap_chunks width ii si lines chunks) [].
Proof.
  intros Hstep chunks lines.
  funelim (_wrap_chunks width ii si lines chunks); intros HP.
  - exact HP.
  - match goal with
    | IH : context [_wrap_chunks] |- _ => apply IH; [exact Hstep|]
    end.
    apply Hstep. exact HP.
Qed.

Lemma alternating_In chunks chunk :
  alternating chunks -> In chunk chunks -> uniform chunk.
Proof.
  induction chunks as [|c rest IH]; intros Halt Hin; [contradiction|].
  destruct Halt as (Hu & _ & Hrest). destruct Hin as [<-|Hin]; auto.
Qed.

Lemma wrap_line_alternating width ii si lines chunks :
  alternating chunks -> alternating (wrap_line width ii si lines chunks).2.
Proof.
  intros Halt.
  destruct (wrap_line_spec width ii si lines chunks)
    as (leading & cur & trailing & Hchunks & _).
  rewrite Hchunks in Halt.
  apply alternating_app in Halt. destruct Halt as [_ Halt].
  apply alternating_app in Halt. destruct Halt as [_ Halt].
  apply alternating_app in Halt. now destruct Halt.
Qed.

Lemma wrap_line_ok width ii si lines chunks :
  Forall (line_ok width ii si) lines -> alternating chunks ->
  Forall (line_ok width ii si) (wrap_line width ii si lines chunks).1
  /\ alternating (wrap_line width ii si lines chunks).2.
Proof.
  intros Hlines Halt.
  destruct (wrap_line_spec width ii si lines chunks)
    as (leading & cur & trailing & Hchunks & _ & _ & Hout & Hfit).
  cbv zeta in Hout, Hfit. rewrite Hout. split.
  - destruct cur as [|c0 cur0]; [exact Hlines|].
    apply Forall_app. split; [exact Hlines|]. constructor; [|constructor].
    destruct Hfit as [Hfit|[Hfit|(c & Hc & Hlong & Hb)]]; [discriminate| |].
    + left. rewrite length_app. unfold total in Hfit. lia.
    + right. inversion Hc; subst c0 cur0. exists c.
      assert (Hu : uniform c).
      { apply (alternating_In chunks); [exact Halt|].
        rewrite Hchunks. apply in_or_app. right. now left. }
      split; [apply Hu|]. split; [now apply uniform_word|].
      cbn [concat]. rewrite app_nil_r. destruct lines; auto.
  - now apply wrap_line_alternating.
Qed.

(** Every line [textwrap.wrap] makes fits the width, or is its indentation
    followed by one word that would fit on no line. *)
Lemma wrap_lines_ok text width si :
  Forall (line_ok width [] si) (wrap text width si).
Proof.
  unfold wrap.
  apply (_wrap_chunks_invariant
           (fun lines chunks =>
              Forall (line_ok width [] si) lines /\ alternating chunks)).
  - intros lines chunk rest [Hl Ha]. now apply wrap_line_ok.
  - split; [constructor | apply _split_alternating].
Qed.

Lemma blank_chunks_split chunks :
  Forall (fun chunk => blank chunk = true) chunks ->
  concat (map split chunks) = [].
Proof.
  induction 1 as [|c cs Hc _ IH]; [reflexivity|].
  cbn [map concat]. now rewrite (blank_split _ Hc), IH.
Qed.

Lemma wrap_line_words width ii si lines chunks :
  Forall (fun c => isspace c = true) ii ->
  Forall (fun c => isspace c = true) si ->
  alternating chunks ->
  concat (map split (wrap_line width ii si lines chunks).1)
  ++ concat (map split (wrap_line width ii si lines chunks).2)
  = concat (map split lines) ++ concat (map split chunks).
Proof.
  intros Hii Hsi Halt.
  destruct (wrap_line_spec width ii si lines chunks)
    as (leading & cur & trailing & Hchunks & Hlead & Htrail & Hout & _).
  cbv zeta in Hout. rewrite Hout. clear Hout.
  remember (wrap_line width ii si lines chunks).2 as rest eqn:Hrest.
  clear Hrest. subst chunks.
  rewrite !map_app, !concat_app.
  rewrite (blank_chunks_split _ Hlead), (blank_chunks_split _ Htrail).
  cbn [app].
  assert (Hcur : alternating cur).
  { apply alternating_app in Halt. destruct Halt as [_ Halt].
    apply alternating_app in Halt. now destruct Halt. }
  destruct cur as [|c0 cur0]; [reflexivity|].
  rewrite map_app, concat_app. cbn [map concat]. rewrite app_nil_r.
  rewrite split_app_space_l by (destruct lines; assumption).
  change (c0 ++ concat cur0) with (concat (c0 :: cur0)).
  rewrite (alternating_split _ Hcur). cbn [map concat].
  now rewrite <- !app_assoc.
Qed.

(** The words of the lines [textwrap.wrap] makes are the words of the
    text, in order: no word is broken and none is lost. *)
Lemma wrap_words text width si :
  Forall (fun c => isspace c = true) si ->
  concat (map split (wrap text width si)) = split text.
Proof.
  intros Hsi. unfold wrap.
  set (chunks := _split (_munge_whitespace text)).
  assert (Hinv :
    alternating []
    /\ concat (map split (_wrap_chunks width [] si [] chunks))
       ++ concat (map split [])
       = concat (map split []) ++ concat (map split chunks)).
  { apply (_wrap_chunks_invariant
             (fun lines rest =>
                alternating rest
                /\ concat (map split lines) ++ concat (map split rest)
                   = concat (map split []) ++ concat (map split chunks))).
    - intros lines chunk rest [Ha Heq]. split.
      + now apply wrap_line_alternating.
      + rewrite wrap_line_words; [exact Heq | constructor | exact Hsi
                                  | exact Ha].
    - split; [apply _split_alternating | reflexivity]. }
  destruct Hinv as [_ Heq]. cbn [map concat app] in Heq.
  rewrite app_nil_r in Heq. rewrite Heq.
  subst chunks.
  rewrite <- alternating_split by apply _split_alternating.
  rewrite concat_split. apply _munge_whitespace_split.
Qed.

End TextwrapFacts.

(** ** The from-import statements *)

Import TextwrapSpec.

Lemma split_word w : w <> [] -> no_space w -> split w = [w].
Proof.
  intros Hne Hw. induction Hw as [|c w Hc Hw IH]; [contradiction|].
  rewrite TextwrapFacts.split_cons, Hc. destruct w as [|d w]; [reflexivity|].
  inversion Hw as [|? ? Hd _]; subst. cbn [hd_space]. rewrite Hd.
  now rewrite IH.
Qed.

Lemma split_word_app w rest :
  w <> [] -> no_space w -> hd_space rest = Some true ->
  split (w ++ rest) = w :: split rest.
Proof.
  intros Hne Hw Hrest. rewrite TextwrapFacts.split_app.
  - now rewrite split_word.
  - right. congruence.
Qed.

Lemma no_space_app a b : no_space a -> no_space b -> no_space (a ++ b).
Proof. intros Ha Hb. apply Forall_app. now split. Qed.

Lemma split_names fromlist :
  fromlist <> [] -> Forall no_space fromlist ->
  split (join (py", ") fromlist ++ py",)") = name_words fromlist.
Proof.
  intros Hne Hall. induction Hall as [|n rest Hn Hrest IH]; [contradiction|].
  destruct rest as [|m rest].
  - cbn [join name_words]. apply split_word.
    + now destruct n.
    + apply no_space_app; [exact Hn | repeat constructor].
  - change (join (py", ") (n :: m :: rest))
      with (n ++ py", " ++ join (py", ") (m :: rest)).
    change (name_words (n :: m :: rest))
      with ((n ++ py",") :: name_words (m :: rest)).
    rewrite <- IH by discriminate.
    replace ((n ++ py", " ++ join (py", ") (m :: rest)) ++ py",)")
      with ((n ++ py",")
            ++ " "%char :: (join (py", ") (m :: rest) ++ py",)"))
      by (rewrite <- !app_assoc; reflexivity).
    rewrite split_word_app.
    + rewrite TextwrapFacts.split_cons. reflexivity.
    + now destruct n.
    + apply no_space_app; [exact Hn | repeat constructor].
    + reflexivity.
Qed.

Lemma name_words_hd fromlist :
  fromlist <> [] -> Forall no_space fromlist ->
  hd_space (join (py", ") fromlist ++ py",)") = Some false.
Proof.
  intros Hne Hall. destruct Hall as [|n rest Hn _]; [contradiction|].
  destruct n as [|c n].
  - destruct rest; reflexivity.
  - inversion Hn as [|? ? Hc _]; subst.
    destruct rest; cbn [join app hd_space]; now rewrite Hc.
Qed.

(** The text [_pack_fromimport] wraps has the words of the statement. *)
Lemma split_rawstr rootmodname name fromlist :
  fromlist <> [] ->
  no_space rootmodname -> no_space name -> Forall no_space fromlist ->
  split ((py"from " ++ rootmodname ++ py"." ++ name ++ py" import (")
         ++ join (py", ") fromlist ++ py",)")
  = statement_words rootmodname (name, fromlist).
Proof.
  intros Hne Hroot Hname Hall.
  set (X := join (py", ") fromlist ++ py",)").
  replace ((py"from " ++ rootmodname ++ py"." ++ name ++ py" import (") ++ X)
    with (py"from"
          ++ " "%char
             :: ((rootmodname ++ py"." ++ name)
                 ++ " "%char :: (py"import" ++ " "%char :: "("%char :: X)))
    by (rewrite <- !app_assoc; reflexivity).
  rewrite split_word_app; [|discriminate|repeat constructor|reflexivity].
  rewrite TextwrapFacts.split_cons. cbn [isspace].
  change (isspace " "%char) with true. cbv iota.
  rewrite split_word_app; [| |
    apply no_space_app; [exact Hroot|];
    apply no_space_app; [repeat constructor | exact Hname]|reflexivity].
  2:{ intros Hnil. apply app_eq_nil in Hnil. destruct Hnil as [_ Hnil].
      discriminate. }
  rewrite TextwrapFacts.split_cons. change (isspace " "%char) with true.
  cbv iota.
  rewrite split_word_app; [|discriminate|repeat constructor|reflexivity].
  rewrite TextwrapFacts.split_cons. change (isspace " "%char) with true.
  cbv iota.
  rewrite TextwrapFacts.split_cons. change (isspace "("%char) with false.
  cbv iota. unfold X.
  rewrite name_words_hd by assumption.
  rewrite split_names by assumption.
  unfold statement_words. cbn [fst snd].
  destruct (name_words fromlist) as [|first others] eqn:E; [|reflexivity].
  destruct fromlist as [|n [|m rest]]; [contradiction | discriminate..].
Qed.

Lemma split_join_LF lines : split (join [LF] lines) = concat (map split lines).
Proof.
  induction lines as [|l ls IH]; [reflexivity|].
  destruct ls as [|l' ls].
  - cbn [join map concat]. now rewrite app_nil_r.
  - change (join [LF] (l :: l' :: ls)) with (l ++ LF :: join [LF] (l' :: ls)).
    rewrite TextwrapFacts.split_app by (right; discriminate).
    rewrite TextwrapFacts.split_cons. change (isspace LF) with true.
    cbv iota. rewrite IH. reflexivity.
Qed.

(** The words of a rendered from-import statement, for names without
    white space: [from], the dotted name, [import], and the names of the
    entry, each with its comma. *)
Lemma _pack_fromimport_words rootmodname tup :
  no_space rootmodname -> no_space tup.1 -> Forall no_space tup.2 ->
  split (_pack_fromimport rootmodname tup) = statement_words rootmodname tup.
Proof.
  intros Hroot Hname Hall. unfold _pack_fromimport.
  rewrite split_join_LF, TextwrapFacts.wrap_words.
  - destruct tup as [name fromlist]. cbn [fst snd] in *.
    destruct fromlist as [|n rest]; [reflexivity|].
    cbn [length Nat.ltb Nat.leb]. now apply split_rawstr.
  - unfold times. apply List.Forall_forall. intros c Hc.
    apply repeat_spec in Hc. now subst c.
Qed.

(** The words of the rendered from-import block are those of its
    statements. *)
Lemma _make_fromimport_str_words from_imports rootmodname :
  rootmodname <> py"." -> no_space rootmodname ->
  Forall (fun entry => no_space entry.1 /\ Forall no_space entry.2)
         from_imports ->
  split (_make_fromimport_str from_imports rootmodname)
  = concat (map (statement_words rootmodname) from_imports).
Proof.
  intros Hdot Hroot Hall. unfold _make_fromimport_str.
  rewrite bool_decide_eq_false_2 by exact Hdot.
  rewrite split_join_LF, map_map. f_equal.
  induction Hall as [|entry rest [Hname Hnames] _ IH]; [reflexivity|].
  cbn [map]. rewrite IH. f_equal. now apply _pack_fromimport_words.
Qed.

Section Enumeration.
Context {static : StaticAnalysis}.

(** C9.  Without a list of submodules, the submodules whose relative name
    starts with an underscore are left out entirely: the files the builder
    opens are files of the other submodules and of no other; and when the
    builder ends well, the plan has one entry per submodule whose relative
    name does not start with an underscore, in order, no entry's name
    starts with an underscore, and no public-callable list holds a name
    that starts with an underscore or contains a dot.  The import lines
    rendered from the plan are one [from <root> import <name>] per entry,
    and, names being without white space or hyphen (where [textwrap]
    breaks at white space only), the words of the rendered from-import
    statements are, entry by entry, [from], the dotted name of
    the submodule, [import] and the names of its public-callable list,
    each with its comma: no other name appears. *)
Theorem enumeration_skips_private (modpath : str) (w : World)
    (res : result (str * list str * list (str * list str))) (w' : World) :
  _static_parse_imports modpath None w = (res, w') ->
  let modname := modpath_to_modname modpath in
  let kept := retained modname (package_modpaths modpath) in
  Forall (fun p => startswith (rel_modname modname p) (py"_") = false) kept
  /\ (exists k, opened w' = opened w ++ take k kept)
  /\ forall name imports from_imports,
       res = Ok (name, imports, from_imports) ->
       name = modname
       /\ opened w' = opened w ++ kept
       /\ imports = map (rel_modname modname) kept
       /\ map fst from_imports = imports
       /\ Forall (fun m => startswith m (py"_") = false) imports
       /\ Forall (fun entry =>
                    Forall (fun callname =>
                              startswith callname (py"_") = false
                              /\ contains "."%char callname = false)
                           entry.2) from_imports
       /\ (contains "%"%char name = false ->
           _make_imports_str imports name
           = Ok (join [LF]
                   (map (fun m => py"from " ++ name ++ py" import " ++ m)
                        imports)))
       /\ (name <> py"." -> plain name ->
           Forall (fun entry => plain entry.1 /\ Forall plain entry.2)
                  from_imports ->
           split (_make_fromimport_str from_imports name)
           = concat (map (statement_words name) from_imports)).
Proof.
  intros Hrun modname kept.
  assert (Hkept : Forall (fun p => startswith (rel_modname modname p) (py"_")
                                   = false) kept).
  { apply List.Forall_forall. intros p Hp. apply List.filter_In in Hp.
    now apply negb_true_iff. }
  destruct (_static_parse_imports_run _ _ _ _ _ Hrun) as (res1 & Hloop & Hres).
  cbn [fst snd] in Hloop, Hres. fold modname kept in Hloop, Hres.
  destruct (forM_parse_run _ _ _ _ Hloop) as (_ & _ & (k & Hk) & Hok).
  split; [exact Hkept|]. split.
  { exists k. rewrite Hk. now rewrite omap_fst_zip_Some. }
  intros name imports from_imports Heq. subst res.
  destruct res1 as [fis|e]; [|discriminate]. cbn [rbind] in Heq.
  inversion Heq; subst name imports from_imports. clear Heq.
  destruct (Hok fis eq_refl) as [Hop Hall].
  split; [reflexivity|]. split.
  { rewrite Hop. f_equal.
    rewrite <- (firstn_all (zip _ _)), length_zip_with.
    rewrite omap_fst_zip_Some. apply firstn_all2.
    rewrite !length_map. lia. }
  split; [reflexivity|].
  assert (Hfst : map fst fis = map (rel_modname modname) kept
                 /\ Forall (fun entry =>
                              Forall (fun callname =>
                                        startswith callname (py"_") = false
                                        /\ contains "."%char callname = false)
                                     entry.2) fis).
  { clear Hop Hk Hloop Hrun Hok.
    generalize dependent fis.
    induction kept as [|p ps IH]; intros fis Hall.
    - inversion Hall. split; [reflexivity | constructor].
    - cbn [map zip zip_with] in Hall. inversion Hall as [|? fi ? fis' Hone Hrest];
        subst.
      inversion Hkept; subst.
      destruct (IH ltac:(assumption) _ Hrest) as [IH1 IH2].
      destruct Hone as (keys & _ & ->). cbn [fst snd map].
      split; [now rewrite IH1|].
      constructor; [|exact IH2]. cbn [snd].
      apply List.Forall_forall. intros c Hc. apply List.filter_In in Hc.
      destruct Hc as [_ Hc]. apply is_public_spec in Hc. tauto. }
  destruct Hfst as [Hfst Hpub].
  split; [exact Hfst|]. split.
  { apply List.Forall_forall. intros m Hm. apply List.in_map_iff in Hm.
    destruct Hm as (p & <- & Hp).
    rewrite List.Forall_forall in Hkept. now apply Hkept. }
  split; [exact Hpub|]. split; [apply _make_imports_str_lines|].
  intros Hdot [Hname _] Hplain.
  apply _make_fromimport_str_words; [exact Hdot | exact Hname |].
  eapply Forall_impl; [exact Hplain|].
  intros entry [[Hentry _] Hnames]. split; [exact Hentry|].
  eapply Forall_impl; [exact Hnames|]. now intros callname [Hcall _].
Qed.

End Enumeration.

Lemma enumeration_skips_private_witness :
  let run :=
    _static_parse_imports (static := Pkg.static) (py"pkg") None Pkg.world in
  opened run.2 = [py"pkg/a.py"; py"pkg/b.py"]
  /\ exists imports from_imports,
       run.1 = Ok (py"pkg", imports, from_imports)
       /\ Forall (fun m => startswith m (py"_") = false) imports
       /\ split (_make_fromimport_str from_imports (py"pkg"))
          = [py"from"; py"pkg.a"; py"import"; py"(foo,)"].
Proof.
  intros run.
  pose proof (enumeration_skips_private (static := Pkg.static) (py"pkg")
                Pkg.world run.1 run.2) as Hspec.
  destruct Hspec as (_ & _ & Hok).
  - subst run.
    destruct (_static_parse_imports (py"pkg") None Pkg.world); reflexivity.
  - split; [vm_compute; reflexivity|].
    exists [py"a"; py"b"], [(py"a", [py"foo"]); (py"b", [])].
    assert (Hrun : run.1 = Ok (py"pkg", [py"a"; py"b"],
                               [(py"a", [py"foo"]); (py"b", [])]))
      by (vm_compute; reflexivity).
    split; [exact Hrun|].
    destruct (Hok _ _ _ Hrun) as (_ & _ & _ & _ & Hpriv & _ & _ & Hwords).
    split; [exact Hpriv|].
    rewrite Hwords; [reflexivity | discriminate | |].
    + split; [repeat constructor | reflexivity].
    + repeat constructor.
Defined.

(** C4, as the code has it.  For root and submodule names and callable
    names without a hyphen (where [textwrap] breaks at white space only),
    the statement [_pack_fromimport] renders is the lines [textwrap.wrap]
    makes of [from <root>.<name> import (<names>,)], joined by newlines;
    every line is at most 79 characters long, except a line that is its
    indentation (none on the first line, the width of
    [from <root>.<name> import (] on the others) followed by one word
    without white space that does not fit in what the indentation leaves
    of the 79 characters; and the words of the lines are the words of the
    statement, in order, so that no identifier is split across two lines:
    for names without white space, the words of the rendered statement are
    [from], the dotted name, [import] and the names, each whole, with its
    comma. *)
Theorem fromimport_lines_width (rootmodname name : str) (fromlist : list str) :
  let from_module_str :=
    py"from " ++ rootmodname ++ py"." ++ name ++ py" import (" in
  let newline_prefix := times " "%char (length from_module_str) in
  let rawstr :=
    if 0 <? length fromlist
    then from_module_str ++ join (py", ") fromlist ++ py",)"
    else [] in
  let lines := Textwrap.wrap rawstr 79 newline_prefix in
  contains "-"%char rawstr = false ->
  _pack_fromimport rootmodname (name, fromlist) = join [LF] lines
  /\ Forall (fun line =>
               length line <= 79
               \/ exists word,
                    word <> []
                    /\ Forall (fun c => Textwrap.is_whitespace c = false) word
                    /\ (line = word \/ line = newline_prefix ++ word)
                    /\ 79 < length line) lines
  /\ concat (map split lines) = split rawstr
  /\ (no_space rootmodname -> no_space name -> Forall no_space fromlist ->
      split (_pack_fromimport rootmodname (name, fromlist))
      = statement_words rootmodname (name, fromlist)).
Proof.
  intros from_module_str newline_prefix rawstr lines _.
  split; [reflexivity|].
  split; [|split; [|apply (_pack_fromimport_words _ (name, fromlist))]].
  - pose proof (TextwrapFacts.wrap_lines_ok rawstr 79 newline_prefix) as Hok.
    fold lines in Hok. eapply Forall_impl; [exact Hok|].
    intros line [Hfit|(word & Hne & Hword & Hline)].
    + left. lia.
    + destruct (le_gt_dec (length line) 79) as [Hle|Hgt]; [now left|].
      right. exists word. cbn [app] in Hline. repeat split; auto.
  - apply TextwrapFacts.wrap_words. unfold newline_prefix, times.
    apply List.Forall_forall. intros c Hc. apply repeat_spec in Hc.
    now subst c.
Qed.

Lemma fromimport_lines_width_witness :
  _pack_fromimport (py"pkg") (py"a", [py"foo"; py"bar"])
  = py"from pkg.a import (foo, bar,)".
Proof.
  destruct (fromimport_lines_width (py"pkg") (py"a") [py"foo"; py"bar"])
    as (Hpack & _ & _ & _).
  - reflexivity.
  - rewrite Hpack. reflexivity.
Defined.

(** A callable name of 60 characters, far below the width, gives a line
    of 82 characters: the indentation of 19 counts too. *)
Lemma short_identifier_long_line :
  let fromlist := [repeat "x"%char 60] in
  let lines := split_on LF (_pack_fromimport (py"pkg") (py"a", fromlist)) in
  Forall (fun callname => length callname <= 79) fromlist
  /\ lines = [py"from pkg.a import";
              repeat " "%char 19 ++ py"(" ++ repeat "x"%char 60 ++ py",)"]
  /\ exists line, In line lines /\ length line = 82.
Proof.
  split; [repeat constructor; vm_compute; discriminate|].
  split; [vm_compute; reflexivity|].
  eexists. split; [right; left; vm_compute; reflexivity|].
  vm_compute. reflexivity.
Qed.

(** ** Merging twice *)

(** *** Lines *)

Lemma readlines_nil text : readlines text = [] -> text = [].
Proof.
  destruct text as [|c r]; [reflexivity|]. simpl.
  destruct (Ascii.eqb c LF); [discriminate|].
  destruct (readlines r); discriminate.
Qed.

(** Every line but the last one is complete. *)
Lemma readlines_complete text : forall i line,
  readlines text !! i = Some line -> S i < length (readlines text) ->
  complete line.
Proof.
  induction text as [|c r IH]; intros i line Hi Hlen; [discriminate|].
  cbn [readlines] in Hi, Hlen.
  destruct (Ascii.eqb_spec c LF) as [->|Hc].
  - destruct i as [|i]; simpl in Hi, Hlen.
    + inversion Hi. exists []. split; [reflexivity | constructor].
    + apply (IH i); [exact Hi | lia].
  - destruct (readlines r) as [|l0 ls] eqn:E.
    + simpl in Hlen. lia.
    + destruct i as [|i]; simpl in Hi, Hlen.
      * inversion Hi; subst line.
        destruct (IH 0 l0 eq_refl ltac:(simpl; lia)) as (body & -> & Hbody).
        exists (c :: body). split; [reflexivity | now constructor].
      * apply (IH (S i)); [exact Hi | simpl; lia].
Qed.

Lemma readlines_complete_line body rest :
  Forall (fun c => c <> LF) body ->
  readlines ((body ++ [LF]) ++ rest) = (body ++ [LF]) :: readlines rest.
Proof.
  induction 1 as [|c body Hc _ IH]; simpl.
  - reflexivity.
  - destruct (Ascii.eqb_spec c LF) as [->|_]; [contradiction|].
    simpl in IH. rewrite IH. reflexivity.
Qed.

Lemma readlines_concat_complete lines rest :
  Forall complete lines ->
  readlines (concat lines ++ rest) = lines ++ readlines rest.
Proof.
  induction 1 as [|l ls (body & -> & Hbody) _ IH]; [reflexivity|].
  cbn [concat]. rewrite <- app_assoc, readlines_complete_line by exact Hbody.
  now rewrite IH.
Qed.

Lemma take_complete text k :
  k < length (readlines text) -> Forall complete (take k (readlines text)).
Proof.
  intros Hk. apply List.Forall_forall. intros l Hl.
  apply list_elem_of_In, list_elem_of_lookup in Hl. destruct Hl as (i & Hi).
  apply lookup_take_Some in Hi. destruct Hi as [Hi Hik].
  apply (readlines_complete text i); [exact Hi | lia].
Qed.

(** Reading the lines from [k] on again gives these lines. *)
Lemma readlines_drop text k :
  readlines (concat (drop k (readlines text))) = drop k (readlines text).
Proof.
  destruct (le_lt_dec (length (readlines text)) k) as [Hk|Hk].
  - now rewrite drop_ge.
  - pose proof (readlines_concat_complete (take k (readlines text))
                  (concat (drop k (readlines text)))
                  (take_complete text k Hk)) as Heq.
    rewrite <- concat_app, take_drop, concat_readlines in Heq.
    rewrite <- (take_drop k (readlines text)) in Heq at 1.
    now apply app_inv_head in Heq.
Qed.

(** *** [rstrip] and [strip] *)

Lemma strip_comm s : strip s = lstrip (rstrip s).
Proof.
  unfold strip. induction s as [|c r IH]; [reflexivity|].
  cbn [lstrip rstrip]. destruct (isspace c) eqn:Ec.
  - rewrite IH. destruct (rstrip r) as [|d r']; [reflexivity|].
    cbn [lstrip]. now rewrite Ec.
  - cbn [rstrip]. destruct (rstrip r) as [|d r']; cbn [lstrip]; now rewrite Ec.
Qed.

Lemma rstrip_strip a b : rstrip a = rstrip b -> strip a = strip b.
Proof. intros H. now rewrite !strip_comm, H. Qed.

Lemma rstrip_cons c a b : rstrip a = rstrip b -> rstrip (c :: a) = rstrip (c :: b).
Proof. intros H. cbn [rstrip]. now rewrite H. Qed.

(** The lines of a text without its trailing white space are the first
    lines of the text, up to white space at their end. *)
Lemma readlines_rstrip text :
  Forall2 (fun a b => rstrip a = rstrip b)
          (readlines (rstrip text))
          (take (length (readlines (rstrip text))) (readlines text)).
Proof.
  induction text as [|c r IH]; [constructor|].
  cbn [rstrip]. destruct (rstrip r) as [|d r'] eqn:Er.
  - destruct (isspace c) eqn:Ec; [constructor|].
    assert (Hc : Ascii.eqb c LF = false).
    { destruct (Ascii.eqb_spec c LF) as [->|]; [discriminate | reflexivity]. }
    cbn [readlines]. rewrite Hc. cbn [readlines length].
    apply rstrip_nil_iff in Er.
    destruct (readlines r) as [|l0 ls] eqn:El; cbn [take].
    + constructor; [reflexivity | constructor].
    + constructor; [|constructor].
      assert (Hl0 : Forall (fun x => isspace x = true) l0).
      { rewrite <- (concat_readlines r), El in Er. cbn [concat] in Er.
        apply Forall_app in Er. tauto. }
      apply rstrip_nil_iff in Hl0. cbn [rstrip]. now rewrite Hl0, Ec.
  - remember (d :: r') as t eqn:Ht.
    cbn [readlines]. destruct (Ascii.eqb c LF).
    + cbn [length take]. constructor; [reflexivity | exact IH].
    + destruct (readlines t) as [|l0' ls'] eqn:El'.
      { apply readlines_nil in El'. subst t. discriminate. }
      destruct (readlines r) as [|l0 ls] eqn:El.
      { apply readlines_nil in El. subst r t. discriminate. }
      cbn [length take] in IH |- *.
      inversion IH as [|? ? ? ? H0 Hrest]; subst.
      constructor; [now apply rstrip_cons | exact Hrest].
Qed.

(** *** Characters of the block *)

Lemma contains_false_iff c s :
  contains c s = false <-> Forall (fun d => d <> c) s.
Proof.
  unfold contains. induction s as [|d s IH]; simpl.
  - split; [constructor | reflexivity].
  - rewrite orb_false_iff, IH. split.
    + intros [Hd Hs]. constructor; [|exact Hs].
      intros ->. now rewrite Ascii.eqb_refl in Hd.
    + intros H. inversion H; subst. split; [|assumption].
      destruct (Ascii.eqb_spec c d); congruence.
Qed.

Lemma contains_concat c lines :
  contains c (concat lines) = false ->
  Forall (fun l => contains c l = false) lines.
Proof.
  induction lines as [|l ls IH]; intros H; [constructor|].
  cbn [concat] in H. rewrite contains_app in H.
  apply orb_false_iff in H. destruct H. constructor; auto.
Qed.

Lemma contains_take c k s : contains c s = false -> contains c (take k s) = false.
Proof.
  rewrite !contains_false_iff. apply Forall_take.
Qed.

Lemma contains_lstrip c s : contains c s = false -> contains c (lstrip s) = false.
Proof.
  intros H. destruct (TextwrapFacts.lstrip_suffix s) as (ws & _ & Heq).
  rewrite Heq, contains_app in H. apply orb_false_iff in H. tauto.
Qed.

Lemma contains_rstrip c s : contains c s = false -> contains c (rstrip s) = false.
Proof.
  intros H. destruct (rstrip_spec s) as (ws & _ & Heq).
  rewrite <- Heq, contains_app in H. apply orb_false_iff in H. tauto.
Qed.

(** A line without [#] carries no tag. *)
Lemma no_hash_not_tag line :
  contains "#"%char line = false -> is_begin line = false /\ is_end line = false.
Proof.
  intros H. apply contains_lstrip, contains_rstrip in H. fold (strip line) in H.
  unfold is_begin, is_end, BEGIN_TAG, END_TAG.
  destruct (strip line) as [|c s]; [split; reflexivity|].
  unfold contains in H. cbn [existsb] in H. apply orb_false_iff in H.
  destruct H as [H _]. rewrite Ascii.eqb_sym in H.
  split; cbn [list_ascii_of_string startswith]; now rewrite H.
Qed.

Lemma find_spec s c :
  (find s c = (-1)%Z /\ contains c s = false)
  \/ exists k, find s c = Z.of_nat k /\ contains c (take k s) = false.
Proof.
  induction s as [|d s IH]; [left; split; reflexivity|].
  cbn [find]. destruct (Ascii.eqb d c) eqn:E.
  - right. exists 0. split; reflexivity.
  - destruct IH as [[Hf Hc]|(k & Hf & Hc)]; rewrite Hf.
    + left. split; [reflexivity|].
      unfold contains in *. cbn [existsb]. rewrite Ascii.eqb_sym, E. exact Hc.
    + right. exists (S k).
      assert (Hk : (Z.of_nat k <? 0)%Z = false) by (apply Z.ltb_ge; lia).
      rewrite Hk. split; [lia|].
      unfold contains in *. cbn [take existsb].
      rewrite Ascii.eqb_sym, E. exact Hc.
Qed.

(** The indentation of a begin tag has no [#]. *)
Lemma indent_no_hash line :
  contains "#"%char (slice_to line (find line "#"%char)) = false.
Proof.
  unfold slice_to.
  destruct (find_spec line "#"%char) as [[Hf Hc]|(k & Hf & Hc)]; rewrite Hf.
  - cbn. now apply contains_take.
  - assert (Hk : (Z.of_nat k <? 0)%Z = false) by (apply Z.ltb_ge; lia).
    rewrite Hk, Nat2Z.id. exact Hc.
Qed.

Lemma _indent_no_hash initstr indent :
  contains "#"%char initstr = false -> contains "#"%char indent = false ->
  contains "#"%char (_indent initstr indent ++ [LF]) = false.
Proof.
  intros Hs Hi. unfold _indent. rewrite !contains_app, Hi. cbn [orb].
  rewrite orb_false_r. unfold replace.
  induction initstr as [|c s IH]; [reflexivity|].
  unfold contains in Hs. cbn [existsb] in Hs. apply orb_false_iff in Hs.
  destruct Hs as [Hc Hs]. cbn [flat_map]. rewrite contains_app, (IH Hs).
  rewrite orb_false_r. destruct (Ascii.eqb c LF).
  - unfold contains in *. cbn [existsb]. now rewrite Hi.
  - unfold contains. cbn [existsb]. now rewrite Hc.
Qed.

(** *** The scan, seen from its result *)

Lemma scan_line_heuristic_eq n line r :
  explicit r = false -> is_begin line = false ->
  scan_line n line r
  = set_startline
      (if is_docstring_delimiter line
          || startswith (strip line) (py"from __future__")
          || startswith (strip line) (py"#")
       then n + 1 else startline r) r.
Proof.
  destruct r as [s e x i]. cbn [explicit]. intros -> Hb.
  unfold is_begin in Hb. unfold scan_line. cbn [explicit negb andb].
  destruct (is_docstring_delimiter line);
    cbn [set_startline explicit negb andb orb];
    destruct (startswith (strip line) (py"from __future__"));
    cbn [set_startline explicit negb andb orb];
    destruct (startswith (strip line) (py"#"));
    cbn [set_startline explicit negb andb orb startline endline init_indent];
    rewrite Hb; reflexivity.
Qed.

Lemma scan_line_heuristic n line r :
  explicit r = false -> is_begin line = false ->
  exists s, scan_line n line r = set_startline s r.
Proof. intros Hx Hb. eexists. now apply scan_line_heuristic_eq. Qed.

Lemma scan_lines_snoc n lines line r :
  scan_lines n (lines ++ [line]) r
  = scan_line (n + length lines) line (scan_lines n lines r).
Proof. now rewrite scan_lines_app. Qed.

(** What the scan makes of a line, by the tags the line carries. *)
Lemma scan_line_cases n line r :
  (is_begin line = true
   /\ scan_line n line r
      = mkRegion (n + 1) (endline r) true (slice_to line (find line "#"%char)))
  \/ (is_begin line = false /\ explicit r = true /\ is_end line = true
      /\ scan_line n line r = set_endline n r)
  \/ (is_begin line = false /\ explicit r = true /\ is_end line = false
      /\ scan_line n line r = r)
  \/ (is_begin line = false /\ explicit r = false
      /\ exists s, scan_line n line r = set_startline s r).
Proof.
  destruct (is_begin line) eqn:Hb.
  - left. split; [reflexivity | now apply scan_line_begin].
  - right. destruct (explicit r) eqn:Hx.
    + destruct (is_end line) eqn:He.
      * left. repeat split. now apply scan_line_explicit_end.
      * right. left. repeat split. now apply scan_line_explicit_other.
    + right. right. repeat split. now apply scan_line_heuristic.
Qed.

(** In explicit mode, [startline] is just past the last begin tag, no
    line after it carries a begin tag, and the scan of the lines up to
    that tag already has [startline] and [init_indent]. *)
Lemma scan_explicit_inv E0 lines :
  let r := scan_lines 0 lines (mkRegion 0 E0 false []) in
  explicit r = true ->
  exists b lb,
    startline r = S b /\ lines !! b = Some lb /\ is_begin lb = true
    /\ init_indent r = slice_to lb (find lb "#"%char)
    /\ Forall (fun l => is_begin l = false) (drop (S b) lines)
    /\ let rb := scan_lines 0 (take (S b) lines) (mkRegion 0 E0 false []) in
       startline rb = S b /\ explicit rb = true
       /\ init_indent rb = init_indent r.
Proof.
  induction lines as [|x lines IH] using rev_ind; intros r Hx.
  - discriminate.
  - subst r. rewrite scan_lines_snoc in Hx |- *. cbn [Nat.add] in Hx |- *.
    set (r := scan_lines 0 lines (mkRegion 0 E0 false [])) in *.
    assert (Hkeep : forall r',
               startline r' = startline r -> init_indent r' = init_indent r ->
               explicit r = true -> is_begin x = false ->
               exists b lb,
                 startline r' = S b /\ (lines ++ [x]) !! b = Some lb
                 /\ is_begin lb = true
                 /\ init_indent r' = slice_to lb (find lb "#"%char)
                 /\ Forall (fun l => is_begin l = false)
                           (drop (S b) (lines ++ [x]))
                 /\ let rb := scan_lines 0 (take (S b) (lines ++ [x]))
                                         (mkRegion 0 E0 false []) in
                    startline rb = S b /\ explicit rb = true
                    /\ init_indent rb = init_indent r').
    { intros r' Hs' Hi' Hr Hb.
      destruct (IH Hr) as (b & lb & Hs & Hlb & Hblb & Hind & Hafter & Hrb).
      assert (Hlt : b < length lines) by (eapply lookup_lt_Some; exact Hlb).
      exists b, lb. rewrite Hs', Hi'.
      split; [exact Hs|]. split; [now apply lookup_app_l_Some|].
      split; [exact Hblb|]. split; [exact Hind|]. split.
      { rewrite drop_app_le by lia. apply Forall_app. split; [exact Hafter|].
        now constructor. }
      rewrite take_app_le by lia. exact Hrb. }
    destruct (scan_line_cases (length lines) x r)
      as [[Hb Heq]|[(Hb & Hr & He & Heq)|[(Hb & Hr & He & Heq)
                                         |(Hb & Hr & s & Heq)]]].
    + exists (length lines), x. rewrite Heq. cbn [startline init_indent].
      split; [lia|]. split; [apply list_lookup_middle; reflexivity|].
      split; [exact Hb|]. split; [reflexivity|]. split.
      { rewrite drop_ge by (rewrite length_app; simpl; lia). constructor. }
      rewrite take_ge by (rewrite length_app; simpl; lia).
      rewrite scan_lines_snoc. cbn [Nat.add]. fold r. rewrite Heq.
      cbn [startline explicit init_indent]. repeat split. lia.
    + rewrite Heq. now apply Hkeep.
    + rewrite Heq. now apply Hkeep.
    + rewrite Heq in Hx. cbn [set_startline explicit] in Hx. congruence.
Qed.

(** [endline] is the value it started with, or the index of the last end
    tag, seen in explicit mode. *)
Lemma scan_endline_inv E0 lines :
  let r := scan_lines 0 lines (mkRegion 0 E0 false []) in
  endline r = E0
  \/ (explicit r = true
      /\ exists le, lines !! endline r = Some le /\ is_end le = true
                    /\ Forall (fun l => is_end l = false)
                              (drop (S (endline r)) lines)).
Proof.
  induction lines as [|x lines IH] using rev_ind; intros r.
  - left. reflexivity.
  - subst r. rewrite scan_lines_snoc. cbn [Nat.add].
    set (r := scan_lines 0 lines (mkRegion 0 E0 false [])) in *.
    assert (Hkeep : forall r', endline r' = endline r ->
                               (explicit r = true -> explicit r' = true) ->
                               is_end x = false ->
              endline r' = E0
              \/ (explicit r' = true
                  /\ exists le, (lines ++ [x]) !! endline r' = Some le
                                /\ is_end le = true
                                /\ Forall (fun l => is_end l = false)
                                          (drop (S (endline r')) (lines ++ [x])))).
    { intros r' He Hx Hend. rewrite He.
      destruct IH as [IH|(Hr & le & Hle & Hend' & Hafter)]; [now left|].
      right. split; [now apply Hx|]. exists le.
      assert (Hlt : endline r < length lines)
        by (eapply lookup_lt_Some; exact Hle).
      split; [now apply lookup_app_l_Some|]. split; [exact Hend'|].
      rewrite drop_app_le by lia. apply Forall_app. split; [exact Hafter|].
      now constructor. }
    destruct (scan_line_cases (length lines) x r)
      as [[Hb Heq]|[(Hb & Hr & He & Heq)|[(Hb & Hr & He & Heq)
                                         |(Hb & Hr & s & Heq)]]].
    + rewrite Heq. apply Hkeep; [reflexivity | reflexivity|].
      now apply begin_not_end.
    + right. rewrite Heq. cbn [set_endline explicit endline].
      split; [exact Hr|]. exists x.
      split; [apply list_lookup_middle; reflexivity|]. split; [exact He|].
      rewrite drop_ge by (rewrite length_app; simpl; lia). constructor.
    + rewrite Heq. apply Hkeep; auto.
    + rewrite Heq. cbn [set_startline endline explicit].
      destruct IH as [IH|(Hr' & _)]; [now left | congruence].
Qed.

(** The initial [endline] bears on nothing but [endline]. *)
Lemma scan_line_endline_irrelevant n line r1 r2 :
  startline r1 = startline r2 -> explicit r1 = explicit r2 ->
  init_indent r1 = init_indent r2 ->
  startline (scan_line n line r1) = startline (scan_line n line r2)
  /\ explicit (scan_line n line r1) = explicit (scan_line n line r2)
  /\ init_indent (scan_line n line r1) = init_indent (scan_line n line r2).
Proof.
  intros Hs Hx Hi.
  destruct (scan_line_cases n line r1)
    as [[Hb Heq]|[(Hb & Hr & He & Heq)|[(Hb & Hr & He & Heq)
                                       |(Hb & Hr & _)]]].
  - rewrite Heq, (scan_line_begin _ _ r2 Hb). auto.
  - rewrite Heq, (scan_line_explicit_end _ _ r2) by congruence. auto.
  - rewrite Heq, (scan_line_explicit_other _ _ r2) by congruence. auto.
  - rewrite !scan_line_heuristic_eq by congruence.
    cbn [set_startline startline explicit init_indent]. rewrite Hs. auto.
Qed.

Lemma scan_lines_endline_irrelevant lines : forall n r1 r2,
  startline r1 = startline r2 -> explicit r1 = explicit r2 ->
  init_indent r1 = init_indent r2 ->
  startline (scan_lines n lines r1) = startline (scan_lines n lines r2)
  /\ explicit (scan_lines n lines r1) = explicit (scan_lines n lines r2)
  /\ init_indent (scan_lines n lines r1) = init_indent (scan_lines n lines r2).
Proof.
  induction lines as [|l ls IH]; intros n r1 r2 Hs Hx Hi; [auto|].
  cbn [scan_lines].
  destruct (scan_line_endline_irrelevant n l r1 r2 Hs Hx Hi) as (H1 & H2 & H3).
  now apply IH.
Qed.

Lemma scan_lines_explicit_mono lines : forall n r,
  explicit r = true -> explicit (scan_lines n lines r) = true.
Proof.
  induction lines as [|l ls IH]; intros n r Hx; [exact Hx|].
  cbn [scan_lines]. apply IH. rewrite scan_line_explicit by exact Hx.
  destruct (is_begin l); [reflexivity|]. destruct (is_end l); exact Hx.
Qed.

Lemma scan_lines_endline_range lines : forall n r,
  endline (scan_lines n lines r) = endline r
  \/ n <= endline (scan_lines n lines r) < n + length lines.
Proof.
  induction lines as [|l ls IH]; intros n r; [now left|].
  cbn [scan_lines length].
  assert (Hone : endline (scan_line n l r) = endline r
                 \/ endline (scan_line n l r) = n).
  { destruct (scan_line_cases n l r)
      as [[_ ->]|[(_ & _ & _ & ->)|[(_ & _ & _ & ->)|(_ & _ & s & ->)]]];
      auto. }
  destruct (IH (S n) (scan_line n l r)) as [->|Hr]; [|right; lia].
  destruct Hone as [->| ->]; [now left | right; lia].
Qed.

(** C7, as the code has it.  Once explicit mode is active, a line whose
    stripped content starts with the end tag sets [endline] to its own
    index, and the scan goes on to the last line: lines that carry neither
    tag change nothing, so without a tag after that line the scan ends
    with [endline] at its index and the rest as it was before the line;
    in any case the scan ends in explicit mode, with [endline] the index
    of the last line that carries the end tag, at or after that line, and
    [startline] just past the last line that carries the begin tag. *)
Theorem end_tag_sets_endline (pre : list str) (line : str) (post : list str) :
  let lines := pre ++ line :: post in
  let before := scan_lines 0 pre (mkRegion 0 (length lines) false []) in
  let r := find_region lines in
  explicit before = true ->
  is_end line = true ->
  scan_line (length pre) line before = set_endline (length pre) before
  /\ (Forall (fun l => is_begin l = false /\ is_end l = false) post ->
      r = set_endline (length pre) before)
  /\ explicit r = true
  /\ (exists le,
        lines !! endline r = Some le /\ is_end le = true
        /\ length pre <= endline r
        /\ Forall (fun l => is_end l = false) (drop (S (endline r)) lines))
  /\ (exists b lb,
        startline r = S b /\ lines !! b = Some lb /\ is_begin lb = true
        /\ Forall (fun l => is_begin l = false) (drop (S b) lines)).
Proof.
  intros lines before r Hx He.
  assert (Hr : r = scan_lines (S (length pre)) post
                     (set_endline (length pre) before)).
  { subst r. unfold find_region. unfold lines at 1.
    rewrite scan_lines_app. fold before.
    cbn [scan_lines Nat.add]. now rewrite scan_line_explicit_end. }
  assert (Hxr : explicit r = true).
  { rewrite Hr. now apply scan_lines_explicit_mono. }
  split; [now apply scan_line_explicit_end|]. split.
  { intros Hpost. rewrite Hr. now apply scan_lines_explicit_other. }
  split; [exact Hxr|]. split.
  - assert (Hlt : endline r < length lines).
    { pose proof (scan_lines_endline_range post (S (length pre))
                    (set_endline (length pre) before)) as Hrange.
      rewrite <- Hr in Hrange. cbn [set_endline endline] in Hrange.
      unfold lines. rewrite length_app. cbn [length]. lia. }
    pose proof (scan_endline_inv (length lines) lines) as Hinv.
    cbv zeta in Hinv.
    change (scan_lines 0 lines (mkRegion 0 (length lines) false []))
      with r in Hinv.
    destruct Hinv as [Heq|(_ & le & Hle & Hend & Hafter)]; [lia|].
    exists le. split; [exact Hle|]. split; [exact Hend|].
    split; [|exact Hafter].
    destruct (le_lt_dec (length pre) (endline r)) as [Hok|Hbad]; [exact Hok|].
    exfalso.
    assert (Hin : drop (S (endline r)) lines !! (length pre - S (endline r))
                  = Some line).
    { rewrite lookup_drop.
      replace (S (endline r) + (length pre - S (endline r)))
        with (length pre) by lia.
      unfold lines. now apply list_lookup_middle. }
    rewrite List.Forall_forall in Hafter.
    specialize (Hafter line). rewrite He in Hafter.
    enough (true = false) by discriminate. apply Hafter.
    eapply list_elem_of_In, list_elem_of_lookup_2. exact Hin.
  - destruct (scan_explicit_inv (length lines) lines Hxr)
      as (b & lb & Hs & Hlb & Hblb & _ & Hafter & _).
    exists b, lb. repeat split; assumption.
Qed.

Lemma end_tag_sets_endline_witness :
  find_region ([py"# <AUTOGEN_INIT>" ++ [LF]; py"import old" ++ [LF]]
               ++ (py"# </AUTOGEN_INIT>" ++ [LF]) :: [py"keep = 1" ++ [LF]])
  = mkRegion 1 2 true [].
Proof.
  destruct (end_tag_sets_endline
              [py"# <AUTOGEN_INIT>" ++ [LF]; py"import old" ++ [LF]]
              (py"# </AUTOGEN_INIT>" ++ [LF]) [py"keep = 1" ++ [LF]])
    as (_ & Hrest & _).
  - reflexivity.
  - reflexivity.
  - rewrite Hrest; [reflexivity | repeat constructor].
Defined.

(** *** The fixed point *)

Lemma is_end_not_blank line rest : is_end line = true -> rstrip (line ++ rest) <> [].
Proof.
  intros He Hnil. apply rstrip_nil_iff, Forall_app in Hnil.
  destruct Hnil as [Hline _]. unfold is_end, strip in He.
  now rewrite (TextwrapFacts.lstrip_isspace _ Hline) in He.
Qed.

Lemma readlines_app_LF a rest :
  readlines ((a ++ [LF]) ++ rest) = readlines (a ++ [LF]) ++ readlines rest.
Proof.
  induction a as [|c a IH]; [reflexivity|].
  cbn [app readlines]. destruct (Ascii.eqb c LF); rewrite IH.
  - reflexivity.
  - destruct (readlines (a ++ [LF])) as [|l ls] eqn:E; [|reflexivity].
    apply readlines_nil in E. now destruct a.
Qed.

Lemma Forall2_transfer {A} (R : A -> A -> Prop) (Q Q' : A -> Prop) xs ys :
  (forall a b, R a b -> Q b -> Q' a) ->
  Forall2 R xs ys -> Forall Q ys -> Forall Q' xs.
Proof.
  intros HR H2. induction H2 as [|a b xs ys Hab _ IH]; intros HQ.
  - constructor.
  - inversion HQ; subst. constructor; eauto.
Qed.

(** Merging a block without [#] into what the merger made of the same
    block, between a begin tag and an end tag, changes nothing. *)
Lemma new_text_fixed_point text initstr out :
  new_text (readlines text) initstr = Ok out ->
  explicit (find_region (readlines text)) = true ->
  endline (find_region (readlines text)) < length (readlines text) ->
  contains "#"%char initstr = false ->
  new_text (readlines out) initstr = Ok out.
Proof.
  intros Hnew Hx Hend Hhash.
  set (L := readlines text) in *. set (r := find_region L) in *.
  destruct (new_text_frame _ _ _ Hnew) as ([Hse _] & _ & _ & Hout).
  fold r in Hse, Hout.
  destruct (scan_explicit_inv (length L) L Hx)
    as (b & lb & Hs & Hlb & Hblb & Hind & Hnobegin & Hrb).
  fold (find_region L) in Hs, Hind, Hrb. fold r in Hs, Hind, Hrb.
  cbv zeta in Hrb. rewrite <- Hs in Hnobegin, Hrb.
  destruct (scan_endline_inv (length L) L) as [He|(_ & le & Hle & Hele & Hnoend)].
  { fold (find_region L) in He. fold r in He. lia. }
  fold (find_region L) in Hle, Hnoend. fold r in Hle, Hnoend.
  set (s := startline r) in *. set (e := endline r) in *.
  set (ind := init_indent r) in *.
  set (B := _indent initstr ind ++ [LF]) in *.
  assert (Hdrop : drop e L = le :: drop (S e) L)
    by (now apply drop_S).
  assert (HT : rstrip (concat (drop e L)) <> []).
  { rewrite Hdrop. cbn [concat]. now apply is_end_not_blank. }
  specialize (Hout HT).
  set (T := concat (drop e L)) in *.
  (* the lines of the merged text *)
  assert (HL' : readlines out
                = take s L ++ readlines B ++ readlines (rstrip T)).
  { rewrite Hout. rewrite readlines_concat_complete
      by (apply take_complete; fold L; lia).
    unfold B. now rewrite readlines_app_LF. }
  assert (HB : Forall (fun l => is_begin l = false /\ is_end l = false)
                      (readlines B)).
  { assert (HhB : contains "#"%char B = false).
    { apply _indent_no_hash; [exact Hhash|]. rewrite Hind.
      apply indent_no_hash. }
    rewrite <- (concat_readlines B) in HhB. apply contains_concat in HhB.
    eapply Forall_impl; [exact HhB|]. apply no_hash_not_tag. }
  assert (HT' : exists t0 trest,
             readlines (rstrip T) = t0 :: trest /\ is_end t0 = true
             /\ Forall (fun l => is_begin l = false /\ is_end l = false) trest).
  { pose proof (readlines_rstrip T) as H2.
    assert (HrT : readlines T = le :: drop (S e) L).
    { unfold T, L. rewrite readlines_drop. exact Hdrop. }
    rewrite HrT in H2.
    destruct (readlines (rstrip T)) as [|t0 trest] eqn:Et.
    { apply readlines_nil in Et. contradiction. }
    exists t0, trest. split; [reflexivity|].
    cbn [length take] in H2. inversion H2 as [|? ? ? ? Ht0 Hrest]; subst.
    split.
    - unfold is_end in *. now rewrite (rstrip_strip _ _ Ht0).
    - eapply Forall2_transfer; [|exact Hrest|].
      + intros a c Hac Hc. unfold is_begin, is_end in *.
        rewrite (rstrip_strip _ _ Hac). exact Hc.
      + apply Forall_take. apply Forall_and. split; [|exact Hnoend].
        replace (drop (S e) L) with (drop (S e - s) (drop s L))
          by (rewrite drop_drop; f_equal; lia).
        now apply Forall_drop. }
  destruct HT' as (t0 & trest & Et & Ht0 & Htrest).
  (* the scan of the merged text *)
  assert (Hs_len : length (take s L) = s) by (rewrite length_take; lia).
  assert (Hregion : find_region (readlines out)
                    = mkRegion s (s + length (readlines B)) true ind).
  { unfold find_region. rewrite HL', Et.
    rewrite scan_lines_app, Hs_len. cbn [Nat.add].
    set (r0' := mkRegion 0 _ false []).
    destruct (scan_lines_endline_irrelevant (take s L) 0 r0'
                (mkRegion 0 (length L) false []) eq_refl eq_refl eq_refl)
      as (H1 & H2 & H3).
    destruct Hrb as (Hrb1 & Hrb2 & Hrb3).
    rewrite Hrb1 in H1. rewrite Hrb2 in H2. rewrite Hrb3 in H3.
    set (rP := scan_lines 0 (take s L) r0') in *.
    rewrite scan_lines_app.
    rewrite (scan_lines_explicit_other s (readlines B) rP H2 HB).
    cbn [scan_lines].
    rewrite scan_line_explicit_end by assumption.
    rewrite scan_lines_explicit_other by (cbn; assumption).
    destruct rP as [s1 e1 x1 i1]. cbn in H1, H2, H3. subst.
    reflexivity. }
  unfold new_text. rewrite Hregion.
  cbn [startline endline init_indent].
  assert (Hle' : (s <=? s + length (readlines B)) = true)
    by (apply Nat.leb_le; lia).
  rewrite Hle'. f_equal. fold B. rewrite HL'.
  assert (Htake : take s (take s L ++ readlines B ++ readlines (rstrip T))
                  = take s L).
  { rewrite <- Hs_len at 1. apply take_app_length. }
  assert (Hdrop' : drop (s + length (readlines B))
                        (take s L ++ readlines B ++ readlines (rstrip T))
                   = readlines (rstrip T)).
  { rewrite drop_app_ge by lia. rewrite Hs_len.
    replace (s + length (readlines B) - s) with (length (readlines B)) by lia.
    apply drop_app_length. }
  rewrite Htake, Hdrop'.
  rewrite !concat_app. cbn [concat]. rewrite app_nil_r.
  rewrite concat_readlines.
  assert (Hidem : rstrip (rstrip T) <> []) by now rewrite rstrip_idem.
  rewrite rstrip_app_keep.
  - rewrite rstrip_app_keep by exact Hidem. now rewrite rstrip_idem, Hout.
  - rewrite rstrip_app_keep by exact Hidem.
    intros Hnil. apply app_eq_nil in Hnil. destruct Hnil as [_ Hnil].
    now apply Hidem.
Qed.

(** *** A block rendered from names without [#] has no [#] *)

Lemma no_hash_app a b : no_hash a -> no_hash b -> no_hash (a ++ b).
Proof. unfold no_hash. intros Ha Hb. now rewrite contains_app, Ha, Hb. Qed.

Lemma no_hash_cons c s : c <> "#"%char -> no_hash s -> no_hash (c :: s).
Proof.
  unfold no_hash, contains. intros Hc Hs. cbn [existsb].
  rewrite Hs, orb_false_r.
  destruct (Ascii.eqb_spec "#"%char c); congruence.
Qed.

Lemma no_hash_inv c s : no_hash (c :: s) -> c <> "#"%char /\ no_hash s.
Proof.
  unfold no_hash, contains. cbn [existsb]. intros H.
  apply orb_false_iff in H. destruct H as [Hc Hs]. split; [|exact Hs].
  intros ->. discriminate.
Qed.

Lemma no_hash_join sep parts :
  no_hash sep -> Forall no_hash parts -> no_hash (join sep parts).
Proof.
  intros Hsep. induction 1 as [|p ps Hp _ IH]; [reflexivity|].
  cbn [join]. destruct ps as [|q ps]; [exact Hp|].
  apply no_hash_app; [exact Hp|]. apply no_hash_app; [exact Hsep | exact IH].
Qed.

Lemma no_hash_percent fmt : forall args s,
  percent fmt args = Ok s -> no_hash fmt -> Forall no_hash args -> no_hash s.
Proof.
  induction fmt as [fmt IH] using (induction_ltof1 _ (@length ascii)).
  unfold ltof in IH. intros args s Hp Hfmt Hargs.
  destruct fmt as [|c r]; cbn [percent] in Hp.
  - destruct args; inversion Hp. reflexivity.
  - apply no_hash_inv in Hfmt. destruct Hfmt as [Hc Hr].
    destruct (Ascii.eqb c "%"%char).
    + destruct r as [|d r']; [discriminate|].
      apply no_hash_inv in Hr. destruct Hr as [Hd Hr'].
      destruct (Ascii.eqb d "%"%char).
      * destruct (percent r' args) as [s'|] eqn:E; [|discriminate].
        inversion Hp; subst s.
        apply no_hash_cons; [discriminate|].
        apply (IH r' ltac:(simpl; lia) args); assumption.
      * destruct (Ascii.eqb d "s"%char); [|discriminate].
        destruct args as [|a args']; [discriminate|].
        destruct (percent r' args') as [s'|] eqn:E; [|discriminate].
        inversion Hp; subst s. inversion Hargs; subst.
        apply no_hash_app; [assumption|].
        apply (IH r' ltac:(simpl; lia) args'); assumption.
    + destruct (percent r args) as [s'|] eqn:E; [|discriminate].
      inversion Hp; subst s. apply no_hash_cons; [exact Hc|].
      apply (IH r ltac:(simpl; lia) args); assumption.
Qed.

Lemma no_hash__make_imports_str imports rootmodname s :
  _make_imports_str imports rootmodname = Ok s ->
  no_hash rootmodname -> Forall no_hash imports -> no_hash s.
Proof.
  unfold _make_imports_str. intros Hs Hroot Himports.
  set (fmt := py"from " ++ rootmodname ++ py" import %s") in *.
  assert (Hfmt : no_hash fmt).
  { unfold fmt. apply no_hash_app; [reflexivity|].
    apply no_hash_app; [exact Hroot | reflexivity]. }
  assert (Hlines : forall lines,
             rmapM (fun name => percent fmt [name]) imports = Ok lines ->
             Forall no_hash lines).
  { clear Hs. induction Himports as [|m ms Hm _ IH]; intros lines Hl.
    - inversion Hl. constructor.
    - cbn [rmapM] in Hl.
      destruct (percent fmt [m]) as [l|] eqn:El; [|discriminate].
      cbn [rbind] in Hl.
      destruct (rmapM (fun name => percent fmt [name]) ms) as [ls|];
        [|discriminate].
      inversion Hl; subst lines. constructor; [|now apply IH].
      eapply no_hash_percent; [exact El | exact Hfmt | now constructor]. }
  destruct (rmapM (fun name => percent fmt [name]) imports) as [lines|];
    [|discriminate].
  inversion Hs; subst s. apply no_hash_join; [reflexivity | now apply Hlines].
Qed.

Lemma no_hash_munge text : no_hash text -> no_hash (Textwrap._munge_whitespace text).
Proof.
  unfold Textwrap._munge_whitespace, expandtabs. generalize 0 as col.
  induction text as [|c r IH]; intros col Hr; [reflexivity|].
  apply no_hash_inv in Hr. destruct Hr as [Hc Hr].
  cbn [expandtabs_from].
  destruct (Ascii.eqb c TAB).
  - rewrite map_app. apply no_hash_app; [|now apply IH].
    apply contains_false_iff, List.Forall_forall. intros d Hd.
    apply List.in_map_iff in Hd. destruct Hd as (e & <- & He).
    apply repeat_spec in He. subst e. discriminate.
  - assert (Hf : (if Textwrap.is_whitespace c then " "%char else c)
                 <> "#"%char).
    { destruct (Textwrap.is_whitespace c); [discriminate | exact Hc]. }
    destruct (Ascii.eqb c LF || Ascii.eqb c CR); cbn [map];
      (apply no_hash_cons; [exact Hf | now apply IH]).
Qed.

Lemma no_hash_concat parts : Forall no_hash parts -> no_hash (concat parts).
Proof.
  induction 1 as [|p ps Hp _ IH]; [reflexivity|].
  cbn [concat]. now apply no_hash_app.
Qed.

Lemma no_hash_wrap text width si :
  no_hash text -> no_hash si -> Forall no_hash (Textwrap.wrap text width si).
Proof.
  intros Htext Hsi. unfold Textwrap.wrap.
  assert (Hinv :
    Forall no_hash (Textwrap._wrap_chunks width [] si []
                      (Textwrap._split (Textwrap._munge_whitespace text)))
    /\ Forall no_hash []).
  { apply (TextwrapFacts._wrap_chunks_invariant
             (fun lines chunks => Forall no_hash lines /\ Forall no_hash chunks)).
    - intros lines chunk rest [Hl Hc].
      destruct (TextwrapFacts.wrap_line_spec width [] si lines (chunk :: rest))
        as (leading & cur & trailing & Hchunks & _ & _ & Hout & _).
      cbv zeta in Hout. rewrite Hout. rewrite Hchunks in Hc.
      apply Forall_app in Hc. destruct Hc as [_ Hc].
      apply Forall_app in Hc. destruct Hc as [Hcur Hc].
      apply Forall_app in Hc. destruct Hc as [_ Hrest].
      split; [|exact Hrest].
      destruct cur as [|c0 cur0]; [exact Hl|].
      apply Forall_app. split; [exact Hl|]. constructor; [|constructor].
      apply no_hash_app; [destruct lines; [reflexivity | exact Hsi]|].
      now apply no_hash_concat.
    - split; [constructor|].
      apply contains_concat. rewrite TextwrapFacts.concat_split.
      now apply no_hash_munge. }
  apply Hinv.
Qed.

Lemma no_hash__pack_fromimport rootmodname tup :
  no_hash rootmodname -> no_hash tup.1 -> Forall no_hash tup.2 ->
  no_hash (_pack_fromimport rootmodname tup).
Proof.
  intros Hroot Hname Hlist. unfold _pack_fromimport.
  apply no_hash_join; [reflexivity|]. apply no_hash_wrap.
  - destruct (0 <? length tup.2); [|reflexivity].
    apply no_hash_app.
    + repeat (apply no_hash_app; [first [reflexivity | assumption]|]).
      reflexivity.
    + apply no_hash_app; [|reflexivity].
      apply no_hash_join; [reflexivity | exact Hlist].
  - unfold times. apply contains_false_iff, List.Forall_forall.
    intros c Hc. apply repeat_spec in Hc. subst c. discriminate.
Qed.

Lemma no_hash__initstr modname imports from_imports initstr :
  _initstr modname imports from_imports false = Ok initstr ->
  no_hash_plan (modname, imports, from_imports) ->
  no_hash initstr.
Proof.
  unfold _initstr, no_hash_plan. cbn [fst snd].
  intros Hinit (Hname & Himports & Hfrom).
  destruct (_make_imports_str imports modname) as [import_str|] eqn:Ei;
    [|discriminate].
  assert (Hparts : Forall no_hash
                     [[]; import_str; _make_fromimport_str from_imports modname]).
  { constructor; [reflexivity|]. constructor.
    - eapply no_hash__make_imports_str; eassumption.
    - constructor; [|constructor]. unfold _make_fromimport_str.
      apply no_hash_join; [reflexivity|].
      apply List.Forall_forall. intros stmt Hstmt.
      apply List.in_map_iff in Hstmt. destruct Hstmt as (tup & <- & Htup).
      rewrite List.Forall_forall in Hfrom. destruct (Hfrom tup Htup).
      apply no_hash__pack_fromimport; [|assumption..].
      destruct (bool_decide _); [reflexivity | exact Hname]. }
  assert (Hfilter : Forall no_hash
                      (List.filter (fun str_ : str => 0 <? length str_)
                         [[]; import_str;
                          _make_fromimport_str from_imports modname])).
  { apply List.Forall_forall. intros part Hpart.
    apply List.filter_In in Hpart. destruct Hpart as [Hpart _].
    rewrite List.Forall_forall in Hparts. now apply Hparts. }
  cbn [rbind] in Hinit. injection Hinit as <-.
  apply no_hash_join; [reflexivity | exact Hfilter].
Qed.

(** *** Running [autogen_init] twice *)

Section Twice.
Context {static : StaticAnalysis}.

Lemma autogen_init_unfold modpath_or_name imports dry w :
  autogen_init modpath_or_name imports dry w
  = match root_path w modpath_or_name with
    | None => (Raise (ValueError (py"Invalid module " ++ modpath_or_name)), w)
    | Some modpath =>
        match _static_parse_imports modpath imports w with
        | (Raise e, w') => (Raise e, w')
        | (Ok (modname, imports, from_imports), w') =>
            match _initstr modname imports from_imports false with
            | Raise e => (Raise e, w')
            | Ok initstr =>
                if dry then (Ok tt, w')
                else _autogen_init_write modpath initstr w'
            end
        end
    end.
Proof.
  unfold autogen_init, root_path, bind, path_exists, ret, raise, lift.
  destruct (bool_decide (modpath_or_name ∈ dirs w)
            || bool_decide (is_Some (files w !! modpath_or_name))).
  - destruct (_static_parse_imports modpath_or_name imports w)
      as [[[[modname imps] fis]|e] w']; [|reflexivity].
    destruct (_initstr modname imps fis false); [|reflexivity].
    destruct dry; reflexivity.
  - destruct (modname_to_modpath modpath_or_name) as [modpath|]; [|reflexivity].
    destruct (_static_parse_imports modpath imports w)
      as [[[[modname imps] fis]|e] w']; [|reflexivity].
    destruct (_initstr modname imps fis false); [|reflexivity].
    destruct dry; reflexivity.
Qed.

(** The plan depends on the files of the submodules only. *)
Lemma forM_parse_ext entries : forall w1 w2,
  Forall (fun entry =>
            forall p, entry.1 = Some p -> files w2 !! p = files w1 !! p)
         entries ->
  (forM entries parse_submodule w2).1 = (forM entries parse_submodule w1).1.
Proof.
  induction entries as [|entry rest IH]; intros w1 w2 Hext; [reflexivity|].
  inversion Hext as [|? ? Hone Hrest]; subst.
  rewrite !forM_cons.
  assert (Hstep :
    match parse_submodule entry w2, parse_submodule entry w1 with
    | (Ok fi2, w2'), (Ok fi1, w1') =>
        fi2 = fi1 /\ files w2' = files w2 /\ files w1' = files w1
    | (Raise e2, _), (Raise e1, _) => e2 = e1
    | _, _ => False
    end).
  { destruct entry as [[p|] rel];
      unfold parse_submodule, bind, read_file, lift, ret; [|reflexivity].
    rewrite (Hone p eq_refl).
    destruct (files w1 !! p) as [text|]; [|reflexivity].
    destruct (calldefs text); cbn; auto. }
  destruct (parse_submodule entry w2) as [[fi2|e2] w2'],
           (parse_submodule entry w1) as [[fi1|e1] w1'];
    try contradiction; cbn [fst]; [|now subst].
  destruct Hstep as (-> & Hf2 & Hf1).
  specialize (IH w1' w2').
  assert (Hext' : Forall (fun entry =>
                            forall p, entry.1 = Some p ->
                                      files w2' !! p = files w1' !! p) rest).
  { eapply Forall_impl; [exact Hrest|]. intros e He p Hp.
    rewrite Hf2, Hf1. now apply He. }
  specialize (IH Hext').
  destruct (forM rest parse_submodule w2') as [[fis2|e2] w2''],
           (forM rest parse_submodule w1') as [[fis1|e1] w1''];
    cbn [fst] in *; congruence.
Qed.

Lemma Forall_zip_fst {A B} (P : A -> Prop) (xs : list A) : forall ys : list B,
  Forall P xs -> Forall (fun entry => P entry.1) (zip xs ys).
Proof.
  induction xs as [|x xs IH]; intros ys Hxs; [constructor|].
  destruct ys as [|y ys]; [constructor|].
  inversion Hxs; subst. constructor; [assumption | now apply IH].
Qed.

Lemma _static_parse_imports_ext modpath imports w1 w2 :
  Forall (fun path => forall p, path = Some p -> files w2 !! p = files w1 !! p)
         (submodule_paths modpath imports) ->
  (_static_parse_imports modpath imports w2).1
  = (_static_parse_imports modpath imports w1).1.
Proof.
  intros Hext.
  destruct (_static_parse_imports modpath imports w1) as [res1 w1'] eqn:E1.
  destruct (_static_parse_imports modpath imports w2) as [res2 w2'] eqn:E2.
  destruct (_static_parse_imports_run _ _ _ _ _ E1) as (r1 & Hr1 & ->).
  destruct (_static_parse_imports_run _ _ _ _ _ E2) as (r2 & Hr2 & ->).
  cbn [fst]. f_equal.
  change r2 with (r2, w2').1. change r1 with (r1, w1').1.
  rewrite <- Hr1, <- Hr2. apply forM_parse_ext.
  unfold submodule_paths in Hext.
  destruct imports as [l|]; cbn [fst snd];
    now apply (Forall_zip_fst
                 (fun path => forall p, path = Some p ->
                                        files w2 !! p = files w1 !! p)).
Qed.

Lemma _static_parse_imports_files modpath imports w res w' :
  _static_parse_imports modpath imports w = (res, w') ->
  dirs w' = dirs w /\ files w' = files w.
Proof.
  intros Hrun.
  destruct (_static_parse_imports_run _ _ _ _ _ Hrun) as (r1 & Hr1 & _).
  destruct (forM_parse_run _ _ _ _ Hr1) as (Hd & Hf & _). auto.
Qed.

Lemma _autogen_init_write_run modpath initstr w text out :
  files w !! os_path_join modpath (py"__init__.py") = Some text ->
  new_text (readlines text) initstr = Ok out ->
  _autogen_init_write modpath initstr w
  = (Ok tt,
     mkWorld (dirs w)
             (<[os_path_join modpath (py"__init__.py") := out]> (files w))
             (opened w ++ [os_path_join modpath (py"__init__.py")])).
Proof.
  intros Hfile Hnew.
  unfold _autogen_init_write, bind, path_exists, read_file, lift, write_file,
    raise.
  rewrite Hfile.
  rewrite (bool_decide_eq_true_2 (is_Some (Some text))) by eauto.
  rewrite orb_true_r. cbn [negb files dirs opened]. cbv zeta.
  rewrite Hfile, Hnew. reflexivity.
Qed.

Lemma root_path_rewritten w w1 path text out modpath_or_name :
  files w !! path = Some text ->
  dirs w1 = dirs w -> files w1 = <[path := out]> (files w) ->
  root_path w1 modpath_or_name = root_path w modpath_or_name.
Proof.
  intros Hfile Hd Hf. unfold root_path. rewrite Hd, Hf.
  destruct (decide (modpath_or_name = path)) as [->|Hne].
  - rewrite lookup_insert_eq, Hfile.
    rewrite !(bool_decide_eq_true_2 (is_Some (Some _))) by eauto.
    reflexivity.
  - now rewrite lookup_insert_ne by congruence.
Qed.

(** C8.  On a package whose init file has a begin tag and, after it, an
    end tag, whose module and callable names have no [#], and whose init
    file is not itself one of the submodules read: when [autogen_init]
    has rewritten the init file, running it again with the same arguments
    ends well and leaves every file as the first run left it; the init
    file is byte for byte the same, so import lines never pile up between
    the tags. *)
Theorem autogen_init_twice (modpath_or_name : str)
    (imports : option (list str)) (modpath text : str) (w w1 : World) :
  let init_fpath := os_path_join modpath (py"__init__.py") in
  root_path w modpath_or_name = Some modpath ->
  files w !! init_fpath = Some text ->
  explicit (find_region (readlines text)) = true ->
  endline (find_region (readlines text)) < length (readlines text) ->
  (forall plan w',
     _static_parse_imports modpath imports w = (Ok plan, w') ->
     no_hash_plan plan) ->
  Some init_fpath ∉ submodule_paths modpath imports ->
  autogen_init modpath_or_name imports false w = (Ok tt, w1) ->
  exists w2,
    autogen_init modpath_or_name imports false w1 = (Ok tt, w2)
    /\ files w2 = files w1 /\ dirs w2 = dirs w1
    /\ exists out, files w1 !! init_fpath = Some out
                   /\ files w2 !! init_fpath = Some out.
Proof.
  intros init_fpath Hroot Hfile Hx Hend Hnames Hnotsub Hrun.
  rewrite autogen_init_unfold, Hroot in Hrun.
  destruct (_static_parse_imports modpath imports w)
    as [[[[modname imps] fis]|e] wa] eqn:Eplan; [|discriminate].
  destruct (_initstr modname imps fis false) as [initstr|e] eqn:Einit;
    [|discriminate].
  destruct (_static_parse_imports_files _ _ _ _ _ Eplan) as [Hda Hfa].
  destruct (_autogen_init_write_ok _ _ _ _ Hrun)
    as (text' & out & Hfile' & Hnew & Hw1).
  fold init_fpath in Hfile', Hw1. rewrite Hfa, Hfile in Hfile'.
  injection Hfile' as <-.
  assert (Hd1 : dirs w1 = dirs w) by (subst w1; exact Hda).
  assert (Hf1 : files w1 = <[init_fpath := out]> (files w))
    by (subst w1; cbn [files]; now rewrite Hfa).
  assert (Hout1 : files w1 !! init_fpath = Some out)
    by (rewrite Hf1; apply lookup_insert_eq).
  assert (Hhash : no_hash initstr).
  { eapply no_hash__initstr; [exact Einit|]. eapply Hnames. reflexivity. }
  assert (Hfix : new_text (readlines out) initstr = Ok out)
    by (now apply new_text_fixed_point with (text := text)).
  (* the second run *)
  rewrite autogen_init_unfold.
  rewrite (root_path_rewritten w w1 init_fpath text out) by assumption.
  rewrite Hroot.
  assert (Hplan : (_static_parse_imports modpath imports w1).1
                  = Ok (modname, imps, fis)).
  { rewrite (_static_parse_imports_ext modpath imports w w1).
    - now rewrite Eplan.
    - apply List.Forall_forall. intros path Hin p ->.
      rewrite Hf1. apply lookup_insert_ne. intros <-.
      apply Hnotsub. now apply list_elem_of_In. }
  destruct (_static_parse_imports modpath imports w1) as [res wb] eqn:Eplan1.
  cbn [fst] in Hplan. subst res.
  destruct (_static_parse_imports_files _ _ _ _ _ Eplan1) as [Hdb Hfb].
  rewrite Einit.
  assert (Hfileb : files wb !! os_path_join modpath (py"__init__.py")
                   = Some out) by (rewrite Hfb; exact Hout1).
  rewrite (_autogen_init_write_run modpath initstr wb out out Hfileb Hfix).
  eexists. split; [reflexivity|]. cbn [files dirs]. fold init_fpath.
  assert (Hsame : <[init_fpath := out]> (files wb) = files w1).
  { rewrite Hfb. now apply insert_id. }
  rewrite Hsame. repeat split; [exact Hdb|].
  exists out. auto.
Qed.

End Twice.

Lemma autogen_init_twice_witness :
  let w1 := (autogen_init (static := Pkg.static) (py"pkg") None false
               Pkg.world).2 in
  exists w2,
    autogen_init (static := Pkg.static) (py"pkg") None false w1 = (Ok tt, w2)
    /\ files w2 = files w1.
Proof.
  intros w1.
  destruct (autogen_init_twice (static := Pkg.static) (py"pkg") None
              (py"pkg") Pkg.init_py Pkg.world w1)
    as (w2 & Hrun & Hfiles & _).
  - vm_compute. reflexivity.
  - vm_compute. reflexivity.
  - vm_compute. reflexivity.
  - apply Nat.ltb_lt. vm_compute. reflexivity.
  - intros plan w' Hplan.
    assert (Hp : (_static_parse_imports (static := Pkg.static) (py"pkg") None
                    Pkg.world).1
                 = Ok (py"pkg", [py"a"; py"b"],
                       [(py"a", [py"foo"]); (py"b", [])]))
      by (vm_compute; reflexivity).
    rewrite Hplan in Hp. cbn [fst] in Hp. injection Hp as ->.
    unfold no_hash_plan. cbn [fst snd].
    repeat split; repeat constructor.
  - apply (bool_decide_eq_false_1 _). vm_compute. reflexivity.
  - subst w1.
    assert (Hr : (autogen_init (static := Pkg.static) (py"pkg") None false
                    Pkg.world).1 = Ok tt) by (vm_compute; reflexivity).
    destruct (autogen_init (py"pkg") None false Pkg.world) as [res wx].
    cbn [fst snd] in *. now subst res.
  - exists w2. split; [exact Hrun | exact Hfiles].
Defined.

(** * Further properties *)

(** ** [_indent] *)

Lemma split_on_nonnil sep s : split_on sep s <> [].
Proof.
  destruct s as [|c s]; [discriminate|]. cbn [split_on].
  destruct (Ascii.eqb c sep); [discriminate|].
  destruct (split_on sep s); discriminate.
Qed.

Lemma split_on_LF_free a :
  contains LF a = false -> split_on LF a = [a].
Proof.
  induction a as [|c a IH]; [reflexivity|].
  unfold contains. cbn [existsb split_on]. rewrite Ascii.eqb_sym.
  intros H. apply orb_false_iff in H. destruct H as [Hc Ha].
  rewrite Hc, (IH Ha). reflexivity.
Qed.

Lemma split_on_app_LF_free a s :
  contains LF a = false ->
  split_on LF (a ++ s)
  = match split_on LF s with
    | l :: ls => (a ++ l) :: ls
    | [] => [a]
    end.
Proof.
  induction a as [|c a IH]; intros H.
  - cbn [app]. pose proof (split_on_nonnil LF s).
    destruct (split_on LF s); [contradiction | reflexivity].
  - unfold contains in H. cbn [existsb] in H. rewrite Ascii.eqb_sym in H.
    apply orb_false_iff in H. destruct H as [Hc Ha].
    cbn [app split_on]. rewrite Hc, (IH Ha).
    pose proof (split_on_nonnil LF s).
    destruct (split_on LF s); [contradiction | reflexivity].
Qed.

Lemma replace_lines indent str_ : forall a,
  contains LF a = false -> contains LF indent = false ->
  split_on LF (a ++ replace str_ LF (LF :: indent))
  = match split_on LF str_ with
    | l :: ls => (a ++ l) :: map (app indent) ls
    | [] => []
    end.
Proof.
  induction str_ as [|c r IH]; intros a Ha Hind.
  - cbn [replace flat_map split_on]. rewrite app_nil_r.
    now apply split_on_LF_free.
  - unfold replace in *. cbn [flat_map split_on].
    destruct (Ascii.eqb_spec c LF) as [->|Hc].
    + rewrite split_on_app_LF_free by exact Ha.
      cbn [app split_on]. rewrite Ascii.eqb_refl.
      rewrite (IH indent Hind Hind), app_nil_r.
      pose proof (split_on_nonnil LF r).
      destruct (split_on LF r) as [|l ls]; [contradiction | reflexivity].
    + cbn [app]. replace (a ++ c :: flat_map _ r)
        with ((a ++ [c]) ++ flat_map
                (fun c0 => if Ascii.eqb c0 LF then LF :: indent else [c0]) r)
        by (now rewrite <- app_assoc).
      rewrite IH; [| |exact Hind].
      * pose proof (split_on_nonnil LF r).
        destruct (split_on LF r) as [|l ls]; [contradiction|].
        now rewrite <- app_assoc.
      * rewrite contains_app, Ha. unfold contains. cbn [existsb].
        rewrite Ascii.eqb_sym.
        destruct (Ascii.eqb_spec c LF); [contradiction | reflexivity].
Qed.

(** X1.  [_indent] puts the indentation before every line of the text, the
    empty lines and the last line included: for an indentation without a
    newline, the lines of the result are the lines of the text, each with
    the indentation before it, so their number does not change. *)
Theorem _indent_lines (str_ indent : str) :
  contains LF indent = false ->
  split_on LF (_indent str_ indent) = map (app indent) (split_on LF str_)
  /\ length (split_on LF (_indent str_ indent)) = length (split_on LF str_).
Proof.
  intros Hind.
  assert (Heq : split_on LF (_indent str_ indent)
                = map (app indent) (split_on LF str_)).
  { unfold _indent. rewrite replace_lines by assumption.
    destruct (split_on LF str_); reflexivity. }
  split; [exact Heq|]. now rewrite Heq, length_map.
Qed.

Lemma _indent_lines_witness :
  split_on LF (_indent (py"a" ++ [LF] ++ [LF] ++ py"b") (py"  "))
  = [py"  a"; py"  "; py"  b"].
Proof.
  destruct (_indent_lines (py"a" ++ [LF] ++ [LF] ++ py"b") (py"  ")) as [H _].
  - reflexivity.
  - rewrite H. reflexivity.
Defined.

(** ** The region, by the lines of the file *)

(** Without a begin tag the scan only moves the start line, to just past
    the last marker line. *)
Lemma scan_heuristic_inv E0 lines :
  Forall (fun l => is_begin l = false) lines ->
  let r := scan_lines 0 lines (mkRegion 0 E0 false []) in
  explicit r = false /\ endline r = E0 /\ init_indent r = []
  /\ ((startline r = 0 /\ Forall (fun l => is_marker l = false) lines)
      \/ exists k l,
           startline r = S k /\ lines !! k = Some l /\ is_marker l = true
           /\ Forall (fun l => is_marker l = false) (drop (S k) lines)).
Proof.
  induction lines as [|line lines IH] using rev_ind; intros Hall r.
  - repeat split; try reflexivity. left. split; [reflexivity | constructor].
  - apply Forall_app in Hall. destruct Hall as [Hall Hline].
    inversion Hline as [|? ? Hb _]; subst.
    destruct (IH Hall) as (Hx & He & Hi & Hs). clear IH.
    subst r. rewrite scan_lines_snoc. cbn [Nat.add].
    set (r := scan_lines 0 lines (mkRegion 0 E0 false [])) in *.
    rewrite (scan_line_heuristic_eq _ _ _ Hx Hb). fold (is_marker line).
    cbn [set_startline explicit endline init_indent startline].
    repeat split; try assumption.
    destruct (is_marker line) eqn:Em.
    + right. exists (length lines), line. repeat split.
      * lia.
      * apply list_lookup_middle. reflexivity.
      * exact Em.
      * rewrite drop_ge by (rewrite length_app; simpl; lia). constructor.
    + destruct Hs as [[Hs Hno]|(k & l & Hs & Hl & Hm & Hno)].
      * left. split; [exact Hs|]. apply Forall_app. split; [exact Hno|].
        now constructor.
      * right. exists k, l. repeat split; try assumption.
        -- apply lookup_app_l_Some. exact Hl.
        -- apply lookup_lt_Some in Hl.
           rewrite drop_app_le by lia. apply Forall_app.
           split; [exact Hno | now constructor].
Qed.

(** X2.  In a file without a begin tag the region starts just past the
    last line that is a docstring delimiter, a future import or a comment
    (at line 0 when there is none) and runs to the end of the file, the
    block is not indented, and the merge cannot fail: the text written is
    the lines up to that last marker line, then the block and a newline,
    with the white space at the end stripped; what followed the marker
    line is dropped. *)
Theorem heuristic_region (lines : list str) :
  Forall (fun l => is_begin l = false) lines ->
  let r := find_region lines in
  explicit r = false /\ endline r = length lines /\ init_indent r = []
  /\ ((startline r = 0 /\ Forall (fun l => is_marker l = false) lines)
      \/ exists k l,
           startline r = S k /\ lines !! k = Some l /\ is_marker l = true
           /\ Forall (fun l => is_marker l = false) (drop (S k) lines))
  /\ forall initstr,
       new_text lines initstr
       = Ok (rstrip (concat (take (startline r) lines) ++ initstr ++ [LF])).
Proof.
  intros Hall r.
  destruct (scan_heuristic_inv (length lines) lines Hall) as (Hx & He & Hi & Hs).
  fold (find_region lines) in Hx, He, Hi, Hs. fold r in Hx, He, Hi, Hs.
  repeat split; try assumption.
  intros initstr. unfold new_text. fold r. rewrite He, Hi, _indent_empty.
  pose proof (find_region_bounds lines) as [Hle _]. fold r in Hle.
  apply Nat.leb_le in Hle. rewrite Hle, drop_all.
  rewrite !concat_app. cbn [concat]. now rewrite !app_nil_r.
Qed.

Lemma heuristic_region_witness :
  new_text [py"# a comment" ++ [LF]; py"import old" ++ [LF]] (py"import new")
  = Ok (py"# a comment" ++ [LF] ++ py"import new").
Proof.
  pose proof (heuristic_region
                [py"# a comment" ++ [LF]; py"import old" ++ [LF]]) as H.
  destruct H as (_ & _ & _ & _ & Hnew).
  - repeat constructor.
  - rewrite Hnew. reflexivity.
Defined.

Lemma find_app_skip ws c rest :
  Forall (fun d => d <> c) ws -> find (ws ++ c :: rest) c = Z.of_nat (length ws).
Proof.
  induction 1 as [|d ws Hd _ IH].
  - cbn [app find length]. now rewrite Ascii.eqb_refl.
  - cbn [app find length]. rewrite IH.
    destruct (Ascii.eqb_spec d c); [contradiction|].
    destruct (Z.ltb_spec (Z.of_nat (length ws)) 0); lia.
Qed.

(** What precedes the [#] of a begin-tag line is its leading white space. *)
Lemma begin_indent lb :
  is_begin lb = true ->
  Forall (fun c => isspace c = true) (slice_to lb (find lb "#"%char))
  /\ lb = slice_to lb (find lb "#"%char) ++ lstrip lb.
Proof.
  intros Hb. destruct (TextwrapFacts.lstrip_suffix lb) as (ws & Hws & Heq).
  unfold is_begin, strip in Hb. apply startswith_take in Hb.
  destruct (rstrip_spec (lstrip lb)) as (ws' & _ & Hr).
  destruct (rstrip (lstrip lb)) as [|c0 rest0]; [discriminate|].
  injection Hb as -> _. rewrite <- Hr in Heq. cbn [app] in Heq.
  assert (Hfind : find lb "#"%char = Z.of_nat (length ws)).
  { rewrite Heq. apply find_app_skip.
    eapply Forall_impl; [exact Hws|]. intros d Hd ->. discriminate. }
  assert (Hslice : slice_to lb (find lb "#"%char) = ws).
  { rewrite Hfind. unfold slice_to.
    destruct (Z.ltb_spec (Z.of_nat (length ws)) 0); [lia|].
    rewrite Nat2Z.id. rewrite Heq at 1. now rewrite take_app_length. }
  rewrite Hslice. split; [exact Hws|].
  rewrite <- Hr. cbn [app]. exact Heq.
Qed.

(** The indentation of a begin-tag line is empty exactly when the line
    starts with its [#]. *)
Lemma begin_indent_empty lb :
  is_begin lb = true ->
  slice_to lb (find lb "#"%char) = [] <-> startswith lb (py"#") = true.
Proof.
  intros Hb. destruct (begin_indent lb Hb) as [Hws Heq].
  assert (Hl : exists rest, lstrip lb = "#"%char :: rest).
  { unfold is_begin, strip in Hb. apply startswith_take in Hb.
    destruct (rstrip_spec (lstrip lb)) as (ws' & _ & Hr).
    destruct (rstrip (lstrip lb)) as [|c0 rest0]; [discriminate|].
    injection Hb as -> _. rewrite <- Hr. eexists; reflexivity. }
  destruct Hl as (rest & Hl).
  destruct (slice_to lb (find lb "#"%char)) as [|c ind].
  - split; [intros _ | reflexivity].
    cbn [app] in Heq. rewrite Heq, Hl. reflexivity.
  - split; [discriminate|]. intros Hs. exfalso.
    rewrite Heq in Hs. cbn [app startswith] in Hs.
    apply andb_true_iff in Hs. destruct Hs as [Hc _].
    apply Ascii.eqb_eq in Hc. inversion Hws as [|? ? Hsp _]; subst.
    discriminate.
Qed.

Lemma scan_indent_heuristic E0 lines :
  let r := scan_lines 0 lines (mkRegion 0 E0 false []) in
  explicit r = false -> init_indent r = [].
Proof.
  induction lines as [|line lines IH] using rev_ind; intros r; [reflexivity|].
  subst r. rewrite scan_lines_snoc. cbn [Nat.add].
  set (r := scan_lines 0 lines (mkRegion 0 E0 false [])) in *.
  destruct (scan_line_cases (length lines) line r)
    as [[_ ->]|[(_ & Hx & _ & ->)|[(_ & Hx & _ & ->)|(_ & Hx & s & ->)]]];
    cbn [explicit init_indent set_endline set_startline]; intros H;
    try congruence.
  now apply IH.
Qed.

Lemma scan_explicit_of_begin lines : forall n r l,
  In l lines -> is_begin l = true -> explicit (scan_lines n lines r) = true.
Proof.
  induction lines as [|line lines IH]; intros n r l Hin Hb; [contradiction|].
  cbn [scan_lines]. destruct Hin as [->|Hin].
  - apply scan_lines_explicit_mono. now rewrite (scan_line_begin _ _ _ Hb).
  - now apply (IH _ _ l).
Qed.

(** X3.  The indentation of the block is white space only.  No begin tag
    was seen ([explicit] is false) exactly when no line carries the begin
    tag, and then the indentation is empty.  When a line carries the begin
    tag, the indentation is what stands before the [#] of the last such
    line, that is, the leading white space of that line: it is empty
    exactly when that line starts with its [#], so an empty indentation
    does not tell that there is no begin tag. *)
Theorem init_indent_is_leading_space (lines : list str) :
  let r := find_region lines in
  Forall (fun c => isspace c = true) (init_indent r)
  /\ (explicit r = false <-> Forall (fun l => is_begin l = false) lines)
  /\ (explicit r = false -> init_indent r = [])
  /\ (explicit r = true ->
      exists b lb,
        startline r = S b /\ lines !! b = Some lb /\ is_begin lb = true
        /\ Forall (fun l => is_begin l = false) (drop (S b) lines)
        /\ lb = init_indent r ++ lstrip lb
        /\ (init_indent r = [] <-> startswith lb (py"#") = true)).
Proof.
  intros r.
  assert (Hexp : explicit r = true ->
                 exists b lb,
                   startline r = S b /\ lines !! b = Some lb
                   /\ is_begin lb = true
                   /\ Forall (fun l => is_begin l = false) (drop (S b) lines)
                   /\ lb = init_indent r ++ lstrip lb
                   /\ (init_indent r = [] <-> startswith lb (py"#") = true)
                   /\ Forall (fun c => isspace c = true) (init_indent r)).
  { intros Hx.
    destruct (scan_explicit_inv (length lines) lines Hx)
      as (b & lb & Hs & Hlb & Hb & Hind & Hno & _).
    fold (find_region lines) in Hs, Hind. fold r in Hs, Hind.
    destruct (begin_indent lb Hb) as [Hws Heq].
    pose proof (begin_indent_empty lb Hb) as Hempty.
    exists b, lb. rewrite Hind. repeat split; try assumption; apply Hempty. }
  assert (Hheur : explicit r = false -> init_indent r = [])
    by apply scan_indent_heuristic.
  split; [|split; [|split]].
  - destruct (explicit r) eqn:Hx.
    + destruct (Hexp eq_refl) as (b & lb & _ & _ & _ & _ & _ & _ & Hws).
      exact Hws.
    + rewrite Hheur by reflexivity. constructor.
  - split.
    + intros Hx. apply List.Forall_forall. intros l Hl.
      destruct (is_begin l) eqn:Hb; [|reflexivity].
      subst r. unfold find_region in Hx.
      now rewrite (scan_explicit_of_begin lines _ _ l Hl Hb) in Hx.
    + intros Hall.
      now destruct (scan_heuristic_inv (length lines) lines Hall) as (Hx & _).
  - exact Hheur.
  - intros Hx.
    destruct (Hexp Hx) as (b & lb & H1 & H2 & H3 & H4 & H5 & H6 & _).
    exists b, lb. repeat split; try assumption; apply H6.
Qed.

(** An end line is set only after a begin tag. *)
Lemma scan_endline_after_begin E0 lines :
  let r := scan_lines 0 lines (mkRegion 0 E0 false []) in
  endline r = E0
  \/ exists b0 lb0, b0 < endline r /\ lines !! b0 = Some lb0
                    /\ is_begin lb0 = true.
Proof.
  induction lines as [|line lines IH] using rev_ind; intros r;
    [now left|].
  subst r. rewrite scan_lines_snoc. cbn [Nat.add].
  pose proof (scan_explicit_inv E0 lines) as Hinv. cbv zeta in Hinv, IH.
  set (r := scan_lines 0 lines (mkRegion 0 E0 false [])) in *.
  assert (Hkeep : endline r = E0
                  \/ exists b0 lb0, b0 < endline r
                                    /\ (lines ++ [line]) !! b0 = Some lb0
                                    /\ is_begin lb0 = true).
  { destruct IH as [IH|(b0 & lb0 & H1 & H2 & H3)]; [now left|].
    right. exists b0, lb0. repeat split; try assumption.
    now apply lookup_app_l_Some. }
  destruct (scan_line_cases (length lines) line r)
    as [[_ ->]|[(_ & Hx & _ & ->)|[(_ & Hx & _ & ->)|(_ & Hx & s & ->)]]];
    cbn [endline set_endline set_startline]; try exact Hkeep.
  right. destruct (Hinv Hx) as (b & lb & _ & Hlb & Hb & _).
  exists b, lb. repeat split.
  - now apply lookup_lt_Some in Hlb.
  - now apply lookup_app_l_Some.
  - exact Hb.
Qed.

(** X4.  The merge fails, with the [AssertionError] of
    [assert startline <= endline] and with no other exception, exactly on
    a file where an end tag that follows a begin tag is itself followed by
    a begin tag, with no end tag after that last one. *)
Theorem merge_fails_iff (lines : list str) (initstr : str) :
  (forall e, new_text lines initstr = Raise e -> e = AssertionError)
  /\ (new_text lines initstr = Raise AssertionError
      <-> exists b0 e b lb0 le lb,
            b0 < e < b
            /\ lines !! b0 = Some lb0 /\ is_begin lb0 = true
            /\ lines !! e = Some le /\ is_end le = true
            /\ lines !! b = Some lb /\ is_begin lb = true
            /\ Forall (fun l => is_end l = false) (drop (S b) lines)).
Proof.
  set (r := find_region lines).
  assert (Hfail : forall e, new_text lines initstr = Raise e ->
                            e = AssertionError /\ endline r < startline r).
  { intros e. unfold new_text. fold r.
    destruct (Nat.leb_spec (startline r) (endline r)); [discriminate|].
    intros [= <-]. split; [reflexivity | lia]. }
  assert (Hs : startline r <= length lines) by apply find_region_bounds.
  assert (Hendinv : endline r = length lines
                    \/ (explicit r = true
                        /\ exists le, lines !! endline r = Some le
                                      /\ is_end le = true
                                      /\ Forall (fun l => is_end l = false)
                                                (drop (S (endline r)) lines)))
    by apply (scan_endline_inv (length lines) lines).
  assert (Hafter : endline r = length lines
                   \/ exists b0 lb0, b0 < endline r /\ lines !! b0 = Some lb0
                                     /\ is_begin lb0 = true)
    by apply (scan_endline_after_begin (length lines) lines).
  assert (Hexpinv : explicit r = true ->
                    exists b lb,
                      startline r = S b /\ lines !! b = Some lb
                      /\ is_begin lb = true
                      /\ Forall (fun l => is_begin l = false)
                                (drop (S b) lines)).
  { intros Hx. destruct (scan_explicit_inv (length lines) lines Hx)
      as (b & lb & H1 & H2 & H3 & _ & H5 & _).
    exists b, lb. repeat split; assumption. }
  split; [intros e He; now destruct (Hfail e He)|]. split.
  - intros Hnew. destruct (Hfail _ Hnew) as [_ Hlt].
    destruct Hendinv as [He|(Hx & le & Hle & Hend & Hnoend)]; [lia|].
    destruct Hafter as [He|(b0 & lb0 & Hb0 & Hlb0 & Hbegin0)]; [lia|].
    destruct (Hexpinv Hx) as (b & lb & Hst & Hlb & Hb & _).
    assert (Hne : endline r <> b).
    { intros Heq. rewrite Heq, Hlb in Hle. injection Hle as <-.
      apply begin_not_end in Hb. congruence. }
    exists b0, (endline r), b, lb0, le, lb.
    repeat split; try assumption; try lia.
    replace (drop (S b) lines)
      with (drop (S b - S (endline r)) (drop (S (endline r)) lines))
      by (rewrite drop_drop; f_equal; lia).
    now apply Forall_drop.
  - intros (b0 & e & b & lb0 & le & lb & Horder & Hlb0 & Hbegin0 & Hle & Hend
            & Hlb & Hb & Hnoend).
    assert (Hx : explicit r = true).
    { apply (scan_explicit_of_begin lines _ _ lb); [|exact Hb].
      apply list_elem_of_In, list_elem_of_lookup. now exists b. }
    destruct (Hexpinv Hx) as (b' & lb' & Hst & Hlb' & _ & Hnobegin).
    assert (Hbb : b <= b').
    { destruct (le_lt_dec b b') as [|Hgt]; [assumption|].
      rewrite List.Forall_forall in Hnobegin.
      assert (Hin : In lb (drop (S b') lines)).
      { apply list_elem_of_In, list_elem_of_lookup. exists (b - S b').
        rewrite lookup_drop. rewrite <- Hlb. f_equal. lia. }
      apply Hnobegin in Hin. congruence. }
    assert (Hend_lt : endline r < length lines).
    { assert (Hmid : endline (scan_lines 0 (take (S e) lines)
                                (mkRegion 0 (length lines) false [])) = e).
      { rewrite (take_S_r _ _ _ Hle), scan_lines_snoc.
        rewrite scan_line_explicit_end; [| |exact Hend].
        - cbn [endline set_endline Nat.add]. rewrite length_take.
          apply lookup_lt_Some in Hle. lia.
        - apply (scan_explicit_of_begin _ _ _ lb0); [|exact Hbegin0].
          apply list_elem_of_In, list_elem_of_lookup. exists b0.
          apply lookup_take_Some. split; [exact Hlb0 | lia]. }
      pose proof (scan_lines_endline_range (drop (S e) lines)
                    (0 + length (take (S e) lines))
                    (scan_lines 0 (take (S e) lines)
                       (mkRegion 0 (length lines) false []))) as Hrange.
      rewrite <- scan_lines_app, take_drop in Hrange.
      change (scan_lines 0 lines (mkRegion 0 (length lines) false []))
        with r in Hrange.
      rewrite Hmid in Hrange. apply lookup_lt_Some in Hle.
      rewrite length_take, length_drop in Hrange. lia. }
    destruct Hendinv as [He|(_ & le' & Hle' & Hend' & _)]; [lia|].
    assert (Heb : endline r <= b).
    { destruct (le_lt_dec (endline r) b) as [|Hgt]; [assumption|].
      rewrite List.Forall_forall in Hnoend.
      assert (Hin : In le' (drop (S b) lines)).
      { apply list_elem_of_In, list_elem_of_lookup.
        exists (endline r - S b).
        rewrite lookup_drop. rewrite <- Hle'. f_equal. lia. }
      apply Hnoend in Hin. congruence. }
    unfold new_text. fold r.
    destruct (Nat.leb_spec (startline r) (endline r)); [lia | reflexivity].
Qed.

(** Without an end tag the end line stays at the end of the file. *)
Lemma endline_open lines :
  Forall (fun l => is_end l = false) lines ->
  endline (find_region lines) = length lines.
Proof.
  intros Hall.
  destruct (scan_endline_inv (length lines) lines)
    as [He|(_ & le & Hle & Hend & _)]; [exact He|].
  rewrite List.Forall_forall in Hall.
  assert (Hin : In le lines).
  { apply list_elem_of_In, list_elem_of_lookup. eexists. exact Hle. }
  apply Hall in Hin. congruence.
Qed.

Lemma new_text_open lines initstr :
  Forall (fun l => is_end l = false) lines ->
  let r := find_region lines in
  new_text lines initstr
  = Ok (rstrip (concat (take (startline r) lines)
                ++ _indent initstr (init_indent r) ++ [LF])).
Proof.
  intros Hall r. unfold new_text. fold r.
  assert (He : endline r = length lines) by now apply endline_open.
  assert (Hs : startline r <= length lines) by apply find_region_bounds.
  rewrite He. apply Nat.leb_le in Hs. rewrite Hs, drop_all.
  rewrite !concat_app. cbn [concat]. now rewrite !app_nil_r.
Qed.

(** X5.  In a file without an end tag the region runs to the end of the
    file, with or without a begin tag, and the merge cannot fail: the text
    written is the lines before the start line, then the indented block
    and a newline, with the white space at the end stripped; nothing of
    what followed the start line is kept. *)
Theorem no_end_tag_region (lines : list str) (initstr : str) :
  Forall (fun l => is_end l = false) lines ->
  let r := find_region lines in
  endline r = length lines
  /\ startline r <= length lines
  /\ drop (endline r) lines = []
  /\ new_text lines initstr
     = Ok (rstrip (concat (take (startline r) lines)
                   ++ _indent initstr (init_indent r) ++ [LF])).
Proof.
  intros Hall r.
  assert (He : endline r = length lines) by now apply endline_open.
  assert (Hs : startline r <= length lines) by apply find_region_bounds.
  split; [exact He|]. split; [exact Hs|].
  split; [rewrite He; apply drop_all|].
  unfold new_text. fold r. rewrite He.
  apply Nat.leb_le in Hs. rewrite Hs, drop_all.
  rewrite !concat_app. cbn [concat]. now rewrite !app_nil_r.
Qed.

Lemma no_end_tag_region_witness :
  new_text [py"import keep" ++ [LF]; py"  # <AUTOGEN_INIT>" ++ [LF];
            py"import old" ++ [LF]]
           (py"import a" ++ [LF] ++ py"import b")
  = Ok (py"import keep" ++ [LF] ++ py"  # <AUTOGEN_INIT>" ++ [LF]
        ++ py"  import a" ++ [LF] ++ py"  import b").
Proof.
  pose proof (no_end_tag_region
                [py"import keep" ++ [LF]; py"  # <AUTOGEN_INIT>" ++ [LF];
                 py"import old" ++ [LF]]
                (py"import a" ++ [LF] ++ py"import b")) as H.
  destruct H as (_ & _ & _ & Hnew).
  - repeat constructor.
  - rewrite Hnew. reflexivity.
Defined.

(** ** Merging again *)

(** The lines and the region of a merged file, for a region between a begin
    tag and an end tag and a block without [#]. *)
Lemma merged_region text initstr out :
  new_text (readlines text) initstr = Ok out ->
  explicit (find_region (readlines text)) = true ->
  endline (find_region (readlines text)) < length (readlines text) ->
  contains "#"%char initstr = false ->
  let L := readlines text in
  let r := find_region L in
  let B := _indent initstr (init_indent r) ++ [LF] in
  let T := concat (drop (endline r) L) in
  startline r <= endline r
  /\ rstrip T <> []
  /\ out = concat (take (startline r) L) ++ B ++ rstrip T
  /\ readlines out = take (startline r) L ++ readlines B ++ readlines (rstrip T)
  /\ find_region (readlines out)
     = mkRegion (startline r) (startline r + length (readlines B)) true
                (init_indent r).
Proof.
  intros Hnew Hx Hend Hhash L r B T.
  destruct (new_text_frame _ _ _ Hnew) as ([Hse _] & _ & _ & Hout).
  change (startline r <= endline r) in Hse.
  change (rstrip T <> [] -> out = concat (take (startline r) L) ++ B ++ rstrip T)
    in Hout.
  change (explicit r = true) in Hx. change (endline r < length L) in Hend.
  assert (Hexp : exists b lb,
             startline r = S b /\ L !! b = Some lb /\ is_begin lb = true
             /\ init_indent r = slice_to lb (find lb "#"%char)
             /\ Forall (fun l => is_begin l = false) (drop (startline r) L)
             /\ let rb := scan_lines 0 (take (startline r) L)
                            (mkRegion 0 (length L) false []) in
                startline rb = startline r /\ explicit rb = true
                /\ init_indent rb = init_indent r).
  { destruct (scan_explicit_inv (length L) L Hx)
      as (b & lb & Hs & Hlb & Hblb & Hind & Hnobegin & Hrb).
    exists b, lb. cbv zeta in Hrb.
    change (scan_lines 0 L (mkRegion 0 (length L) false [])) with r in *.
    rewrite Hs. repeat split; try assumption; apply Hrb. }
  destruct Hexp as (b & lb & Hs & Hlb & Hblb & Hind & Hnobegin & Hrb).
  assert (Hendinv : exists le,
             L !! endline r = Some le /\ is_end le = true
             /\ Forall (fun l => is_end l = false) (drop (S (endline r)) L)).
  { destruct (scan_endline_inv (length L) L) as [He|(_ & H)]; [|exact H].
    change (scan_lines 0 L (mkRegion 0 (length L) false [])) with r in He.
    lia. }
  destruct Hendinv as (le & Hle & Hele & Hnoend).
  set (s := startline r) in *. set (e := endline r) in *.
  set (ind := init_indent r) in *.
  assert (Hdrop : drop e L = le :: drop (S e) L) by (now apply drop_S).
  assert (HT : rstrip T <> []).
  { unfold T. rewrite Hdrop. cbn [concat]. now apply is_end_not_blank. }
  specialize (Hout HT).
  assert (HL' : readlines out = take s L ++ readlines B ++ readlines (rstrip T)).
  { rewrite Hout. rewrite readlines_concat_complete
      by (apply take_complete; fold L; lia).
    unfold B. now rewrite readlines_app_LF. }
  split; [exact Hse|]. split; [exact HT|]. split; [exact Hout|].
  split; [exact HL'|].
  assert (HB : Forall (fun l => is_begin l = false /\ is_end l = false)
                      (readlines B)).
  { assert (HhB : contains "#"%char B = false).
    { apply _indent_no_hash; [exact Hhash|]. rewrite Hind.
      apply indent_no_hash. }
    rewrite <- (concat_readlines B) in HhB. apply contains_concat in HhB.
    eapply Forall_impl; [exact HhB|]. apply no_hash_not_tag. }
  assert (HT' : exists t0 trest,
             readlines (rstrip T) = t0 :: trest /\ is_end t0 = true
             /\ Forall (fun l => is_begin l = false /\ is_end l = false) trest).
  { pose proof (readlines_rstrip T) as H2.
    assert (HrT : readlines T = le :: drop (S e) L).
    { unfold T, L. rewrite readlines_drop. exact Hdrop. }
    rewrite HrT in H2.
    destruct (readlines (rstrip T)) as [|t0 trest] eqn:Et.
    { apply readlines_nil in Et. contradiction. }
    exists t0, trest. split; [reflexivity|].
    cbn [length take] in H2. inversion H2 as [|? ? ? ? Ht0 Hrest]; subst.
    split.
    - unfold is_end in *. now rewrite (rstrip_strip _ _ Ht0).
    - eapply Forall2_transfer; [|exact Hrest|].
      + intros a c Hac Hc. unfold is_begin, is_end in *.
        rewrite (rstrip_strip _ _ Hac). exact Hc.
      + apply Forall_take. apply Forall_and. split; [|exact Hnoend].
        replace (drop (S e) L) with (drop (S e - s) (drop s L))
          by (rewrite drop_drop; f_equal; lia).
        now apply Forall_drop. }
  destruct HT' as (t0 & trest & Et & Ht0 & Htrest).
  assert (Hs_len : length (take s L) = s) by (rewrite length_take; lia).
  unfold find_region. rewrite HL', Et.
  rewrite scan_lines_app, Hs_len. cbn [Nat.add].
  set (r0' := mkRegion 0 _ false []).
  destruct (scan_lines_endline_irrelevant (take s L) 0 r0'
              (mkRegion 0 (length L) false []) eq_refl eq_refl eq_refl)
    as (H1 & H2 & H3).
  destruct Hrb as (Hrb1 & Hrb2 & Hrb3).
  rewrite Hrb1 in H1. rewrite Hrb2 in H2. rewrite Hrb3 in H3.
  set (rP := scan_lines 0 (take s L) r0') in *.
  rewrite scan_lines_app.
  rewrite (scan_lines_explicit_other s (readlines B) rP H2 HB).
  cbn [scan_lines].
  rewrite scan_line_explicit_end by assumption.
  rewrite scan_lines_explicit_other by (cbn; assumption).
  destruct rP as [s1 e1 x1 i1]. cbn in H1, H2, H3. subst s1 x1 i1.
  reflexivity.
Qed.

(** X6.  The merge forgets the block it replaces: after a block without
    [#] was merged into a file between a begin tag and an end tag, merging
    any other block into the result gives what merging that block into
    the original file gives. *)
Theorem merge_last_write_wins (text initstr1 initstr2 out1 : str) :
  new_text (readlines text) initstr1 = Ok out1 ->
  explicit (find_region (readlines text)) = true ->
  endline (find_region (readlines text)) < length (readlines text) ->
  contains "#"%char initstr1 = false ->
  new_text (readlines out1) initstr2 = new_text (readlines text) initstr2
  /\ exists out2, new_text (readlines text) initstr2 = Ok out2.
Proof.
  intros Hnew Hx Hend Hhash.
  destruct (merged_region text initstr1 out1 Hnew Hx Hend Hhash)
    as (Hse & HT & Hout & HL' & Hregion).
  set (L := readlines text) in *. set (r := find_region L) in *.
  set (s := startline r) in *. set (T := concat (drop (endline r) L)) in *.
  set (B1 := _indent initstr1 (init_indent r) ++ [LF]) in *.
  set (B2 := _indent initstr2 (init_indent r) ++ [LF]).
  assert (Hs : s <= length L) by apply find_region_bounds.
  assert (Hs_len : length (take s L) = s) by (rewrite length_take; lia).
  assert (Hidem : rstrip (rstrip T) <> []) by now rewrite rstrip_idem.
  assert (Hright : new_text L initstr2
                   = Ok (concat (take s L) ++ B2 ++ rstrip T)).
  { unfold new_text. fold r s.
    apply Nat.leb_le in Hse. rewrite Hse. f_equal.
    rewrite !concat_app. cbn [concat]. rewrite app_nil_r. fold B2 T.
    rewrite rstrip_app_keep.
    - now rewrite rstrip_app_keep.
    - rewrite rstrip_app_keep by exact HT.
      intros Hnil. apply app_eq_nil in Hnil. now destruct Hnil. }
  split; [|eexists; exact Hright].
  rewrite Hright. unfold new_text. rewrite Hregion.
  cbn [startline endline init_indent].
  assert (Hle : (s <=? s + length (readlines B1)) = true)
    by (apply Nat.leb_le; lia).
  rewrite Hle. f_equal. fold B2. rewrite HL'.
  assert (Htake : take s (take s L ++ readlines B1 ++ readlines (rstrip T))
                  = take s L).
  { rewrite <- Hs_len at 1. apply take_app_length. }
  assert (Hdrop : drop (s + length (readlines B1))
                       (take s L ++ readlines B1 ++ readlines (rstrip T))
                  = readlines (rstrip T)).
  { rewrite drop_app_ge by lia. rewrite Hs_len.
    replace (s + length (readlines B1) - s) with (length (readlines B1)) by lia.
    apply drop_app_length. }
  rewrite Htake, Hdrop.
  rewrite !concat_app. cbn [concat]. rewrite app_nil_r.
  rewrite concat_readlines.
  rewrite rstrip_app_keep.
  - rewrite rstrip_app_keep by exact Hidem. now rewrite rstrip_idem.
  - rewrite rstrip_app_keep by exact Hidem.
    intros Hnil. apply app_eq_nil in Hnil. destruct Hnil as [_ Hnil].
    now apply Hidem.
Qed.

Lemma merge_last_write_wins_witness :
  new_text (readlines (py"# <AUTOGEN_INIT>" ++ [LF] ++ py"import a" ++ [LF]
                       ++ py"# </AUTOGEN_INIT>"))
           (py"import b")
  = new_text (readlines Pkg.init_py) (py"import b").
Proof.
  destruct (merge_last_write_wins Pkg.init_py (py"import a") (py"import b")
              (py"# <AUTOGEN_INIT>" ++ [LF] ++ py"import a" ++ [LF]
               ++ py"# </AUTOGEN_INIT>")) as [H _].
  - vm_compute. reflexivity.
  - vm_compute. reflexivity.
  - apply Nat.ltb_lt. vm_compute. reflexivity.
  - reflexivity.
  - exact H.
Defined.

(** X7.  What the merge writes, the scan finds again: in the file
    written for a region between a begin tag and an end tag and a block
    without [#], the region is the block just written.  It starts at the
    same line, after the same lines, with the same indentation; the text
    of its lines is the indented block with its newline; and the line it
    ends at carries the end tag. *)
Theorem written_block_is_region (text initstr out : str) :
  new_text (readlines text) initstr = Ok out ->
  explicit (find_region (readlines text)) = true ->
  endline (find_region (readlines text)) < length (readlines text) ->
  contains "#"%char initstr = false ->
  let r := find_region (readlines text) in
  let r' := find_region (readlines out) in
  explicit r' = true /\ startline r' = startline r
  /\ init_indent r' = init_indent r
  /\ take (startline r') (readlines out) = take (startline r) (readlines text)
  /\ concat (take (endline r' - startline r')
                  (drop (startline r') (readlines out)))
     = _indent initstr (init_indent r) ++ [LF]
  /\ exists le, readlines out !! endline r' = Some le /\ is_end le = true.
Proof.
  intros Hnew Hx Hend Hhash r r'.
  destruct (merged_region text initstr out Hnew Hx Hend Hhash)
    as (Hse & HT & Hout & HL' & Hregion).
  fold r in Hse, HT, Hout, HL', Hregion. fold r' in Hregion.
  set (L := readlines text) in *. set (s := startline r) in *.
  set (B := _indent initstr (init_indent r) ++ [LF]) in *.
  set (T := concat (drop (endline r) L)) in *.
  assert (Hs : s <= length L) by apply find_region_bounds.
  assert (Hs_len : length (take s L) = s) by (rewrite length_take; lia).
  rewrite Hregion. cbn [explicit startline endline init_indent].
  split; [reflexivity|]. split; [reflexivity|]. split; [reflexivity|].
  split; [|split].
  - rewrite HL'. rewrite <- Hs_len at 1. apply take_app_length.
  - rewrite HL'. rewrite drop_app_ge by lia. rewrite Hs_len, Nat.sub_diag.
    rewrite drop_0.
    replace (s + length (readlines B) - s) with (length (readlines B)) by lia.
    rewrite take_app_length. apply concat_readlines.
  - assert (Hlen : s + length (readlines B) < length (readlines out)).
    { rewrite HL', !length_app, Hs_len.
      destruct (readlines (rstrip T)) as [|t0 ts] eqn:Et.
      - apply readlines_nil in Et. contradiction.
      - cbn [length]. lia. }
    assert (Hinv : endline r' = length (readlines out)
                   \/ (explicit r' = true
                       /\ exists le, readlines out !! endline r' = Some le
                                     /\ is_end le = true
                                     /\ Forall (fun l => is_end l = false)
                                               (drop (S (endline r'))
                                                     (readlines out))))
      by apply (scan_endline_inv (length (readlines out)) (readlines out)).
    rewrite Hregion in Hinv. cbn [explicit endline] in Hinv.
    destruct Hinv as [He|(_ & le & Hle & Hend' & _)]; [lia|].
    now exists le.
Qed.

Lemma written_block_is_region_witness :
  let out := py"# <AUTOGEN_INIT>" ++ [LF] ++ py"import a" ++ [LF]
             ++ py"# </AUTOGEN_INIT>" in
  find_region (readlines out) = mkRegion 1 2 true []
  /\ concat (take 1 (drop 1 (readlines out))) = py"import a" ++ [LF].
Proof.
  intros out.
  destruct (written_block_is_region Pkg.init_py (py"import a") out)
    as (_ & _ & _ & _ & Hblock & _).
  - vm_compute. reflexivity.
  - vm_compute. reflexivity.
  - apply Nat.ltb_lt. vm_compute. reflexivity.
  - reflexivity.
  - split; [vm_compute; reflexivity|]. exact Hblock.
Defined.

(** *** Lines the scan passes over *)

Lemma startswith_hash s tag :
  startswith s ("#"%char :: tag) = true -> startswith s (py"#") = true.
Proof.
  destruct s as [|c s]; [discriminate|]. cbn [startswith list_ascii_of_string].
  intros H. apply andb_true_iff in H. destruct H as [-> _]. reflexivity.
Qed.

Lemma begin_is_marker l : is_begin l = true -> is_marker l = true.
Proof.
  unfold is_begin, is_marker. intros H. apply startswith_hash in H.
  rewrite H. now rewrite orb_true_r.
Qed.

Lemma end_is_marker l : is_end l = true -> is_marker l = true.
Proof.
  unfold is_end, is_marker. intros H. apply startswith_hash in H.
  rewrite H. now rewrite orb_true_r.
Qed.

Lemma scan_line_neutral n l r : is_marker l = false -> scan_line n l r = r.
Proof.
  intros Hm.
  assert (Hb : is_begin l = false).
  { destruct (is_begin l) eqn:E; [|reflexivity].
    apply begin_is_marker in E. congruence. }
  assert (He : is_end l = false).
  { destruct (is_end l) eqn:E; [|reflexivity].
    apply end_is_marker in E. congruence. }
  unfold is_marker in Hm. apply orb_false_iff in Hm. destruct Hm as [Hm H3].
  apply orb_false_iff in Hm. destruct Hm as [H1 H2].
  unfold is_begin in Hb. unfold is_end in He. unfold scan_line.
  rewrite H1, H2, H3, Hb, He. rewrite !andb_false_r.
  now destruct r.
Qed.

Lemma scan_lines_neutral ls : forall n r,
  Forall (fun l => is_marker l = false) ls -> scan_lines n ls r = r.
Proof.
  induction ls as [|l ls IH]; intros n r Hall; [reflexivity|].
  inversion Hall; subst. cbn [scan_lines].
  rewrite scan_line_neutral by assumption. now apply IH.
Qed.

Lemma is_marker_rstrip a b : rstrip a = rstrip b -> is_marker a = is_marker b.
Proof.
  intros H. unfold is_marker, is_docstring_delimiter.
  now rewrite (rstrip_strip a b H).
Qed.

Lemma marker_not_blank l : is_marker l = true -> rstrip l <> [].
Proof.
  intros Hm Hnil. unfold is_marker, is_docstring_delimiter in Hm.
  rewrite strip_comm, Hnil in Hm. discriminate.
Qed.

Lemma readlines_LF_free s :
  s <> [] -> contains LF s = false -> readlines s = [s].
Proof.
  induction s as [|c s IH]; intros Hne H; [contradiction|].
  unfold contains in H. cbn [existsb] in H. rewrite Ascii.eqb_sym in H.
  apply orb_false_iff in H. destruct H as [Hc Hs].
  cbn [readlines]. rewrite Hc. destruct s as [|d s]; [reflexivity|].
  rewrite IH; [reflexivity | discriminate | exact Hs].
Qed.

(** A begin-tag line is white space, then [#]; the indentation the scan
    takes from it is that white space. *)
Lemma begin_line_shape lb :
  is_begin lb = true ->
  exists ws rest,
    lb = ws ++ "#"%char :: rest
    /\ Forall (fun c => isspace c = true) ws
    /\ slice_to lb (find lb "#"%char) = ws.
Proof.
  intros Hb. destruct (begin_indent lb Hb) as [Hws Heq].
  unfold is_begin, strip in Hb. apply startswith_take in Hb.
  destruct (rstrip_spec (lstrip lb)) as (ws' & _ & Hr).
  destruct (rstrip (lstrip lb)) as [|c0 rest0]; [discriminate|].
  injection Hb as -> _.
  exists (slice_to lb (find lb "#"%char)), (rest0 ++ ws').
  split; [|split; [exact Hws | reflexivity]].
  rewrite Heq at 1. now rewrite <- Hr.
Qed.

Lemma first_hash_unique a1 x1 a2 x2 :
  Forall (fun c => isspace c = true) a1 ->
  Forall (fun c => isspace c = true) a2 ->
  a1 ++ "#"%char :: x1 = a2 ++ "#"%char :: x2 -> a1 = a2.
Proof.
  intros H1. revert a2. induction H1 as [|c a1 Hc _ IH]; intros a2 H2 Heq.
  - destruct H2 as [|d a2 Hd _]; [reflexivity|].
    injection Heq as <- _. discriminate.
  - destruct H2 as [|d a2 Hd H2].
    + injection Heq as -> _. discriminate.
    + injection Heq as -> Heq. f_equal. now apply IH.
Qed.

Lemma rstrip_hash ws rest :
  exists rest', rstrip (ws ++ "#"%char :: rest) = ws ++ "#"%char :: rest'.
Proof.
  assert (H : exists rest', rstrip ("#"%char :: rest) = "#"%char :: rest').
  { cbn [rstrip]. destruct (rstrip rest) as [|d r'].
    - now exists [].
    - now exists (d :: r'). }
  destruct H as (rest' & H). exists rest'.
  rewrite rstrip_app_keep; rewrite H; [reflexivity | discriminate].
Qed.

(** The scan sees of a line what is left of it without the white space at
    its end. *)
Lemma scan_line_rstrip n a b r :
  rstrip a = rstrip b -> scan_line n a r = scan_line n b r.
Proof.
  intros H. unfold scan_line, is_docstring_delimiter.
  rewrite (rstrip_strip a b H).
  destruct (startswith (strip b) BEGIN_TAG) eqn:Hb; [|reflexivity].
  assert (Ha : is_begin a = true)
    by (unfold is_begin; now rewrite (rstrip_strip a b H)).
  destruct (begin_line_shape a Ha) as (wa & ra & Ea & Hwa & ->).
  destruct (begin_line_shape b Hb) as (wb & rb & Eb & Hwb & ->).
  destruct (rstrip_hash wa ra) as (ra' & Hra).
  destruct (rstrip_hash wb rb) as (rb' & Hrb).
  rewrite Ea, Eb, Hra, Hrb in H.
  now rewrite (first_hash_unique _ _ _ _ Hwa Hwb H).
Qed.

(** In a file without an end tag, the scan of the lines before the start
    line ends with the start line, the mode and the indentation of the
    whole scan. *)
Lemma scan_prefix_region L E :
  Forall (fun l => is_end l = false) L ->
  let r := find_region L in
  scan_lines 0 (take (startline r) L) (mkRegion 0 E false [])
  = mkRegion (startline r) E (explicit r) (init_indent r).
Proof.
  intros Hnoend r. set (s := startline r).
  set (rp := scan_lines 0 (take s L) (mkRegion 0 E false [])).
  assert (Hend : endline rp = E).
  { destruct (scan_endline_inv E (take s L))
      as [He|(_ & le & Hle & Hend & _)]; [exact He|].
    apply lookup_take_Some in Hle. destruct Hle as [Hle _].
    rewrite List.Forall_forall in Hnoend.
    assert (Hin : In le L).
    { apply list_elem_of_In, list_elem_of_lookup. eexists. exact Hle. }
    apply Hnoend in Hin. congruence. }
  assert (Hrest : startline rp = s /\ explicit rp = explicit r
                  /\ init_indent rp = init_indent r).
  { destruct (explicit r) eqn:Hx.
    - destruct (scan_explicit_inv (length L) L Hx)
        as (b & lb & Hs & _ & _ & _ & _ & Hrb).
      change (scan_lines 0 L (mkRegion 0 (length L) false [])) with r in *.
      cbv zeta in Hrb. rewrite <- Hs in Hrb. fold s in Hrb.
      destruct (scan_lines_endline_irrelevant (take s L) 0
                  (mkRegion 0 E false [])
                  (mkRegion 0 (length L) false []) eq_refl eq_refl eq_refl)
        as (H1 & H2 & H3).
      fold rp in H1, H2, H3. destruct Hrb as (Hrb1 & Hrb2 & Hrb3).
      rewrite H1, H2, H3. repeat split; assumption.
    - assert (Hnobegin : Forall (fun l => is_begin l = false) L).
      { apply List.Forall_forall. intros l Hl.
        destruct (is_begin l) eqn:Hb; [|reflexivity].
        unfold r, find_region in Hx.
        now rewrite (scan_explicit_of_begin L _ _ l Hl Hb) in Hx. }
      destruct (scan_heuristic_inv (length L) L Hnobegin)
        as (_ & _ & Hi & Hs).
      change (scan_lines 0 L (mkRegion 0 (length L) false [])) with r in *.
      rewrite Hi.
      destruct (scan_heuristic_inv E (take s L)
                  ltac:(now apply Forall_take)) as (Hxp & _ & Hip & _).
      fold rp in Hxp, Hip. split; [|split; assumption].
      destruct Hs as [[Hs _]|(k & l & Hs & Hl & Hm & _)].
      + unfold rp, s. rewrite Hs. reflexivity.
      + unfold rp, s. rewrite Hs, (take_S_r _ _ _ Hl), scan_lines_snoc.
        destruct (scan_heuristic_inv E (take k L)
                    ltac:(now apply Forall_take)) as (Hxk & _).
        rewrite scan_line_heuristic_eq; [|exact Hxk|].
        * unfold is_marker in Hm. rewrite Hm.
          cbn [startline set_startline Nat.add]. rewrite length_take.
          apply lookup_lt_Some in Hl. lia.
        * rewrite List.Forall_forall in Hnobegin. apply Hnobegin.
          apply list_elem_of_In, list_elem_of_lookup. eexists. exact Hl. }
  destruct Hrest as (H1 & H2 & H3). destruct rp as [s1 e1 x1 i1].
  cbn in Hend, H1, H2, H3. now subst.
Qed.

(** The line before the start line, when there is one, is a marker. *)
Lemma line_before_start L :
  let r := find_region L in
  startline r = 0
  \/ exists k m, startline r = S k /\ L !! k = Some m /\ is_marker m = true.
Proof.
  intros r. destruct (explicit r) eqn:Hx.
  - destruct (scan_explicit_inv (length L) L Hx)
      as (b & lb & Hs & Hlb & Hb & _).
    right. exists b, lb. repeat split; [exact Hs | exact Hlb |].
    now apply begin_is_marker.
  - assert (Hnobegin : Forall (fun l => is_begin l = false) L).
    { apply List.Forall_forall. intros l Hl.
      destruct (is_begin l) eqn:Hb; [|reflexivity].
      unfold r, find_region in Hx.
      now rewrite (scan_explicit_of_begin L _ _ l Hl Hb) in Hx. }
    destruct (scan_heuristic_inv (length L) L Hnobegin)
      as (_ & _ & _ & [[Hs _]|(k & l & Hs & Hl & Hm & _)]).
    + now left.
    + right. exists k, l. repeat split; assumption.
Qed.

(** Merging the same block again into a merged file without end tag. *)
Lemma new_text_fixed_point_open lines initstr :
  let r := find_region lines in
  let B := _indent initstr (init_indent r) ++ [LF] in
  let out := rstrip (concat (take (startline r) lines) ++ B) in
  Forall (fun l => is_end l = false) lines ->
  Forall complete (take (startline r) lines) ->
  Forall (fun l => is_marker l = false) (readlines B) ->
  new_text lines initstr = Ok out /\ new_text (readlines out) initstr = Ok out.
Proof.
  intros r B out Hnoend Hcomplete Hneutral.
  split; [apply (new_text_open lines initstr Hnoend)|].
  assert (Hbound : startline r <= length lines) by apply find_region_bounds.
  assert (HRB : Forall (fun l => is_marker l = false) (readlines (rstrip B))).
  { apply (Forall2_transfer (fun a b => rstrip a = rstrip b)
             (fun l => is_marker l = false) (fun l => is_marker l = false)
             _ (take (length (readlines (rstrip B))) (readlines B))).
    - intros a b Hab Hb. now rewrite (is_marker_rstrip a b Hab).
    - apply readlines_rstrip.
    - now apply Forall_take. }
  destruct (line_before_start lines) as [Hs|(k & m & Hs & Hm & Hmark)];
    fold r in Hs.
  - (* the block is at the start of the file *)
    assert (Hx : explicit r = false).
    { destruct (explicit r) eqn:Hx; [|reflexivity].
      destruct (scan_explicit_inv (length lines) lines Hx) as (b & ? & Hb & _).
      change (scan_lines 0 lines (mkRegion 0 (length lines) false []))
        with r in Hb. lia. }
    assert (Hind : init_indent r = [])
      by apply (scan_indent_heuristic (length lines) lines Hx).
    assert (Hout : out = rstrip B).
    { unfold out. now rewrite Hs. }
    rewrite Hout. unfold new_text, find_region.
    rewrite scan_lines_neutral by exact HRB.
    cbn [startline endline init_indent Nat.leb take].
    rewrite drop_all, take_0. cbn [app concat]. rewrite app_nil_r.
    unfold B. now rewrite Hind.
  - (* the block follows a marker line *)
    assert (Htake : take (startline r) lines = take k lines ++ [m])
      by (rewrite Hs; now apply take_S_r).
    rewrite Htake in Hcomplete. apply Forall_app in Hcomplete.
    destruct Hcomplete as [HcompQ Hcompm].
    inversion Hcompm as [|? ? (body & Hbody & HnoLF) _]; subst.
    pose proof (marker_not_blank _ Hmark) as Hmne.
    set (Q := concat (take k lines)) in *.
    assert (HP : concat (take (startline r) lines) = Q ++ (body ++ [LF])).
    { rewrite Htake, concat_app. cbn [concat]. now rewrite app_nil_r. }
    destruct (rstrip B) as [|c0 B0] eqn:HrB.
    + (* a block of white space *)
      apply rstrip_nil_iff in HrB.
      set (m' := rstrip (body ++ [LF])) in *.
      assert (Hout : out = Q ++ m').
      { unfold out. rewrite rstrip_app_space by exact HrB.
        rewrite HP. now apply rstrip_app_keep. }
      assert (Hm'LF : contains LF m' = false).
      { unfold m'. rewrite rstrip_app_space by (repeat constructor).
        apply contains_rstrip. now apply contains_false_iff. }
      assert (HL' : readlines out = take k lines ++ [m']).
      { rewrite Hout. unfold Q.
        rewrite readlines_concat_complete by exact HcompQ.
        now rewrite readlines_LF_free. }
      assert (Hlen : length (readlines out) = startline r).
      { rewrite HL', length_app, length_take. cbn [length].
        apply lookup_lt_Some in Hm. lia. }
      assert (Hregion : find_region (readlines out)
                        = mkRegion (startline r) (startline r) (explicit r)
                                   (init_indent r)).
      { unfold find_region. rewrite Hlen, HL', scan_lines_snoc.
        rewrite (scan_line_rstrip _ m' (body ++ [LF]))
          by (unfold m'; apply rstrip_idem).
        rewrite <- scan_lines_snoc, <- Htake.
        now apply scan_prefix_region. }
      unfold new_text. rewrite Hregion. cbn [startline endline init_indent].
      rewrite Nat.leb_refl. f_equal. fold B.
      rewrite <- Hlen, firstn_all, drop_all, HL'.
      rewrite !concat_app. cbn [concat]. rewrite !app_nil_r. fold Q.
      rewrite rstrip_app_space by exact HrB.
      rewrite Hout. rewrite rstrip_app_keep; unfold m'; rewrite rstrip_idem;
        [reflexivity | exact Hmne].
    + (* a block that holds something *)
      assert (HrB' : rstrip B <> []) by (rewrite HrB; discriminate).
      rewrite <- HrB in *. clear HrB.
      assert (Hout : out = concat (take (startline r) lines) ++ rstrip B).
      { unfold out. now apply rstrip_app_keep. }
      assert (Hcomp : Forall complete (take (startline r) lines)).
      { rewrite Htake. apply Forall_app. split; [exact HcompQ | exact Hcompm]. }
      assert (HL' : readlines out
                    = take (startline r) lines ++ readlines (rstrip B)).
      { rewrite Hout. now apply readlines_concat_complete. }
      assert (Hlen : length (take (startline r) lines) = startline r)
        by (rewrite length_take; lia).
      assert (Hregion : find_region (readlines out)
                        = mkRegion (startline r) (length (readlines out))
                                   (explicit r) (init_indent r)).
      { unfold find_region. generalize (length (readlines out)). intros E.
        rewrite HL', scan_lines_app.
        rewrite scan_lines_neutral by exact HRB.
        now apply scan_prefix_region. }
      unfold new_text. rewrite Hregion. cbn [startline endline init_indent].
      assert (Hle : (startline r <=? length (readlines out)) = true).
      { apply Nat.leb_le. rewrite HL', length_app. lia. }
      rewrite Hle. f_equal. fold B. rewrite drop_all.
      rewrite HL' at 1. rewrite <- Hlen at 1. rewrite take_app_length.
      rewrite !concat_app. cbn [concat]. now rewrite !app_nil_r.
Qed.

Lemma readlines_snoc_LF s :
  readlines (s ++ [LF]) = map (fun l => l ++ [LF]) (split_on LF s).
Proof.
  induction s as [|c s IH]; [reflexivity|].
  cbn [app readlines split_on]. destruct (Ascii.eqb_spec c LF) as [->|_].
  - now rewrite IH.
  - rewrite IH. pose proof (split_on_nonnil LF s).
    destruct (split_on LF s); [contradiction | reflexivity].
Qed.

(** A line of a file has no newline before its last character. *)
Lemma readlines_prefix_LF_free text : forall l pre c post,
  In l (readlines text) -> l = pre ++ c :: post -> contains LF pre = false.
Proof.
  induction text as [|c0 r IH]; intros l pre c post Hin Heq; [contradiction|].
  cbn [readlines] in Hin. destruct (Ascii.eqb_spec c0 LF) as [->|Hc0].
  - destruct Hin as [<-|Hin]; [|now apply (IH l pre c post)].
    destruct pre as [|p pre]; [reflexivity|].
    injection Heq as _ Heq. now destruct pre.
  - destruct (readlines r) as [|l0 ls] eqn:E.
    + destruct Hin as [<-|[]]. destruct pre as [|p pre]; [reflexivity|].
      injection Heq as _ Heq. now destruct pre.
    + destruct Hin as [<-|Hin].
      * destruct pre as [|p pre]; [reflexivity|].
        injection Heq as <- Heq.
        unfold contains. cbn [existsb]. rewrite Ascii.eqb_sym.
        destruct (Ascii.eqb_spec c0 LF); [contradiction|].
        apply (IH l0 pre c post); [now left | exact Heq].
      * apply (IH l pre c post); [now right | exact Heq].
Qed.

Lemma strip_indented ind l :
  Forall (fun c => isspace c = true) ind -> strip (ind ++ l ++ [LF]) = strip l.
Proof.
  intros Hind. rewrite (strip_comm l), app_assoc, strip_comm.
  rewrite rstrip_app_space by (repeat constructor).
  rewrite <- !strip_comm. unfold strip. f_equal.
  induction Hind as [|c ind Hc _ IH]; [reflexivity|].
  cbn [app lstrip]. now rewrite Hc.
Qed.

(** The lines of the indented block are markers when the lines of the
    block are. *)
Lemma block_lines_neutral initstr ind :
  Forall (fun c => isspace c = true) ind -> contains LF ind = false ->
  Forall (fun l => is_marker l = false) (split_on LF initstr) ->
  Forall (fun l => is_marker l = false)
         (readlines (_indent initstr ind ++ [LF])).
Proof.
  intros Hws HLF Hall. rewrite readlines_snoc_LF.
  unfold _indent. rewrite replace_lines by assumption.
  pose proof (split_on_nonnil LF initstr) as Hne.
  destruct (split_on LF initstr) as [|l ls]; [contradiction|].
  change ((ind ++ l) :: map (app ind) ls) with (map (app ind) (l :: ls)).
  rewrite map_map. apply Forall_map.
  eapply Forall_impl; [exact Hall|]. intros x Hx. cbv beta.
  unfold is_marker, is_docstring_delimiter in *.
  rewrite <- app_assoc. now rewrite strip_indented.
Qed.

Lemma init_indent_shape text :
  let r := find_region (readlines text) in
  Forall (fun c => isspace c = true) (init_indent r)
  /\ contains LF (init_indent r) = false.
Proof.
  intros r. destruct (explicit r) eqn:Hx.
  - destruct (scan_explicit_inv (length (readlines text)) (readlines text) Hx)
      as (b & lb & _ & Hlb & Hb & Hind & _).
    change (init_indent r = slice_to lb (find lb "#"%char)) in Hind.
    destruct (begin_line_shape lb Hb) as (ws & rest & Heq & Hws & Hslice).
    rewrite Hind, Hslice. split; [exact Hws|].
    apply (readlines_prefix_LF_free text lb ws "#"%char rest); [|exact Heq].
    apply list_elem_of_In, list_elem_of_lookup. eexists. exact Hlb.
  - assert (Hind : init_indent r = [])
      by apply (scan_indent_heuristic _ _ Hx).
    rewrite Hind. split; [constructor | reflexivity].
Qed.



(** ** The plan builder: what it reads and how it fails *)

Lemma omap_fst_take_zip {A B} (ps : list (option A)) : forall (ns : list B) k,
  length ps = length ns ->
  omap fst (take k (zip ps ns)) = omap id (take k ps).
Proof.
  induction ps as [|p ps IH]; intros ns k Hlen.
  - now destruct k.
  - destruct ns as [|n ns]; [discriminate|]. destruct k as [|k]; [reflexivity|].
    injection Hlen as Hlen. specialize (IH ns k Hlen).
    change (omap fst (take (S k) (zip (p :: ps) (n :: ns))))
      with (match p with
            | Some y => y :: omap fst (take k (zip ps ns))
            | None => omap fst (take k (zip ps ns))
            end).
    rewrite IH. now destruct p.
Qed.

Section Reads.
Context {static : StaticAnalysis}.

(** The paths and the names the loop of the builder pairs are as many. *)
Lemma submodule_paths_entries modpath imports w res w' :
  _static_parse_imports modpath imports w = (res, w') ->
  exists names res1,
    length (submodule_paths modpath imports) = length names
    /\ forM (zip (submodule_paths modpath imports) names) parse_submodule w
       = (res1, w')
    /\ res = rbind res1 (fun from_imports =>
                           Ok (modpath_to_modname modpath, names, from_imports)).
Proof.
  intros Hrun.
  destruct (_static_parse_imports_run _ _ _ _ _ Hrun) as (res1 & Hloop & Hres).
  clear Hrun.
  destruct imports as [imports|]; cbn [fst snd] in Hloop, Hres.
  - exists imports, res1. unfold submodule_paths.
    split; [rewrite length_map; reflexivity|]. split; assumption.
  - exists (map (rel_modname (modpath_to_modname modpath))
                (retained (modpath_to_modname modpath)
                          (package_modpaths modpath))), res1.
    unfold submodule_paths.
    split; [rewrite !length_map; reflexivity|].
    split; [exact Hloop | exact Hres].
Qed.

(** X9.  The plan builder only reads: whatever the mode and the outcome,
    no file and no directory changes, and the files opened are the first
    submodule paths, in order; all of them when the builder ends well. *)
Theorem builder_only_reads (modpath : str) (imports : option (list str))
    (w w' : World) (res : result (str * list str * list (str * list str))) :
  _static_parse_imports modpath imports w = (res, w') ->
  let paths := submodule_paths modpath imports in
  dirs w' = dirs w /\ files w' = files w
  /\ (exists k, opened w' = opened w ++ omap id (take k paths))
  /\ forall plan, res = Ok plan ->
       opened w' = opened w ++ omap id paths
       /\ length plan.2 = length paths
       /\ plan.1.1 = modpath_to_modname modpath.
Proof.
  intros Hrun paths.
  destruct (submodule_paths_entries _ _ _ _ _ Hrun)
    as (names & res1 & Hlen & Hloop & Hres).
  fold paths in Hlen, Hloop. clear Hrun.
  destruct (forM_parse_run _ _ _ _ Hloop) as (Hd & Hf & (k & Hk) & Hok).
  split; [exact Hd|]. split; [exact Hf|]. split.
  - exists k. rewrite Hk. rewrite omap_fst_take_zip by exact Hlen.
    reflexivity.
  - intros plan ->. destruct res1 as [fis|e]; [|discriminate].
    injection Hres as ->. cbn [fst snd].
    destruct (Hok fis eq_refl) as [Hop Hall]. split; [|split; [|reflexivity]].
    + rewrite Hop. f_equal.
      rewrite <- (firstn_all (zip paths names)).
      rewrite omap_fst_take_zip by exact Hlen.
      rewrite length_zip_with, <- Hlen, Nat.min_id. rewrite firstn_all.
      reflexivity.
    + apply Forall2_length in Hall. rewrite <- Hall, length_zip_with. lia.
Qed.

End Reads.

Lemma builder_only_reads_witness :
  let run := _static_parse_imports (static := Pkg.static) (py"pkg")
               (Some [py"b"; py"nope"; py"a"]) Pkg.world in
  files run.2 = files Pkg.world /\ opened run.2 = [py"pkg/b.py"].
Proof.
  intros run.
  destruct (builder_only_reads (static := Pkg.static) (py"pkg")
              (Some [py"b"; py"nope"; py"a"]) Pkg.world run.2 run.1)
    as (_ & Hfiles & _ & _).
  - subst run. destruct (_static_parse_imports _ _ _). reflexivity.
  - split; [exact Hfiles | vm_compute; reflexivity].
Defined.

Lemma omap_fst_zip {A B} (ps : list (option A)) (ns : list B) :
  length ps = length ns -> omap fst (zip ps ns) = omap id ps.
Proof.
  intros Hlen. pose proof (omap_fst_take_zip ps ns (length ps) Hlen) as H.
  rewrite firstn_all in H. rewrite <- H. f_equal.
  rewrite <- (firstn_all (zip ps ns)) at 1.
  rewrite length_zip_with, <- Hlen, Nat.min_id. reflexivity.
Qed.

Lemma zip_app_cons {A B} (pre : list A) path post : forall (ns : list B),
  length (pre ++ path :: post) = length ns ->
  exists npre n npost,
    length pre = length npre /\ length post = length npost
    /\ zip (pre ++ path :: post) ns = zip pre npre ++ (path, n) :: zip post npost.
Proof.
  induction pre as [|p pre IH]; intros ns Hlen.
  - destruct ns as [|n ns]; [discriminate|]. injection Hlen as Hlen.
    exists [], n, ns. repeat split; [exact Hlen].
  - destruct ns as [|n0 ns]; [discriminate|]. injection Hlen as Hlen.
    destruct (IH ns Hlen) as (npre & n & npost & H1 & H2 & H3).
    exists (n0 :: npre), n, npost. cbn [length]. repeat split; try congruence.
    change (zip ((p :: pre) ++ path :: post) (n0 :: ns))
      with ((p, n0) :: zip (pre ++ path :: post) ns).
    rewrite H3. reflexivity.
Qed.

Section Failures.
Context {static : StaticAnalysis}.

(** The loop stops at the first entry that cannot be read or parsed. *)
Lemma forM_parse_fail pre entry post : forall w,
  Forall (fun en => exists keys, readable w en.1 keys) pre ->
  (forall keys, ~ readable w entry.1 keys) ->
  forM (pre ++ entry :: post) parse_submodule w
  = (Raise match entry.1 with
           | None => TypeError
           | Some p => match files w !! p with
                       | None => IOError p
                       | Some _ => SyntaxError
                       end
           end,
     mkWorld (dirs w) (files w)
       (opened w ++ omap fst pre
        ++ match entry.1 with
           | Some p => match files w !! p with Some _ => [p] | None => [] end
           | None => []
           end)).
Proof.
  induction pre as [|en pre IH]; intros w Hall Hnot.
  - cbn [app]. rewrite forM_cons.
    destruct entry as [[p|] rel]; cbn [fst] in *.
    + unfold parse_submodule, bind, read_file, lift.
      destruct (files w !! p) as [text|] eqn:Hfile.
      * destruct (calldefs text) as [keys|] eqn:Hkeys.
        -- exfalso. apply (Hnot keys). exists p, text. repeat split; assumption.
        -- reflexivity.
      * destruct w. cbn [dirs files opened omap list_omap].
        rewrite app_nil_r. reflexivity.
    + cbn. destruct w. cbn [dirs files opened omap list_omap].
      rewrite app_nil_r. reflexivity.
  - inversion Hall as [|? ? (keys & Hread) Hrest]; subst.
    destruct (parse_submodule_ok en w keys Hread) as (p & Hp & Hone).
    cbn [app]. rewrite forM_cons, Hone.
    rewrite IH; cbn [dirs files opened].
    + f_equal. f_equal.
      change (omap fst (en :: pre))
        with (match en.1 with
              | Some y => y :: omap fst pre
              | None => omap fst pre
              end).
      rewrite Hp. rewrite <- !app_assoc. reflexivity.
    + eapply Forall_impl; [exact Hrest|].
      intros e (keys' & p' & text' & H1 & H2 & H3).
      exists keys', p', text'. repeat split; assumption.
    + intros keys' (p' & text' & H1 & H2 & H3). apply (Hnot keys').
      exists p', text'. repeat split; assumption.
Qed.

(** X10.  The builder stops at the first submodule it cannot read or parse,
    and that one decides the exception: [TypeError] for a name that does
    not resolve to a path, [IOError] for a path without a file,
    [SyntaxError] for a file that does not parse.  The submodules after
    it are not opened, no file changes, and no plan is returned. *)
Theorem first_unreadable_submodule (modpath : str)
    (imports : option (list str)) (w : World)
    (pre post : list (option str)) (path : option str) :
  submodule_paths modpath imports = pre ++ path :: post ->
  Forall (fun p => exists keys, readable w p keys) pre ->
  (forall keys, ~ readable w path keys) ->
  exists w',
    _static_parse_imports modpath imports w
    = (Raise match path with
             | None => TypeError
             | Some p => match files w !! p with
                         | None => IOError p
                         | Some _ => SyntaxError
                         end
             end, w')
    /\ files w' = files w /\ dirs w' = dirs w
    /\ opened w'
       = opened w ++ omap id pre
         ++ match path with
            | Some p => match files w !! p with Some _ => [p] | None => [] end
            | None => []
            end.
Proof.
  intros Hpaths Hpre Hnot.
  destruct (_static_parse_imports modpath imports w) as [res w'] eqn:Hrun.
  destruct (submodule_paths_entries _ _ _ _ _ Hrun)
    as (names & res1 & Hlen & Hloop & Hres).
  clear Hrun. rewrite Hpaths in Hlen, Hloop.
  destruct (zip_app_cons pre path post names Hlen)
    as (npre & n & npost & Hl1 & Hl2 & Hzip).
  rewrite Hzip in Hloop.
  rewrite (forM_parse_fail (zip pre npre) (path, n) (zip post npost)) in Hloop.
  - cbn [fst] in Hloop. injection Hloop as <- <-. rewrite Hres.
    exists (mkWorld (dirs w) (files w)
              (opened w ++ omap fst (zip pre npre)
               ++ match path with
                  | Some p =>
                      match files w !! p with Some _ => [p] | None => [] end
                  | None => []
                  end)).
    cbn [rbind files dirs opened]. repeat split.
    rewrite omap_fst_zip by exact Hl1. reflexivity.
  - apply (Forall_zip_fst (fun p => exists keys, readable w p keys)).
    exact Hpre.
  - exact Hnot.
Qed.

End Failures.

Lemma first_unreadable_submodule_witness :
  let w := mkWorld {[ py"pkg" ]} {[ py"pkg/a.py" := Pkg.a_py ]} [] in
  exists w',
    _static_parse_imports (static := Pkg.static) (py"pkg") None w
    = (Raise (IOError (py"pkg/b.py")), w')
    /\ opened w' = [py"pkg/a.py"].
Proof.
  intros w.
  destruct (first_unreadable_submodule (static := Pkg.static) (py"pkg") None w
              [Some (py"pkg/a.py")] [] (Some (py"pkg/b.py")))
    as (w' & Hrun & _ & _ & Hopened).
  - reflexivity.
  - constructor; [|constructor].
    exists [py"foo"; py"_bar"], (py"pkg/a.py"), Pkg.a_py.
    split; [reflexivity|]. split; [apply lookup_singleton_eq | reflexivity].
  - intros keys (p & text & Hp & Hfile & _). injection Hp as <-.
    unfold w in Hfile. cbn [files] in Hfile.
    rewrite lookup_singleton_ne in Hfile; [discriminate|].
    intros H. discriminate H.
  - exists w'. unfold w in Hrun, Hopened. cbn [files] in Hrun, Hopened.
    rewrite lookup_singleton_ne in Hrun, Hopened
      by (intros H; discriminate H).
    split; [exact Hrun | exact Hopened].
Defined.

(** ** What a run changes *)




Section Runs.
Context {static : StaticAnalysis}.

(** X12.  A package can be given by name or by path with the same effect:
    for a name that is not itself a path and resolves to an existing path,
    [autogen_init] on the name does what [autogen_init] on that path
    does. *)
Theorem by_name_as_by_path (name modpath : str) (imports : option (list str))
    (dry : bool) (w : World) :
  name ∉ dirs w -> files w !! name = None ->
  modname_to_modpath name = Some modpath ->
  modpath ∈ dirs w \/ is_Some (files w !! modpath) ->
  root_path w name = Some modpath
  /\ autogen_init name imports dry w = autogen_init modpath imports dry w.
Proof.
  intros Hdir Hfile Hres Hpath.
  assert (Hname : root_path w name = Some modpath).
  { unfold root_path. rewrite Hfile.
    rewrite (bool_decide_eq_false_2 _ Hdir).
    rewrite (bool_decide_eq_false_2 (is_Some None))
      by (intros [x Hx]; discriminate).
    exact Hres. }
  assert (Hmod : root_path w modpath = Some modpath).
  { unfold root_path.
    destruct Hpath as [Hp|Hp].
    - rewrite (bool_decide_eq_true_2 _ Hp). reflexivity.
    - rewrite (bool_decide_eq_true_2 _ Hp). rewrite orb_true_r. reflexivity. }
  split; [exact Hname|].
  rewrite !autogen_init_unfold, Hname, Hmod. reflexivity.
Qed.


End Runs.

Lemma by_name_as_by_path_witness :
  let w := mkWorld {[ py"/src/pkg" ]} ∅ [] in
  let static := {| modname_to_modpath name :=
                     if bool_decide (name = py"pkg")
                     then Some (py"/src/pkg") else None;
                   modpath_to_modname path := py"pkg";
                   package_modpaths pkgpath := [];
                   calldefs source := Some [] |} in
  autogen_init (static := static) (py"pkg") None true w
  = autogen_init (static := static) (py"/src/pkg") None true w.
Proof.
  intros w static.
  destruct (by_name_as_by_path (static := static) (py"pkg") (py"/src/pkg")
              None true w) as [_ H].
  - apply (bool_decide_eq_false_1 _). vm_compute. reflexivity.
  - reflexivity.
  - reflexivity.
  - left. apply (bool_decide_eq_true_1 _). vm_compute. reflexivity.
  - exact H.
Defined.


(** ** A statement that fits on one line *)

Lemma expandtabs_no_tab s : forall col,
  contains TAB s = false -> expandtabs_from col s = s.
Proof.
  induction s as [|c s IH]; intros col H; [reflexivity|].
  unfold contains in H. cbn [existsb] in H. rewrite Ascii.eqb_sym in H.
  apply orb_false_iff in H. destruct H as [Hc Hs].
  cbn [expandtabs_from]. rewrite Hc.
  destruct (Ascii.eqb c LF || Ascii.eqb c CR); now rewrite IH.
Qed.

(** Text whose only white space is the space character is left as it is. *)
Lemma munge_id s :
  Forall (fun c => Textwrap.is_whitespace c = true -> c = " "%char) s ->
  Textwrap._munge_whitespace s = s.
Proof.
  intros Hs. unfold Textwrap._munge_whitespace, expandtabs.
  rewrite expandtabs_no_tab.
  - induction Hs as [|c s Hc _ IH]; [reflexivity|].
    cbn [map]. rewrite IH.
    destruct (Textwrap.is_whitespace c) eqn:E; [|reflexivity].
    now rewrite (Hc eq_refl).
  - apply contains_false_iff. eapply Forall_impl; [exact Hs|].
    intros c Hc ->. specialize (Hc eq_refl). discriminate.
Qed.

Lemma fill_line_all width chunks : forall cur_line cur_len,
  (cur_len + TextwrapSpec.total chunks <= width)%Z ->
  Textwrap.fill_line width cur_line cur_len chunks = (cur_line ++ chunks, []).
Proof.
  induction chunks as [|chunk rest IH]; intros cur_line cur_len Hfit.
  - cbn [Textwrap.fill_line]. now rewrite app_nil_r.
  - cbn [Textwrap.fill_line].
    change (chunk :: rest) with ([chunk] ++ rest) in Hfit.
    rewrite TextwrapFacts.total_app, TextwrapFacts.total_one in Hfit.
    assert (Hrest : (0 <= TextwrapSpec.total rest)%Z)
      by (unfold TextwrapSpec.total; lia).
    destruct (Z.leb_spec (cur_len + Z.of_nat (length chunk)) width); [|lia].
    rewrite IH by lia. now rewrite <- app_assoc.
Qed.

(** [textwrap.wrap] leaves on one line a text that fits the width, has the
    space as its only white space, and does not end with white space. *)
Lemma wrap_fits text width si pre c :
  text = pre ++ [c] -> isspace c = false ->
  Forall (fun c => Textwrap.is_whitespace c = true -> c = " "%char) text ->
  (Z.of_nat (length text) <= width)%Z ->
  Textwrap.wrap text width si = [text].
Proof.
  intros Htext Hc Htame Hfit. unfold Textwrap.wrap. rewrite munge_id by exact Htame.
  pose proof (TextwrapFacts.concat_split text) as Hconcat.
  pose proof (TextwrapFacts._split_alternating text) as Halt.
  assert (HP : (fun lines chunks =>
                  (lines = [] /\ chunks = Textwrap._split text)
                  \/ (lines = [text] /\ chunks = []))
                 (Textwrap._wrap_chunks width [] si [] (Textwrap._split text))
                 []).
  { apply (TextwrapFacts._wrap_chunks_invariant
             (fun lines chunks =>
                (lines = [] /\ chunks = Textwrap._split text)
                \/ (lines = [text] /\ chunks = []))); [|now left].
    intros lines chunk rest [[-> Hchunks]|[_ Hnil]]; [|discriminate].
    right. rewrite Hchunks. set (chunks := Textwrap._split text) in *.
    unfold Textwrap.wrap_line. cbn [length]. rewrite Z.sub_0_r.
    assert (Hlead : Textwrap.drop_leading [] chunks = chunks)
      by (unfold Textwrap.drop_leading; now destruct chunks).
    rewrite Hlead. unfold Textwrap.take_line.
    rewrite fill_line_all
      by (unfold TextwrapSpec.total; rewrite Hconcat; lia).
    cbn [app].
    assert (Hlast : exists init ch, chunks = init ++ [ch]).
    { destruct (exists_last (l := chunks)) as (init & ch & Heq).
      - rewrite <- Hchunks. discriminate.
      - now exists init, ch. }
    destruct Hlast as (init & ch & Hinit).
    assert (Hblank : Textwrap.blank ch = false).
    { destruct (Textwrap.blank ch) eqn:Hb; [|reflexivity].
      apply TextwrapFacts.blank_iff in Hb.
      assert (Hu : TextwrapSpec.uniform ch).
      { apply (TextwrapFacts.alternating_In chunks); [exact Halt|].
        rewrite Hinit. apply in_or_app. right. now left. }
      destruct Hu as [Hne _].
      destruct (exists_last Hne) as (ch' & d & Hch).
      rewrite Hinit, concat_app in Hconcat. cbn [concat] in Hconcat.
      rewrite app_nil_r, Hch, Htext, app_assoc in Hconcat.
      apply app_inj_tail in Hconcat. destruct Hconcat as [_ <-].
      rewrite Hch in Hb. apply Forall_app in Hb. destruct Hb as [_ Hb].
      inversion Hb; subst. congruence. }
    unfold Textwrap.drop_trailing.
    assert (Hl : last chunks = Some ch)
      by (rewrite Hinit; apply last_snoc).
    rewrite Hl, Hblank. destruct chunks as [|l l0]; [discriminate|].
    cbn [fst snd app]. rewrite Hconcat. split; reflexivity. }
  cbv beta in HP. destruct HP as [[_ Hnil]|[-> _]]; [|reflexivity].
  rewrite <- Hnil in Hconcat. cbn [concat] in Hconcat. subst text.
  now destruct pre.
Qed.

Lemma tame_no_space s :
  no_space s ->
  Forall (fun c => Textwrap.is_whitespace c = true -> c = " "%char) s.
Proof.
  intros Hs. eapply Forall_impl; [exact Hs|]. intros c Hc Hw.
  apply TextwrapFacts.is_whitespace_isspace in Hw. congruence.
Qed.

Lemma tame_literal s :
  forallb (fun c => negb (Textwrap.is_whitespace c) || Ascii.eqb c " "%char) s
  = true ->
  Forall (fun c => Textwrap.is_whitespace c = true -> c = " "%char) s.
Proof.
  intros H. apply List.Forall_forall. intros c Hin Hw.
  rewrite forallb_forall in H. specialize (H c Hin). rewrite Hw in H.
  cbn [negb orb] in H. now apply Ascii.eqb_eq.
Qed.

Lemma tame_join fromlist :
  Forall no_space fromlist ->
  Forall (fun c => Textwrap.is_whitespace c = true -> c = " "%char)
         (join (py", ") fromlist).
Proof.
  induction 1 as [|n rest Hn _ IH]; [constructor|].
  destruct rest as [|m rest]; [now apply tame_no_space|].
  change (join (py", ") (n :: m :: rest))
    with (n ++ py", " ++ join (py", ") (m :: rest)).
  apply Forall_app. split; [now apply tame_no_space|].
  apply Forall_app. split; [now apply tame_literal | exact IH].
Qed.

Lemma plain_no_space s : plain s -> no_space s.
Proof. now intros [H _]. Qed.

Lemma Forall_plain_no_space l : Forall plain l -> Forall no_space l.
Proof. intros H. eapply Forall_impl; [exact H | apply plain_no_space]. Qed.

(** X14.  A from-import statement that fits in 79 characters is rendered
    on one line, as [from <root>.<name> import (<names>,)] with the names
    separated by a comma and a space, for names without white space or
    hyphen. *)
Theorem short_statement_on_one_line (rootmodname name : str)
    (fromlist : list str) :
  let rawstr :=
    (py"from " ++ rootmodname ++ py"." ++ name ++ py" import (")
    ++ join (py", ") fromlist ++ py",)" in
  fromlist <> [] ->
  plain rootmodname -> plain name -> Forall plain fromlist ->
  length rawstr <= 79 ->
  _pack_fromimport rootmodname (name, fromlist) = rawstr
  /\ contains LF (_pack_fromimport rootmodname (name, fromlist)) = false.
Proof.
  intros rawstr Hne Hroot Hname Hall Hlen.
  apply plain_no_space in Hroot, Hname. apply Forall_plain_no_space in Hall.
  assert (Htame : Forall (fun c => Textwrap.is_whitespace c = true
                                   -> c = " "%char) rawstr).
  { unfold rawstr. repeat (apply Forall_app; split);
      try (apply tame_literal; reflexivity);
      try (apply tame_no_space; assumption).
    apply tame_join; assumption. }
  assert (Hpack : _pack_fromimport rootmodname (name, fromlist) = rawstr).
  { unfold _pack_fromimport. cbn [fst snd].
    destruct fromlist as [|n rest]; [contradiction|].
    cbn [length Nat.ltb Nat.leb]. fold rawstr.
    rewrite (wrap_fits rawstr 79 _
               ((py"from " ++ rootmodname ++ py"." ++ name ++ py" import (")
                ++ join (py", ") (n :: rest) ++ py",") ")"%char).
    - reflexivity.
    - unfold rawstr. rewrite <- !app_assoc. reflexivity.
    - reflexivity.
    - exact Htame.
    - lia. }
  split; [exact Hpack|]. rewrite Hpack.
  apply contains_false_iff. eapply Forall_impl; [exact Htame|].
  intros c Hc ->. specialize (Hc eq_refl). discriminate.
Qed.

Lemma short_statement_on_one_line_witness :
  _pack_fromimport (py"pkg") (py"mod", [py"alpha"; py"beta"; py"gamma"])
  = py"from pkg.mod import (alpha, beta, gamma,)".
Proof.
  destruct (short_statement_on_one_line (py"pkg") (py"mod")
              [py"alpha"; py"beta"; py"gamma"]) as [H _].
  - discriminate.
  - split; [repeat constructor | reflexivity].
  - split; [repeat constructor | reflexivity].
  - repeat (constructor; [split; [repeat constructor | reflexivity]|]).
    constructor.
  - vm_compute. lia.
  - exact H.
Defined.

(** ** The shape of the lines of a wrapped statement *)

Lemma alternating_adjacent a x y b :
  alternating (a ++ x :: y :: b) -> kind y = negb (kind x).
Proof.
  induction a as [|c a IH]; intros H.
  - cbn [app] in H. destruct H as (_ & Hnext & _). exact Hnext.
  - cbn [app] in H. destruct H as (_ & _ & Hrest). now apply IH.
Qed.

(** In a text whose only white space is the space character, a chunk is
    blank exactly when it is a chunk of white space, and the other chunks
    have no white space at all. *)
Lemma split_good text :
  Forall (fun c => isspace c = true -> c = " "%char) text ->
  Forall (fun ch => Textwrap.blank ch = kind ch
                    /\ (kind ch = false -> ch <> [] /\ no_space ch))
         (Textwrap._split text).
Proof.
  intros HT. pose proof (TextwrapFacts._split_alternating text) as Halt.
  rewrite <- (TextwrapFacts.concat_split text) in HT.
  apply List.Forall_forall. intros ch Hin.
  pose proof (TextwrapFacts.alternating_In _ _ Halt Hin) as Hu.
  assert (HTch : Forall (fun c => isspace c = true -> c = " "%char) ch).
  { rewrite List.Forall_forall in HT |- *. intros c Hc. apply HT.
    apply in_concat. exists ch. split; assumption. }
  destruct (kind ch) eqn:Hk.
  - split; [now apply TextwrapFacts.uniform_space_blank | discriminate].
  - assert (Hns : no_space ch).
    { destruct Hu as [_ Hall]. rewrite Hk in Hall.
      apply List.Forall_forall. intros c Hc.
      rewrite List.Forall_forall in Hall, HTch.
      destruct (isspace c) eqn:Es; [|reflexivity].
      specialize (HTch c Hc Es). specialize (Hall c Hc). subst c.
      discriminate. }
    destruct Hu as [Hne _]. split; [|intros _; split; assumption].
    destruct (Textwrap.blank ch) eqn:Hb; [|reflexivity].
    apply TextwrapFacts.blank_iff in Hb. destruct ch as [|c ch];
      [contradiction|].
    inversion Hb; subst. inversion Hns; subst. congruence.
Qed.

(** A line of chunks that starts and ends with a word. *)
Lemma concat_words_shape cur_line :
  (forall ch, last cur_line = Some ch -> ch <> [] /\ no_space ch) ->
  cur_line <> [] ->
  exists pre c, concat cur_line = pre ++ [c] /\ isspace c = false.
Proof.
  intros Hlast Hne.
  destruct (exists_last Hne) as (init & ch & ->).
  destruct (Hlast ch (last_snoc _ _)) as [Hch Hns].
  destruct (exists_last Hch) as (ch' & c & ->).
  exists (concat init ++ ch'), c. split.
  - rewrite concat_app. cbn [concat]. now rewrite app_nil_r, app_assoc.
  - apply Forall_app in Hns. destruct Hns as [_ Hns]. now inversion Hns.
Qed.

Lemma concat_word_first ch rest :
  ch <> [] -> no_space ch ->
  exists c body, concat (ch :: rest) = c :: body /\ isspace c = false.
Proof.
  intros Hne Hns. destruct ch as [|c ch]; [contradiction|].
  exists c, (ch ++ concat rest). split; [reflexivity|]. now inversion Hns.
Qed.

(** One turn of the loop of [_wrap_chunks], on chunks of a text whose only
    white space is the space character: the line it adds, if any, ends
    with a word, and starts with a word when it is not the first line. *)
Lemma wrap_line_shape width ii si lines chunks :
  alternating chunks ->
  Forall (fun ch => Textwrap.blank ch = kind ch
                    /\ (kind ch = false -> ch <> [] /\ no_space ch)) chunks ->
  let indent := match lines with [] => ii | _ :: _ => si end in
  let res := Textwrap.wrap_line width ii si lines chunks in
  alternating res.2
  /\ Forall (fun ch => Textwrap.blank ch = kind ch
                       /\ (kind ch = false -> ch <> [] /\ no_space ch)) res.2
  /\ (res.1 = lines
      \/ exists cur_line,
           res.1 = lines ++ [indent ++ concat cur_line]
           /\ cur_line <> []
           /\ (forall ch, last cur_line = Some ch -> ch <> [] /\ no_space ch)
           /\ (lines <> [] ->
               exists ch rest, cur_line = ch :: rest /\ ch <> []
                               /\ no_space ch)).
Proof.
  intros Halt Hgood indent res.
  set (good := fun ch => Textwrap.blank ch = kind ch
                         /\ (kind ch = false -> ch <> [] /\ no_space ch)) in *.
  set (ch1 := Textwrap.drop_leading lines chunks).
  assert (H1 : alternating ch1 /\ Forall good ch1
               /\ (lines <> [] ->
                   match ch1 with [] => True | ch :: _ => kind ch = false end)).
  { unfold ch1, Textwrap.drop_leading.
    destruct chunks as [|chunk rest].
    - split; [exact I|]. split; [constructor|]. intros _. exact I.
    - destruct lines as [|l ls].
      + split; [exact Halt|]. split; [exact Hgood|]. intros H.
        now contradiction H.
      + inversion Hgood as [|? ? [Hb Hw] Hrest]; subst.
        destruct (Textwrap.blank chunk) eqn:Eb.
        * destruct Halt as (_ & Hnext & Halt').
          split; [exact Halt'|]. split; [exact Hrest|].
          intros _. destruct rest as [|next rest']; [exact I|].
          rewrite Hnext, <- Hb. reflexivity.
        * split; [exact Halt|]. split; [exact Hgood|].
          intros _. now rewrite <- Hb. }
  destruct H1 as (Halt1 & Hgood1 & Hhead1).
  pose proof (TextwrapFacts.take_line_spec
                (width - Z.of_nat (length indent)) ch1) as [Hsplit _].
  subst res. unfold Textwrap.wrap_line. fold indent ch1.
  destruct (Textwrap.take_line (width - Z.of_nat (length indent)) ch1)
    as [cl rest1].
  cbn [fst snd] in Hsplit.
  rewrite Hsplit in Halt1, Hgood1.
  apply TextwrapFacts.alternating_app in Halt1. destruct Halt1 as [Haltc Haltr].
  apply Forall_app in Hgood1. destruct Hgood1 as [Hgoodc Hgoodr].
  assert (Hhead : lines <> [] ->
                  match cl with [] => True | ch :: _ => kind ch = false end).
  { intros Hl. specialize (Hhead1 Hl). rewrite Hsplit in Hhead1.
    destruct cl; [exact I | exact Hhead1]. }
  assert (Hshape : forall cur,
             cur <> [] ->
             (exists tl, cl = cur ++ tl) ->
             (forall ch, last cur = Some ch -> kind ch = false) ->
             cur <> []
             /\ (forall ch, last cur = Some ch -> ch <> [] /\ no_space ch)
             /\ (lines <> [] ->
                 exists ch rest, cur = ch :: rest /\ ch <> [] /\ no_space ch)).
  { intros cur Hne (tl & Hcl) Hlast.
    assert (Hgoodcur : Forall good cur).
    { rewrite Hcl in Hgoodc. apply Forall_app in Hgoodc. tauto. }
    split; [exact Hne|]. split.
    - intros ch Hch. specialize (Hlast ch Hch).
      apply last_Some in Hch. destruct Hch as (init & ->).
      apply Forall_app in Hgoodcur. destruct Hgoodcur as [_ Hg].
      inversion Hg as [|? ? [_ Hw] _]; subst. now apply Hw.
    - intros Hl. specialize (Hhead Hl). rewrite Hcl in Hhead.
      destruct cur as [|ch rest]; [contradiction|].
      exists ch, rest. split; [reflexivity|].
      inversion Hgoodcur as [|? ? [_ Hw] _]; subst. now apply Hw. }
  destruct (TextwrapFacts.drop_trailing_spec cl)
    as [[Heq Hlast]|(chunk & Hcl & Hblank)].
  - rewrite Heq. destruct cl as [|c0 cl0]; cbn [fst snd].
    + split; [exact Haltr|]. split; [exact Hgoodr|]. now left.
    + split; [exact Haltr|]. split; [exact Hgoodr|]. right.
      exists (c0 :: cl0). split; [reflexivity|].
      apply Hshape; [discriminate | exists []; now rewrite app_nil_r |].
      intros ch Hch. specialize (Hlast ch Hch).
      apply last_Some in Hch. destruct Hch as (init & Hinit).
      rewrite Hinit in Hgoodc. apply Forall_app in Hgoodc.
      destruct Hgoodc as [_ Hg]. inversion Hg as [|? ? [Hb _] _]; subst.
      congruence.
  - destruct (Textwrap.drop_trailing cl) as [|c0 cl0] eqn:Hdt; cbn [fst snd].
    + split; [exact Haltr|]. split; [exact Hgoodr|]. now left.
    + split; [exact Haltr|]. split; [exact Hgoodr|]. right.
      exists (c0 :: cl0). split; [reflexivity|].
      apply Hshape; [discriminate | now exists [chunk] |].
      intros ch Hch. apply last_Some in Hch. destruct Hch as (init & Hinit).
      rewrite Hcl, Hinit, <- app_assoc in Haltc, Hgoodc. cbn [app] in Haltc, Hgoodc.
      apply alternating_adjacent in Haltc.
      apply Forall_app in Hgoodc. destruct Hgoodc as [_ Hg].
      inversion Hg as [|? ? _ Hg']; subst.
      inversion Hg' as [|? ? [Hb _] _]; subst.
      rewrite <- Hb, Hblank in Haltc. now destruct (kind ch).
Qed.

(** The lines [textwrap.wrap] makes of a text whose only white space is
    the space character: none ends with white space, and each line after
    the first is the indentation followed by a word. *)
Lemma wrap_shape text width si :
  Forall (fun c => isspace c = true -> c = " "%char) text ->
  let lines := Textwrap.wrap text width si in
  Forall (fun line => exists pre c, line = pre ++ [c] /\ isspace c = false)
         lines
  /\ Forall (fun line => exists c body,
                           line = si ++ c :: body /\ isspace c = false)
            (drop 1 lines).
Proof.
  intros HT lines.
  assert (Htame : Forall (fun c => Textwrap.is_whitespace c = true
                                   -> c = " "%char) text).
  { eapply Forall_impl; [exact HT|]. intros c Hc Hw. apply Hc.
    now apply TextwrapFacts.is_whitespace_isspace. }
  subst lines. unfold Textwrap.wrap. rewrite munge_id by exact Htame.
  set (good := fun ch => Textwrap.blank ch = kind ch
                         /\ (kind ch = false -> ch <> [] /\ no_space ch)).
  set (lastOK := fun line : str =>
                   exists pre c, line = pre ++ [c] /\ isspace c = false).
  set (contOK := fun line : str =>
                   exists c body, line = si ++ c :: body /\ isspace c = false).
  assert (HP : (fun lines chunks =>
                  alternating chunks /\ Forall good chunks
                  /\ Forall lastOK lines /\ Forall contOK (drop 1 lines))
                 (Textwrap._wrap_chunks width [] si [] (Textwrap._split text))
                 []).
  { apply (TextwrapFacts._wrap_chunks_invariant
             (fun lines chunks =>
                alternating chunks /\ Forall good chunks
                /\ Forall lastOK lines /\ Forall contOK (drop 1 lines))).
    - intros lines chunk rest (Halt & Hgood & Hlast & Hcont).
      destruct (wrap_line_shape width [] si lines (chunk :: rest) Halt Hgood)
        as (Halt' & Hgood' & Hres).
      split; [exact Halt'|]. split; [exact Hgood'|].
      destruct Hres as [->|(cur & -> & Hne & Hl & Hh)];
        [split; assumption|].
      destruct (concat_words_shape cur Hl Hne) as (pre & c & Hcur & Hc).
      split.
      + apply Forall_app. split; [exact Hlast|]. constructor; [|constructor].
        exists (match lines with [] => [] | _ :: _ => si end ++ pre), c.
        split; [|exact Hc]. rewrite Hcur. now rewrite app_assoc.
      + destruct lines as [|l ls]; [constructor|].
        cbn [app drop]. cbn [drop] in Hcont.
        apply Forall_app. split; [exact Hcont|]. constructor; [|constructor].
        destruct (Hh ltac:(discriminate)) as (ch & tl & -> & Hch & Hns).
        destruct (concat_word_first ch tl Hch Hns) as (c1 & body & Heq & Hc1).
        exists c1, body. rewrite Heq. split; [reflexivity | exact Hc1].
    - split; [apply TextwrapFacts._split_alternating|].
      split; [now apply split_good|]. split; constructor. }
  cbv beta in HP. destruct HP as (_ & _ & H1 & H2). split; assumption.
Qed.

Lemma only_space_no_space s :
  no_space s -> Forall (fun c => isspace c = true -> c = " "%char) s.
Proof.
  intros Hs. eapply Forall_impl; [exact Hs|]. intros c Hc Hw. congruence.
Qed.

Lemma only_space_literal s :
  forallb (fun c => negb (isspace c) || Ascii.eqb c " "%char) s = true ->
  Forall (fun c => isspace c = true -> c = " "%char) s.
Proof.
  intros H. apply List.Forall_forall. intros c Hin Hw.
  rewrite forallb_forall in H. specialize (H c Hin). rewrite Hw in H.
  cbn [negb orb] in H. now apply Ascii.eqb_eq.
Qed.

Lemma only_space_join fromlist :
  Forall no_space fromlist ->
  Forall (fun c => isspace c = true -> c = " "%char) (join (py", ") fromlist).
Proof.
  induction 1 as [|n rest Hn _ IH]; [constructor|].
  destruct rest as [|m rest]; [now apply only_space_no_space|].
  change (join (py", ") (n :: m :: rest))
    with (n ++ py", " ++ join (py", ") (m :: rest)).
  apply Forall_app. split; [now apply only_space_no_space|].
  apply Forall_app. split; [now apply only_space_literal | exact IH].
Qed.

(** X15.  The lines of a rendered from-import statement, for names without
    white space or hyphen: no line ends with white space, and every line after the
    first is the indentation, as many spaces as
    [from <root>.<name> import (] is long, followed at once by a name, so
    that the names of the continuation lines stand under the first name. *)
Theorem continuation_lines_aligned (rootmodname name : str)
    (fromlist : list str) :
  let from_module_str :=
    py"from " ++ rootmodname ++ py"." ++ name ++ py" import (" in
  let newline_prefix := times " "%char (length from_module_str) in
  let rawstr :=
    if 0 <? length fromlist
    then from_module_str ++ join (py", ") fromlist ++ py",)"
    else [] in
  let lines := Textwrap.wrap rawstr 79 newline_prefix in
  plain rootmodname -> plain name -> Forall plain fromlist ->
  _pack_fromimport rootmodname (name, fromlist) = join [LF] lines
  /\ Forall (fun line => exists pre c, line = pre ++ [c] /\ isspace c = false)
            lines
  /\ Forall (fun line => exists c body,
                           line = newline_prefix ++ c :: body
                           /\ isspace c = false)
            (drop 1 lines).
Proof.
  intros from_module_str newline_prefix rawstr lines Hroot Hname Hall.
  apply plain_no_space in Hroot, Hname. apply Forall_plain_no_space in Hall.
  split; [reflexivity|]. apply wrap_shape.
  unfold rawstr. destruct (0 <? length fromlist); [|constructor].
  unfold from_module_str. repeat (apply Forall_app; split);
    try (apply only_space_literal; reflexivity);
    try (apply only_space_no_space; assumption).
  apply only_space_join; assumption.
Qed.

Lemma continuation_lines_aligned_witness :
  let names := [repeat "a"%char 30; repeat "b"%char 30; repeat "c"%char 30] in
  split_on LF (_pack_fromimport (py"pkg") (py"mod", names))
  = [py"from pkg.mod import (" ++ repeat "a"%char 30 ++ py",";
     repeat " "%char 21 ++ repeat "b"%char 30 ++ py",";
     repeat " "%char 21 ++ repeat "c"%char 30 ++ py",)"].
Proof.
  intros names.
  destruct (continuation_lines_aligned (py"pkg") (py"mod") names)
    as (Hpack & _ & _).
  - split; [repeat constructor | reflexivity].
  - split; [repeat constructor | reflexivity].
  - repeat (constructor; [split; [repeat constructor | reflexivity]|]).
    constructor.
  - rewrite Hpack. vm_compute. reflexivity.
Defined.

(** ** Rendering with the default root *)

(** X16.  With the root ['.'] the import lines are relative imports from
    the package, [from . import <name>], and the from-import statements
    name the submodule with one dot, [from .<name> import (...)], not two:
    the root is left out of the statement.  The words of the statements
    are given for names without white space or hyphen. *)
Theorem relative_root_rendering (imports : list str)
    (from_imports : list (str * list str)) :
  Forall (fun entry => plain entry.1 /\ Forall plain entry.2) from_imports ->
  _make_imports_str imports (py".")
  = Ok (join [LF] (map (fun m => py"from . import " ++ m) imports))
  /\ _make_fromimport_str from_imports (py".")
     = join [LF] (map (_pack_fromimport []) from_imports)
  /\ split (_make_fromimport_str from_imports (py"."))
     = concat (map (fun entry =>
                      match name_words entry.2 with
                      | [] => []
                      | first :: others =>
                          py"from" :: (py"." ++ entry.1) :: py"import"
                          :: (py"(" ++ first) :: others
                      end) from_imports).
Proof.
  intros Hplain. split; [|split].
  - now rewrite _make_imports_str_lines.
  - reflexivity.
  - unfold _make_fromimport_str.
    rewrite bool_decide_eq_true_2 by reflexivity.
    rewrite split_join_LF, map_map. f_equal.
    induction Hplain as [|entry rest [[Hname _] Hnames] _ IH]; [reflexivity|].
    cbn [map]. rewrite IH. f_equal.
    rewrite _pack_fromimport_words;
      [reflexivity | constructor | exact Hname |].
    now apply Forall_plain_no_space.
Qed.

Lemma relative_root_rendering_witness :
  _make_imports_str [py"a"] (py".") = Ok (py"from . import a")
  /\ _make_fromimport_str [(py"a", [py"foo"; py"bar"])] (py".")
     = py"from .a import (foo, bar,)".
Proof.
  destruct (relative_root_rendering [py"a"] [(py"a", [py"foo"; py"bar"])])
    as (H1 & H2 & _).
  - repeat constructor.
  - split; [exact H1 | rewrite H2; reflexivity].
Defined.

(** ** The parts of the block *)

Lemma split_on_app_sep a b :
  split_on LF (a ++ LF :: b) = split_on LF a ++ split_on LF b.
Proof.
  induction a as [|c a IH]; [reflexivity|].
  cbn [app split_on]. rewrite IH.
  destruct (Ascii.eqb c LF); [reflexivity|].
  pose proof (split_on_nonnil LF a).
  destruct (split_on LF a); [contradiction | reflexivity].
Qed.

Lemma content_lines_app_sep a b :
  content_lines (a ++ LF :: b) = content_lines a ++ content_lines b.
Proof.
  unfold content_lines. now rewrite split_on_app_sep, List.filter_app.
Qed.

Lemma content_lines_join parts :
  content_lines (join [LF] parts) = concat (map content_lines parts).
Proof.
  induction parts as [|p rest IH]; [reflexivity|].
  destruct rest as [|q rest].
  - cbn [join map concat]. now rewrite app_nil_r.
  - change (join [LF] (p :: q :: rest)) with (p ++ LF :: join [LF] (q :: rest)).
    rewrite content_lines_app_sep, IH. reflexivity.
Qed.

Lemma content_lines_nonempty_parts parts :
  concat (map content_lines (List.filter (fun p : str => 0 <? length p) parts))
  = concat (map content_lines parts).
Proof.
  induction parts as [|p rest IH]; [reflexivity|].
  destruct p as [|c p].
  - exact IH.
  - change (List.filter (fun p0 : str => 0 <? length p0) ((c :: p) :: rest))
      with ((c :: p) :: List.filter (fun p0 : str => 0 <? length p0) rest).
    cbn [map concat]. now rewrite IH.
Qed.

Lemma split_on_join parts :
  parts <> [] ->
  split_on LF (join [LF] parts) = concat (map (split_on LF) parts).
Proof.
  induction parts as [|p rest IH]; intros Hne; [contradiction|].
  destruct rest as [|q rest].
  - cbn [join map concat]. now rewrite app_nil_r.
  - change (join [LF] (p :: q :: rest)) with (p ++ LF :: join [LF] (q :: rest)).
    rewrite split_on_app_sep, IH by discriminate. reflexivity.
Qed.

Lemma part_lines_nonempty_parts parts :
  concat (map (split_on LF) (List.filter (fun p : str => 0 <? length p) parts))
  = concat (map part_lines parts).
Proof.
  induction parts as [|p rest IH]; [reflexivity|].
  destruct p as [|c p].
  - exact IH.
  - change (List.filter (fun p0 : str => 0 <? length p0) ((c :: p) :: rest))
      with ((c :: p) :: List.filter (fun p0 : str => 0 <? length p0) rest).
    cbn [map concat part_lines]. now rewrite IH.
Qed.

(** The lines of the parts that are not empty, put together with newlines:
    a part that is empty gives no line. *)
Lemma split_on_join_nonempty_parts parts :
  split_on LF (join [LF] (List.filter (fun p : str => 0 <? length p) parts))
  = match concat (map part_lines parts) with
    | [] => [[]]
    | l :: ls => l :: ls
    end.
Proof.
  rewrite <- part_lines_nonempty_parts.
  destruct (List.filter (fun p : str => 0 <? length p) parts) as [|p ps] eqn:E;
    [reflexivity|].
  rewrite split_on_join by discriminate. cbn [map concat].
  pose proof (split_on_nonnil LF p).
  destruct (split_on LF p); [contradiction | reflexivity].
Qed.

(** X17.  The lines of the block [_initstr] renders, the empty ones
    included, are, in this order, the two lines of the header when it is
    asked for, the lines of the import string when it is not empty and the
    lines of the from-import string when it is not empty: the parts are
    put together without loss, and a part that is empty leaves nothing
    behind, neither a line nor a newline.  The block is empty exactly when
    every part is.  [_initstr] fails only when the import lines do. *)
Theorem _initstr_content (modname : str) (imports : list str)
    (from_imports : list (str * list str)) (withheader : bool) :
  match _initstr modname imports from_imports withheader with
  | Ok block =>
      exists import_str,
        _make_imports_str imports modname = Ok import_str
        /\ (let from_str := _make_fromimport_str from_imports modname in
            let all_lines :=
              (if withheader
               then [py"# flake8: noqa";
                     py"from __future__ import absolute_import, division, print_function, unicode_literals"]
               else [])
              ++ part_lines import_str ++ part_lines from_str in
            split_on LF block
            = match all_lines with
              | [] => [[]]
              | l :: ls => l :: ls
              end
            /\ (block = []
                <-> withheader = false /\ import_str = [] /\ from_str = []))
        /\ content_lines block
           = (if withheader
              then [py"# flake8: noqa";
                    py"from __future__ import absolute_import, division, print_function, unicode_literals"]
              else [])
             ++ content_lines import_str
             ++ content_lines (_make_fromimport_str from_imports modname)
  | Raise e => _make_imports_str imports modname = Raise e
  end.
Proof.
  unfold _initstr.
  destruct (_make_imports_str imports modname) as [import_str|e];
    [|reflexivity].
  cbn [rbind]. exists import_str. split; [reflexivity|]. split.
  - split.
    + rewrite split_on_join_nonempty_parts.
      cbn [map concat]. rewrite app_nil_r.
      destruct withheader; reflexivity.
    + generalize (_make_fromimport_str from_imports modname). intros from_str.
      destruct withheader, import_str as [|c i], from_str as [|d f];
        (split; [intros H; try discriminate H; auto
                | intros (H1 & H2 & H3); try discriminate; reflexivity]).
  - rewrite content_lines_join, content_lines_nonempty_parts.
    cbn [map concat]. rewrite app_nil_r. f_equal.
    destruct withheader; reflexivity.
Qed.

(** ** The block has no line the scan would stop at *)

Lemma startswith_app_sep a c t p :
  contains c p = false -> startswith (a ++ c :: t) p = startswith a p.
Proof.
  revert a. induction p as [|x p IH]; intros a Hp; [reflexivity|].
  unfold contains in Hp. cbn [existsb] in Hp.
  apply orb_false_iff in Hp. destruct Hp as [Hcx Hp].
  destruct a as [|y a]; cbn [app startswith].
  - now rewrite Hcx.
  - now rewrite (IH a Hp).
Qed.

Lemma startswith_prefix s t p :
  startswith s p = true -> startswith (s ++ t) p = true.
Proof.
  revert s. induction p as [|x p IH]; intros s H; [reflexivity|].
  destruct s as [|y s]; [discriminate|]. cbn [app startswith] in *.
  apply andb_true_iff in H. destruct H as [-> H]. now apply IH.
Qed.

(** What makes a line a marker is at its start, after the white space. *)
Lemma marker_prefix line :
  is_marker line = true ->
  strip line = [DQUOTE; DQUOTE; DQUOTE]
  \/ strip line = [SQUOTE; SQUOTE; SQUOTE]
  \/ startswith (lstrip line) (py"from __future__") = true
  \/ startswith (lstrip line) (py"#") = true.
Proof.
  unfold is_marker, is_docstring_delimiter. intros H.
  destruct (rstrip_spec (lstrip line)) as (ws & _ & Hr).
  fold (strip line) in Hr.
  apply orb_true_iff in H. destruct H as [H|H].
  - apply orb_true_iff in H. destruct H as [H|H].
    + apply orb_true_iff in H. destruct H as [H|H];
        apply bool_decide_eq_true_1 in H; auto.
    + right. right. left. rewrite <- Hr. now apply startswith_prefix.
  - right. right. right. rewrite <- Hr. now apply startswith_prefix.
Qed.

Lemma split_strip s : split (strip s) = split s.
Proof.
  destruct (TextwrapFacts.lstrip_suffix s) as (ws & Hws & Hs).
  destruct (rstrip_spec (lstrip s)) as (ws' & Hws' & Hr).
  fold (strip s) in Hr.
  rewrite Hs at 2. rewrite TextwrapFacts.split_app_space_l by exact Hws.
  rewrite <- Hr. rewrite TextwrapFacts.split_app.
  - now rewrite (TextwrapFacts.split_isspace ws'), app_nil_r.
  - right. destruct Hws' as [|d ws' Hd _]; [discriminate|].
    cbn [hd_space]. rewrite Hd. discriminate.
Qed.

Lemma split_lstrip s : split (lstrip s) = split s.
Proof.
  destruct (TextwrapFacts.lstrip_suffix s) as (ws & Hws & Hs).
  rewrite Hs at 2. now rewrite TextwrapFacts.split_app_space_l.
Qed.

(** The first word of a text that starts with a word. *)
Lemma split_word_prefix p : forall rest,
  p <> [] -> no_space p ->
  exists w tl, split (p ++ rest) = (p ++ w) :: tl.
Proof.
  induction p as [|c p IH]; intros rest Hne Hp; [contradiction|].
  inversion Hp as [|? ? Hc Hp']; subst.
  cbn [app]. rewrite TextwrapFacts.split_cons, Hc.
  destruct p as [|d p].
  - cbn [app]. destruct rest as [|e rest]; cbn [hd_space].
    + now exists [], [].
    + destruct (isspace e) eqn:Ee.
      * now exists [], (split (e :: rest)).
      * pose proof (TextwrapFacts.split_nonspace_hd (e :: rest)) as Hnn.
        cbn [hd_space] in Hnn. rewrite Ee in Hnn. specialize (Hnn eq_refl).
        destruct (split (e :: rest)) as [|w ws]; [contradiction|].
        now exists w, ws.
  - destruct (IH rest ltac:(discriminate) Hp') as (w & tl & Heq).
    inversion Hp' as [|? ? Hd _]; subst.
    cbn [app hd_space] in *. rewrite Hd, Heq. now exists w, tl.
Qed.

Lemma in_concat_segment {A} (parts : list (list A)) part :
  In part parts -> exists a b, concat parts = a ++ part ++ b.
Proof.
  induction parts as [|p parts IH]; intros Hin; [contradiction|].
  destruct Hin as [->|Hin].
  - exists [], (concat parts). reflexivity.
  - destruct (IH Hin) as (a & b & Heq). exists (p ++ a), b.
    cbn [concat]. now rewrite Heq, <- app_assoc.
Qed.

Lemma name_words_comma fromlist :
  Forall (fun w => contains ","%char w = true) (name_words fromlist).
Proof.
  induction fromlist as [|n rest IH]; [constructor|].
  destruct rest as [|m rest].
  - constructor; [|constructor]. rewrite contains_app. apply orb_true_r.
  - change (name_words (n :: m :: rest))
      with ((n ++ py",") :: name_words (m :: rest)).
    constructor; [|exact IH]. rewrite contains_app. apply orb_true_r.
Qed.

(** The words of a statement: [from], the dotted name, then [import] and
    words with a comma. *)
Lemma statement_words_shape rootmodname tup :
  statement_words rootmodname tup = []
  \/ exists tl,
       statement_words rootmodname tup
       = py"from" :: (rootmodname ++ py"." ++ tup.1) :: tl
       /\ Forall (fun w => contains ","%char w = true \/ w = py"import") tl.
Proof.
  unfold statement_words. pose proof (name_words_comma tup.2) as Hc.
  destruct (name_words tup.2) as [|first others]; [now left|]. right.
  eexists. split; [reflexivity|]. inversion Hc as [|? ? Hf Ho]; subst.
  constructor; [now right|]. constructor.
  - left. rewrite contains_app, Hf. apply orb_true_r.
  - eapply Forall_impl; [exact Ho|]. intros w Hw. now left.
Qed.

Lemma statement_words_In rootmodname tup w :
  In w (statement_words rootmodname tup) ->
  w = py"from" \/ w = rootmodname ++ py"." ++ tup.1
  \/ contains ","%char w = true \/ w = py"import".
Proof.
  destruct (statement_words_shape rootmodname tup) as [->|(tl & -> & Htl)];
    [contradiction|].
  intros [<-|[<-|Hin]]; [now left | now right; left|].
  right. right. rewrite List.Forall_forall in Htl. now apply Htl.
Qed.

(** No line of a wrapped from-import statement is a marker. *)
Lemma statement_line_no_marker rootmodname tup line :
  no_space rootmodname -> no_space tup.1 -> Forall no_space tup.2 ->
  no_hash rootmodname -> no_hash tup.1 -> Forall no_hash tup.2 ->
  startswith rootmodname (py"__future__") = false ->
  let from_module_str :=
    py"from " ++ rootmodname ++ py"." ++ tup.1 ++ py" import (" in
  let rawstr :=
    if 0 <? length tup.2
    then from_module_str ++ join (py", ") tup.2 ++ py",)"
    else [] in
  In line (Textwrap.wrap rawstr 79
             (times " "%char (length from_module_str))) ->
  is_marker line = false.
Proof.
  intros Hroot Hname Hnames Hhroot Hhname Hhnames Hfuture from_module_str
    rawstr Hin.
  destruct (is_marker line) eqn:Hm; [exfalso | reflexivity].
  pose proof (_pack_fromimport_words rootmodname tup Hroot Hname Hnames)
    as Hwords.
  unfold _pack_fromimport in Hwords. fold from_module_str rawstr in Hwords.
  rewrite split_join_LF in Hwords.
  set (lines := Textwrap.wrap rawstr 79 _) in *.
  assert (Hhash : no_hash line).
  { pose proof (no_hash_wrap rawstr 79 (times " "%char (length from_module_str)))
      as Hw.
    rewrite List.Forall_forall in Hw. apply Hw; [| |exact Hin].
    - unfold rawstr. destruct (0 <? length tup.2); [|reflexivity].
      apply no_hash_app.
      + unfold from_module_str.
        repeat (apply no_hash_app; [first [reflexivity | assumption]|]).
        reflexivity.
      + apply no_hash_app; [|reflexivity].
        apply no_hash_join; [reflexivity | exact Hhnames].
    - unfold times. apply contains_false_iff, List.Forall_forall.
      intros c Hc. apply repeat_spec in Hc. subst c. discriminate. }
  assert (Hseg : exists a b,
             statement_words rootmodname tup = a ++ split line ++ b).
  { rewrite <- Hwords. apply in_concat_segment. now apply in_map. }
  destruct Hseg as (a & b & Hseg).
  assert (Hword : forall w, In w (split line) ->
                  w = py"from" \/ w = rootmodname ++ py"." ++ tup.1
                  \/ contains ","%char w = true \/ w = py"import").
  { intros w Hw. apply (statement_words_In rootmodname tup).
    rewrite Hseg. apply in_or_app. right. apply in_or_app. now left. }
  assert (Hdot : forall q, contains "."%char q = false ->
                 q <> rootmodname ++ py"." ++ tup.1).
  { intros q Hq ->. rewrite !contains_app in Hq.
    cbn in Hq. rewrite orb_true_r in Hq. discriminate. }
  assert (Hquote : forall q, split line = [q] -> q <> py"from" ->
                   contains "."%char q = false ->
                   contains ","%char q = false -> q <> py"import" -> False).
  { intros q Hq H1 H2 H3 H4.
    destruct (Hword q) as [H|[H|[H|H]]]; try contradiction.
    - rewrite Hq. now left.
    - now apply (Hdot q).
    - congruence. }
  destruct (marker_prefix line Hm) as [Hs|[Hs|[Hs|Hs]]].
  - apply (Hquote [DQUOTE; DQUOTE; DQUOTE]);
      [|discriminate|reflexivity|reflexivity|discriminate].
    rewrite <- split_strip, Hs. reflexivity.
  - apply (Hquote [SQUOTE; SQUOTE; SQUOTE]);
      [|discriminate|reflexivity|reflexivity|discriminate].
    rewrite <- split_strip, Hs. reflexivity.
  - apply startswith_take in Hs.
    assert (Hl : lstrip line
                 = py"from" ++ " "%char
                   :: (py"__future__" ++ drop 15 (lstrip line))).
    { rewrite <- (take_drop 15 (lstrip line)) at 1.
      change (length (py"from __future__")) with 15 in Hs. now rewrite Hs. }
    assert (Hsplit : exists w tl,
               split line = py"from" :: (py"__future__" ++ w) :: tl).
    { rewrite <- split_lstrip, Hl.
      rewrite split_word_app;
        [|discriminate|repeat constructor|reflexivity].
      rewrite TextwrapFacts.split_cons. change (isspace " "%char) with true.
      cbv iota.
      destruct (split_word_prefix (py"__future__") (drop 15 (lstrip line)))
        as (w & tl & Heq); [discriminate | repeat constructor|].
      rewrite Heq. now exists w, tl. }
    destruct Hsplit as (w & tl & Hsplit). rewrite Hsplit in Hseg.
    destruct (statement_words_shape rootmodname tup)
      as [Hnil|(tl0 & Heq & Htl0)].
    { rewrite Hnil in Hseg. now destruct a. }
    rewrite Heq in Hseg. destruct a as [|x a].
    + cbn [app] in Hseg. injection Hseg as Hmod _.
      assert (Hsw : startswith (rootmodname ++ "."%char :: tup.1)
                      (py"__future__") = true).
      { transitivity (startswith (py"__future__" ++ w) (py"__future__"));
          [|apply startswith_app].
        f_equal. exact Hmod. }
      rewrite startswith_app_sep in Hsw by reflexivity. congruence.
    + assert (Hrest : (rootmodname ++ py"." ++ tup.1) :: tl0
                      = a ++ (py"from" :: (py"__future__" ++ w) :: tl) ++ b)
        by (cbn [app] in Hseg; injection Hseg as _ Hrest; exact Hrest).
      assert (Hin2 : In (py"from")
                        (a ++ (py"from" :: (py"__future__" ++ w) :: tl) ++ b))
        by (apply in_or_app; right; now left).
      rewrite <- Hrest in Hin2. destruct Hin2 as [Hh|Hh].
      * apply (Hdot (py"from")); [reflexivity | symmetry; exact Hh].
      * rewrite List.Forall_forall in Htl0.
        destruct (Htl0 _ Hh) as [Hc|Hc]; discriminate.
  - destruct (lstrip line) as [|c r] eqn:El; [discriminate|].
    cbn in Hs. apply andb_true_iff in Hs. destruct Hs as [Hs _].
    apply Ascii.eqb_eq in Hs. subst c.
    pose proof (contains_lstrip "#"%char line Hhash) as Hl.
    rewrite El in Hl. discriminate.
Qed.

Lemma munge_no_LF text : contains LF (Textwrap._munge_whitespace text) = false.
Proof.
  unfold Textwrap._munge_whitespace. apply contains_false_iff.
  apply List.Forall_forall. intros d Hd. apply List.in_map_iff in Hd.
  destruct Hd as (c & <- & _).
  destruct (Textwrap.is_whitespace c) eqn:E; [discriminate|].
  intros ->. discriminate.
Qed.

(** The lines [textwrap.wrap] makes hold no newline. *)
Lemma wrap_no_LF text width si :
  contains LF si = false ->
  Forall (fun line => contains LF line = false) (Textwrap.wrap text width si).
Proof.
  intros Hsi. unfold Textwrap.wrap.
  set (free := fun s : str => contains LF s = false).
  assert (Hinv :
    Forall free (Textwrap._wrap_chunks width [] si []
                   (Textwrap._split (Textwrap._munge_whitespace text)))
    /\ Forall free []).
  { apply (TextwrapFacts._wrap_chunks_invariant
             (fun lines chunks => Forall free lines /\ Forall free chunks)).
    - intros lines chunk rest [Hl Hc].
      destruct (TextwrapFacts.wrap_line_spec width [] si lines (chunk :: rest))
        as (leading & cur & trailing & Hchunks & _ & _ & Hout & _).
      cbv zeta in Hout. rewrite Hout. rewrite Hchunks in Hc.
      apply Forall_app in Hc. destruct Hc as [_ Hc].
      apply Forall_app in Hc. destruct Hc as [Hcur Hc].
      apply Forall_app in Hc. destruct Hc as [_ Hrest].
      split; [|exact Hrest].
      destruct cur as [|c0 cur0]; [exact Hl|].
      apply Forall_app. split; [exact Hl|]. constructor; [|constructor].
      unfold free. rewrite contains_app. apply orb_false_iff. split.
      + destruct lines; [reflexivity | exact Hsi].
      + apply contains_false_iff. apply Forall_concat.
        eapply Forall_impl; [exact Hcur|]. intros ch Hch.
        now apply contains_false_iff.
    - split; [constructor|].
      apply contains_concat. rewrite TextwrapFacts.concat_split.
      apply munge_no_LF. }
  apply Hinv.
Qed.

Lemma Forall_lines_join (P : str -> Prop) parts :
  P [] ->
  Forall (fun p => Forall P (split_on LF p)) parts ->
  Forall P (split_on LF (join [LF] parts)).
Proof.
  intros Hnil Hall. induction Hall as [|p rest Hp Hrest IH].
  - now constructor.
  - destruct rest as [|q rest]; [exact Hp|].
    change (join [LF] (p :: q :: rest)) with (p ++ LF :: join [LF] (q :: rest)).
    rewrite split_on_app_sep. apply Forall_app. now split.
Qed.

(** An import line is no marker, for a root that does not start with
    [__future__]. *)
Lemma import_line_no_marker rootmodname name :
  startswith rootmodname (py"__future__") = false ->
  is_marker (py"from " ++ rootmodname ++ py" import " ++ name) = false.
Proof.
  intros Hfuture.
  destruct (is_marker _) eqn:Hm; [exfalso | reflexivity].
  set (rest := rootmodname ++ py" import " ++ name) in *.
  assert (Hl : lstrip (py"from " ++ rest) = py"from " ++ rest) by reflexivity.
  assert (Hstrip : exists tail, strip (py"from " ++ rest) = "f"%char :: tail).
  { unfold strip. rewrite Hl. cbn [app list_ascii_of_string rstrip].
    destruct (rstrip _); eexists; reflexivity. }
  destruct Hstrip as (tail & Hstrip).
  destruct (marker_prefix _ Hm) as [Hs|[Hs|[Hs|Hs]]].
  - rewrite Hstrip in Hs. discriminate.
  - rewrite Hstrip in Hs. discriminate.
  - rewrite Hl in Hs.
    change (startswith (rootmodname ++ " "%char :: py"import " ++ name)
              (py"__future__") = true) in Hs.
    rewrite startswith_app_sep in Hs by reflexivity. congruence.
  - rewrite Hl in Hs. discriminate.
Qed.

Lemma no_space_LF_free s : no_space s -> contains LF s = false.
Proof.
  intros Hs. apply contains_false_iff. eapply Forall_impl; [exact Hs|].
  intros c Hc ->. discriminate.
Qed.

(** The block rendered from a neutral plan has no marker line. *)
Lemma block_no_marker modname imports from_imports initstr :
  neutral_plan (modname, imports, from_imports) ->
  _initstr modname imports from_imports false = Ok initstr ->
  Forall (fun l => is_marker l = false) (split_on LF initstr).
Proof.
  intros ([Hmod _] & Hhmod & Hpct & Hfuture & Himports & Hentries) Hinit.
  cbn [fst snd] in *.
  unfold _initstr in Hinit.
  rewrite _make_imports_str_lines in Hinit by exact Hpct.
  assert (Heq : initstr
                = join [LF]
                    (List.filter (fun str_ : str => 0 <? length str_)
                       [[];
                        join [LF]
                          (map (fun name =>
                                  py"from " ++ modname ++ py" import " ++ name)
                               imports);
                        _make_fromimport_str from_imports modname]))
    by (symmetry; unfold rbind in Hinit; injection Hinit as Hinit;
        exact Hinit).
  rewrite Heq. clear Heq Hinit.
  apply Forall_lines_join; [reflexivity|].
  apply List.Forall_forall. intros part Hpart.
  apply List.filter_In in Hpart. destruct Hpart as [Hpart _].
  destruct Hpart as [<-|[<-|[<-|[]]]].
  - constructor; [reflexivity | constructor].
  - (* the import lines *)
    apply Forall_lines_join; [reflexivity|]. apply Forall_map.
    eapply Forall_impl; [exact Himports|]. intros m Hm. cbv beta.
    rewrite split_on_LF_free.
    + constructor; [|constructor]. now apply import_line_no_marker.
    + rewrite !contains_app, (no_space_LF_free _ Hmod), (no_space_LF_free _ Hm).
      reflexivity.
  - (* the from-import statements *)
    unfold _make_fromimport_str.
    set (root := if bool_decide (modname = py".") then [] else modname).
    assert (Hroot : no_space root /\ no_hash root
                    /\ startswith root (py"__future__") = false).
    { unfold root. destruct (bool_decide (modname = py"."));
        [repeat split; constructor | repeat split; assumption]. }
    destruct Hroot as (Hr1 & Hr2 & Hr3).
    apply Forall_lines_join; [reflexivity|]. apply Forall_map.
    eapply Forall_impl; [exact Hentries|].
    intros entry ([Hname _] & Hhname & Hnames). cbv beta.
    unfold _pack_fromimport.
    apply Forall_lines_join; [reflexivity|].
    pose proof (wrap_no_LF
                  (if 0 <? length entry.2
                   then (py"from " ++ root ++ py"." ++ entry.1
                         ++ py" import (")
                        ++ join (py", ") entry.2 ++ py",)"
                   else [])
                  79
                  (times " "%char
                     (length (py"from " ++ root ++ py"." ++ entry.1
                              ++ py" import (")))) as HLF.
    rewrite List.Forall_forall in HLF.
    apply List.Forall_forall. intros line Hline.
    rewrite split_on_LF_free.
    + constructor; [|constructor].
      apply (statement_line_no_marker root entry line); try assumption.
      * eapply Forall_impl; [exact Hnames|]. now intros n [[Hn _] _].
      * eapply Forall_impl; [exact Hnames|]. now intros n [_ Hn].
    + apply HLF; [|exact Hline].
      unfold times. apply contains_false_iff, List.Forall_forall.
      intros c Hc. apply repeat_spec in Hc. subst c. discriminate.
Qed.

(** X18.  The block rendered without header from a plan has no line the
    scan of the init file would stop at: no line is a comment, a docstring
    delimiter or a future import, nor, then, a begin or an end tag, for a
    root name without [%] that does not start with [__future__] and names
    without white space, hyphen or [#]; and each line, with any white
    space put before it as indentation, stays such a line. *)
Theorem rendered_block_no_marker (modname : str) (imports : list str)
    (from_imports : list (str * list str)) (initstr : str) :
  neutral_plan (modname, imports, from_imports) ->
  _initstr modname imports from_imports false = Ok initstr ->
  Forall (fun l => is_marker l = false
                   /\ is_begin l = false /\ is_end l = false)
         (split_on LF initstr)
  /\ forall indent,
       Forall (fun c => isspace c = true) indent ->
       contains LF indent = false ->
       Forall (fun l => is_marker l = false)
              (readlines (_indent initstr indent ++ [LF])).
Proof.
  intros Hplan Hinit.
  pose proof (block_no_marker _ _ _ _ Hplan Hinit) as Hmarker.
  split.
  - eapply Forall_impl; [exact Hmarker|]. intros l Hl.
    split; [exact Hl|]. split.
    + destruct (is_begin l) eqn:E; [|reflexivity].
      apply begin_is_marker in E. congruence.
    + destruct (is_end l) eqn:E; [|reflexivity].
      apply end_is_marker in E. congruence.
  - intros indent Hws HLF. now apply block_lines_neutral.
Qed.

Lemma rendered_block_no_marker_witness :
  Forall (fun l => is_marker l = false /\ is_begin l = false
                   /\ is_end l = false)
         (split_on LF (py"from pkg import a" ++ [LF] ++ py"from pkg import b"
                       ++ [LF] ++ py"from pkg.a import (foo,)" ++ [LF])).
Proof.
  apply (rendered_block_no_marker (py"pkg") [py"a"; py"b"]
           [(py"a", [py"foo"]); (py"b", [])]).
  - unfold neutral_plan. cbn [fst snd].
    repeat split; repeat constructor.
  - vm_compute. reflexivity.
Defined.

(** ** A second run *)

Section SecondRun.
Context {static : StaticAnalysis}.

(** The second run builds the plan of the first and merges the same block
    into the file the first run wrote. *)
Lemma autogen_init_second_run modpath_or_name imports modpath w w1 :
  let init_fpath := os_path_join modpath (py"__init__.py") in
  root_path w modpath_or_name = Some modpath ->
  Some init_fpath ∉ submodule_paths modpath imports ->
  autogen_init modpath_or_name imports false w = (Ok tt, w1) ->
  exists modname imps fis initstr text out wa wb,
    _static_parse_imports modpath imports w = (Ok (modname, imps, fis), wa)
    /\ _initstr modname imps fis false = Ok initstr
    /\ files w !! init_fpath = Some text
    /\ new_text (readlines text) initstr = Ok out
    /\ dirs w1 = dirs w /\ files w1 = <[init_fpath := out]> (files w)
    /\ dirs wb = dirs w1 /\ files wb = files w1
    /\ autogen_init modpath_or_name imports false w1
       = _autogen_init_write modpath initstr wb.
Proof.
  intros init_fpath Hroot Hnotsub Hrun.
  rewrite autogen_init_unfold, Hroot in Hrun.
  destruct (_static_parse_imports modpath imports w)
    as [[[[modname imps] fis]|e] wa] eqn:Eplan; [|discriminate].
  destruct (_initstr modname imps fis false) as [initstr|e] eqn:Einit;
    [|discriminate].
  destruct (_static_parse_imports_files _ _ _ _ _ Eplan) as [Hda Hfa].
  destruct (_autogen_init_write_ok _ _ _ _ Hrun)
    as (text & out & Hfile & Hnew & Hw1).
  fold init_fpath in Hfile, Hw1. rewrite Hfa in Hfile.
  assert (Hd1 : dirs w1 = dirs w) by (subst w1; exact Hda).
  assert (Hf1 : files w1 = <[init_fpath := out]> (files w))
    by (subst w1; cbn [files]; now rewrite Hfa).
  assert (Hplan : (_static_parse_imports modpath imports w1).1
                  = Ok (modname, imps, fis)).
  { rewrite (_static_parse_imports_ext modpath imports w w1).
    - now rewrite Eplan.
    - apply List.Forall_forall. intros path Hin p ->.
      rewrite Hf1. apply lookup_insert_ne. intros <-.
      apply Hnotsub. now apply list_elem_of_In. }
  destruct (_static_parse_imports modpath imports w1) as [res wb] eqn:Eplan1.
  cbn [fst] in Hplan. subst res.
  destruct (_static_parse_imports_files _ _ _ _ _ Eplan1) as [Hdb Hfb].
  exists modname, imps, fis, initstr, text, out, wa, wb.
  repeat split; try assumption.
  rewrite autogen_init_unfold.
  rewrite (root_path_rewritten w w1 init_fpath text out) by assumption.
  rewrite Hroot, Eplan1, Einit. reflexivity.
Qed.

(** X19.  Running [autogen_init] twice on a package whose init file has no
    end tag, with or without a begin tag, leaves after the second run what
    the first run wrote, when the lines kept before the block all end with
    a newline, the root name has no [%] and does not start with
    [__future__], the names of the plan have no white space, hyphen or
    [#], and the init file is not one of the submodules read. *)
Theorem autogen_init_twice_without_end_tag (modpath_or_name : str)
    (imports : option (list str)) (modpath text : str) (w w1 : World) :
  let init_fpath := os_path_join modpath (py"__init__.py") in
  let lines := readlines text in
  root_path w modpath_or_name = Some modpath ->
  files w !! init_fpath = Some text ->
  Forall (fun l => is_end l = false) lines ->
  Forall complete (take (startline (find_region lines)) lines) ->
  (forall plan w',
     _static_parse_imports modpath imports w = (Ok plan, w') ->
     neutral_plan plan) ->
  Some init_fpath ∉ submodule_paths modpath imports ->
  autogen_init modpath_or_name imports false w = (Ok tt, w1) ->
  exists w2,
    autogen_init modpath_or_name imports false w1 = (Ok tt, w2)
    /\ files w2 = files w1 /\ dirs w2 = dirs w1.
Proof.
  intros init_fpath lines Hroot Hfile Hnoend Hcomplete Hblock Hnotsub Hrun.
  destruct (autogen_init_second_run _ _ _ _ _ Hroot Hnotsub Hrun)
    as (modname & imps & fis & initstr & text' & out & wa & wb & Eplan
        & Einit & Hfile' & Hnew & Hd1 & Hf1 & Hdb & Hfb & Hsecond).
  fold init_fpath in Hfile', Hf1. rewrite Hfile in Hfile'.
  injection Hfile' as <-.
  specialize (Hblock _ _ Eplan).
  apply (fun H => block_no_marker _ _ _ _ H Einit) in Hblock.
  destruct (init_indent_shape text) as [Hws HLF].
  pose proof (block_lines_neutral initstr _ Hws HLF Hblock) as Hneutral.
  destruct (new_text_fixed_point_open lines initstr Hnoend Hcomplete Hneutral)
    as [Hnew1 Hnew2].
  fold lines in Hnew. rewrite Hnew in Hnew1. injection Hnew1 as Hout.
  rewrite <- Hout in Hnew2.
  assert (Hfileb : files wb !! os_path_join modpath (py"__init__.py")
                   = Some out).
  { rewrite Hfb, Hf1. apply lookup_insert_eq. }
  rewrite Hsecond.
  rewrite (_autogen_init_write_run modpath initstr wb out out Hfileb Hnew2).
  eexists. split; [reflexivity|]. cbn [files dirs]. split; [|exact Hdb].
  rewrite Hfb. apply insert_id. rewrite Hf1. apply lookup_insert_eq.
Qed.

End SecondRun.

Lemma autogen_init_twice_without_end_tag_witness :
  let w := mkWorld {[ py"pkg" ]}
             (list_to_map [(py"pkg/__init__.py",
                            py"# a comment" ++ [LF] ++ py"import old" ++ [LF]);
                           (py"pkg/a.py", Pkg.a_py);
                           (py"pkg/_hidden.py", Pkg.hidden_py);
                           (py"pkg/b.py", Pkg.b_py)]) [] in
  let w1 := (autogen_init (static := Pkg.static) (py"pkg") None false w).2 in
  exists w2,
    autogen_init (static := Pkg.static) (py"pkg") None false w1 = (Ok tt, w2)
    /\ files w2 = files w1.
Proof.
  intros w w1.
  destruct (autogen_init_twice_without_end_tag (static := Pkg.static)
              (py"pkg") None (py"pkg")
              (py"# a comment" ++ [LF] ++ py"import old" ++ [LF]) w w1)
    as (w2 & Hrun & Hfiles & _).
  - vm_compute. reflexivity.
  - vm_compute. reflexivity.
  - repeat constructor.
  - repeat constructor. exists (py"# a comment"). split; [reflexivity|].
    repeat constructor; discriminate.
  - intros plan w' Hplan.
    assert (Hp : (_static_parse_imports (static := Pkg.static) (py"pkg") None
                    w).1
                 = Ok (py"pkg", [py"a"; py"b"],
                       [(py"a", [py"foo"]); (py"b", [])]))
      by (vm_compute; reflexivity).
    rewrite Hplan in Hp. cbn [fst] in Hp. injection Hp as ->.
    unfold neutral_plan. cbn [fst snd].
    repeat split; repeat constructor.
  - apply (bool_decide_eq_false_1 _). vm_compute. reflexivity.
  - assert (Hr : (autogen_init (static := Pkg.static) (py"pkg") None false
                    w).1 = Ok tt) by (vm_compute; reflexivity).
    rewrite <- Hr. exact (surjective_pairing _).
  - exists w2. split; [exact Hrun | exact Hfiles].
Defined.

(** ** The two modes of the builder *)

Section Modes.
Context {static : StaticAnalysis}.

(** X20.  Listing the submodules changes nothing when the list is what the
    enumeration finds: when the names of the submodules the enumeration
    keeps resolve back to their paths, the builder without a list does what
    the builder does with the list of these names, same plan, same
    exception, same files opened. *)
Theorem enumeration_as_explicit_list (modpath : str) (w : World) :
  let modname := modpath_to_modname modpath in
  let kept := retained modname (package_modpaths modpath) in
  Forall (fun p => modname_to_modpath
                     (modname ++ py"." ++ rel_modname modname p) = Some p)
         kept ->
  _static_parse_imports modpath None w
  = _static_parse_imports modpath (Some (map (rel_modname modname) kept)) w.
Proof.
  intros modname kept Hresolve.
  unfold _static_parse_imports. fold modname.
  rewrite enumerate_spec. cbn [fst snd app]. fold kept.
  assert (Hpaths : map (fun m => modname_to_modpath (modname ++ py"." ++ m))
                       (map (rel_modname modname) kept)
                   = map Some kept).
  { rewrite map_map. clear -Hresolve.
    induction Hresolve as [|p ps Hp _ IH]; [reflexivity|].
    cbn [map]. now rewrite Hp, IH. }
  rewrite Hpaths. reflexivity.
Qed.

End Modes.

Lemma enumeration_as_explicit_list_witness :
  _static_parse_imports (static := Pkg.static) (py"pkg") None Pkg.world
  = _static_parse_imports (static := Pkg.static) (py"pkg")
      (Some [py"a"; py"b"]) Pkg.world.
Proof.
  apply (enumeration_as_explicit_list (static := Pkg.static) (py"pkg")
           Pkg.world).
  repeat constructor.
Defined.
